(** * Alta Parking Monitor: the monitoring / booking engine

    A shallow embedding of [src/monitor/parking.js] ([startMonitor],
    [waitWithAbort], [checkAndBook]) and of the ['start-monitor'] /
    ['stop-monitor'] IPC handlers of [src/main/index.js].

    The JavaScript code is asynchronous and talks to a browser through
    playwright.  Every call that leaves the module (a status callback, a read
    of the abort signal, a timer, a playwright call) is an operation of the
    type [Op]; a function of the source is a finite tree of such operations
    ([Prog]).  The behaviour of the outside world is a handler that answers the
    operations ([World]); theorems quantify over worlds.  Three kinds of world
    are used: an arbitrary one, one with a logical clock for the timer and the
    abort event ([Clock]), and the main process, in which several calls are in
    flight and the IPC handlers interleave with them ([Main]). *)

From Stdlib Require Import String Ascii List ZArith Bool Arith Lia.
From Stdlib Require Import DecimalString.
Import ListNotations.

Set Implicit Arguments.
Local Open Scope string_scope.
Local Open Scope nat_scope.

(* ================================================================== *)
(** ** JavaScript strings

    A string is a sequence of code units; the model keeps the code units
    0..255 (Latin-1), which is where every literal of the source lives. *)

Module JsString.

Definition chars (s : string) : list ascii := list_ascii_of_string s.

(** [WhiteSpace] and [LineTerminator] code units below 256: TAB, LF, VT, FF,
    CR, SPACE and NBSP.  This is the class of the regular expression atom
    [\s] and the set removed by [String.prototype.trim]. *)
Definition is_space (c : ascii) : bool :=
  let n := nat_of_ascii c in
  ((9 <=? n) && (n <=? 13)) || (n =? 32) || (n =? 160).

(** Canonicalisation of a code unit under the [i] flag (no [u] flag): the
    upper-case mapping, except that a code unit above 127 is never mapped
    into ASCII.  Every literal of the patterns of the source is an ASCII
    letter, for which only the ASCII mapping matters. *)
Definition canonicalize (c : ascii) : ascii :=
  let n := nat_of_ascii c in
  if (97 <=? n) && (n <=? 122) then ascii_of_nat (n - 32) else c.

Fixpoint trimStart (s : list ascii) : list ascii :=
  match s with
  | c :: s' => if is_space c then trimStart s' else s
  | [] => []
  end.

Definition trimEnd (s : list ascii) : list ascii := rev (trimStart (rev s)).

(** [String.prototype.trim] *)
Definition trim (s : string) : string :=
  string_of_list_ascii (trimEnd (trimStart (chars s))).

Fixpoint startsWith (p s : list ascii) : bool :=
  match p, s with
  | [], _ => true
  | a :: p', b :: s' => Ascii.eqb a b && startsWith p' s'
  | _ :: _, [] => false
  end.

Fixpoint includes_chars (s p : list ascii) : bool :=
  startsWith p s ||
  match s with
  | [] => false
  | _ :: s' => includes_chars s' p
  end.

(** [String.prototype.includes] (case-sensitive substring test) *)
Definition includes (s p : string) : bool := includes_chars (chars s) (chars p).

(** a string is truthy iff it is not empty *)
Definition truthy (s : string) : bool := negb (String.eqb s EmptyString).

(** a piece of text between double quotes *)
Definition quoted (s : string) : string :=
  String (ascii_of_nat 34) (s ++ String (ascii_of_nat 34) EmptyString).

(** decimal rendering of an integer, as in a template literal *)
Definition of_Z (z : Z) : string := NilZero.string_of_int (Z.to_int z).
Definition of_nat (n : nat) : string := NilZero.string_of_uint (Nat.to_uint n).

End JsString.

(* ================================================================== *)
(** ** Regular expressions

    The patterns of the source use literals, [\s], [*], [?], grouping and
    alternation, all under the [i] flag, and are only used through
    [RegExp.prototype.test], which asks whether some substring matches. *)

Module Regex.
Import JsString.

Inductive regex : Type :=
| Void                       (* matches nothing (only arises from derivatives) *)
| Eps                        (* the empty pattern *)
| Chr (c : ascii)            (* a literal character, compared up to case *)
| Space                      (* \s *)
| Seq (r1 r2 : regex)
| Alt (r1 r2 : regex)        (* r1|r2 *)
| Star (r : regex).          (* r* *)

(** r? *)
Definition Opt (r : regex) : regex := Alt r Eps.

(** a literal word, character by character *)
Fixpoint word (w : list ascii) : regex :=
  match w with
  | [] => Eps
  | c :: w' => Seq (Chr c) (word w')
  end.
Definition lit (w : string) : regex := word (chars w).

(** Declarative meaning of a pattern: the strings it matches entirely. *)
Inductive matches : regex -> list ascii -> Prop :=
| m_eps : matches Eps []
| m_chr c d : canonicalize c = canonicalize d -> matches (Chr c) [d]
| m_space d : is_space d = true -> matches Space [d]
| m_seq r1 r2 s1 s2 : matches r1 s1 -> matches r2 s2 -> matches (Seq r1 r2) (s1 ++ s2)
| m_alt_l r1 r2 s : matches r1 s -> matches (Alt r1 r2) s
| m_alt_r r1 r2 s : matches r2 s -> matches (Alt r1 r2) s
| m_star_nil r : matches (Star r) []
| m_star_app r s1 s2 : matches r s1 -> matches (Star r) s2 -> matches (Star r) (s1 ++ s2).

Fixpoint nullable (r : regex) : bool :=
  match r with
  | Void => false
  | Eps => true
  | Chr _ => false
  | Space => false
  | Seq r1 r2 => nullable r1 && nullable r2
  | Alt r1 r2 => nullable r1 || nullable r2
  | Star _ => true
  end.

(** Brzozowski derivative of a pattern by one code unit *)
Fixpoint deriv (d : ascii) (r : regex) : regex :=
  match r with
  | Void => Void
  | Eps => Void
  | Chr c => if Ascii.eqb (canonicalize c) (canonicalize d) then Eps else Void
  | Space => if is_space d then Eps else Void
  | Seq r1 r2 =>
      if nullable r1
      then Alt (Seq (deriv d r1) r2) (deriv d r2)
      else Seq (deriv d r1) r2
  | Alt r1 r2 => Alt (deriv d r1) (deriv d r2)
  | Star r1 => Seq (deriv d r1) (Star r1)
  end.

(** does some prefix of [s] match [r]? *)
Fixpoint match_prefix (r : regex) (s : list ascii) : bool :=
  nullable r ||
  match s with
  | [] => false
  | c :: s' => match_prefix (deriv c r) s'
  end.

(** does some substring of [s] match [r]? *)
Fixpoint search (r : regex) (s : list ascii) : bool :=
  match_prefix r s ||
  match s with
  | [] => false
  | _ :: s' => search r s'
  end.

(** [RegExp.prototype.test] for a pattern without the [g] and [y] flags *)
Definition test (r : regex) (s : string) : bool := search r (chars s).

End Regex.

(* ================================================================== *)
(** ** Operations and programs *)

Inductive StatusKind : Type :=
| checking | monitoring | available | success | error | idle.

(** a JavaScript [Error]; the code reads [err.name] and [err.message] *)
Record Error : Type := mkError { name : string; message : string }.

(** handles of the objects the code holds *)
Definition Signal := nat.    (* an AbortSignal *)
Definition Timer := nat.     (* the id returned by setTimeout *)
Definition Browser := nat.   (* playwright Browser *)
Definition Context := nat.   (* playwright BrowserContext *)
Definition Page := nat.      (* playwright Page *)
Definition Elem := nat.      (* playwright ElementHandle *)

(** An operation is indexed by the type of its answer.  The synchronous
    operations answer directly; an awaited promise answers [inl err] when it
    rejects and [inr v] when it resolves. *)
Inductive Op : Type -> Type :=
(* synchronous *)
| OnStatus (kind : StatusKind) (msg : string) : Op unit
| SignalAborted (signal : Signal) : Op bool
| SetTimeout (ms : Z) : Op Timer
    (* setTimeout(resolve, ms) *)
| AddAbortListener (signal : Signal) (timeout : Timer) : Op unit
    (* signal.addEventListener('abort', () => { clearTimeout(timeout); resolve(); }, { once: true }) *)
(* awaited *)
| AwaitResolve (timeout : Timer) : Op unit
    (* the promise of waitWithAbort, resolved by the timer or by the listener *)
| Launch (executablePath : option string) : Op (Error + Browser)
| NewContext (browser : Browser) : Op (Error + Context)
| NewPage (context : Context) : Op (Error + Page)
| Goto (page : Page) (url : string) : Op (Error + unit)
| WaitForTimeout (page : Page) (ms : Z) : Op (Error + unit)
| WaitForLoadState (page : Page) : Op (Error + unit)
| Query (page : Page) (selector : string) : Op (Error + option Elem)      (* page.$ *)
| QueryAll (page : Page) (selector : string) : Op (Error + list Elem)     (* page.$$ *)
| InnerText (el : Elem) : Op (Error + string)
| GetAttribute (el : Elem) (name : string) : Op (Error + option string)
| Click (el : Elem) : Op (Error + unit)
| Fill (el : Elem) (value : string) : Op (Error + unit)
| PageFill (page : Page) (selector value : string) : Op (Error + unit)
| PageClick (page : Page) (selector : string) : Op (Error + unit)
| PageInnerText (page : Page) (selector : string) : Op (Error + string)
| Close (browser : Browser) : Op (Error + unit).

(** A program: it returns, throws, or performs an operation and goes on with
    the answer. *)
Inductive Prog (A : Type) : Type :=
| Ret (a : A)
| Throw (e : Error)
| Do (X : Type) (op : Op X) (k : X -> Prog A).

Arguments Ret {A} a.
Arguments Throw {A} e.
Arguments Do {A X} op k.

Fixpoint bind {A B} (p : Prog A) (f : A -> Prog B) : Prog B :=
  match p with
  | Ret a => f a
  | Throw e => Throw e
  | Do op k => Do op (fun x => bind (k x) f)
  end.

(** try { p } catch (err) { h err } *)
Fixpoint try_catch {A} (p : Prog A) (h : Error -> Prog A) : Prog A :=
  match p with
  | Ret a => Ret a
  | Throw e => h e
  | Do op k => Do op (fun x => try_catch (k x) h)
  end.

(** a synchronous call *)
Definition call {X} (op : Op X) : Prog X := Do op Ret.

(** [await] of a promise: a rejection is thrown *)
Definition await {X} (op : Op (Error + X)) : Prog X :=
  Do op (fun r => match r with inl e => Throw e | inr x => Ret x end).

Declare Scope prog_scope.
Delimit Scope prog_scope with prog.
Notation "x <- p ;; q" := (bind p (fun x => q))
  (at level 61, p at next level, right associativity) : prog_scope.
Notation "p ;; q" := (bind p (fun _ => q))
  (at level 61, right associativity) : prog_scope.
Local Open Scope prog_scope.

(** *** Running a program against the outside world *)

(** one performed operation with its answer *)
Record Evt : Type := evt { evt_type : Type; evt_op : Op evt_type; evt_answer : evt_type }.
Arguments evt {evt_type} evt_op evt_answer.

Inductive Outcome (A : Type) : Type :=
| Returned (a : A)
| Raised (e : Error).
Arguments Returned {A} a.
Arguments Raised {A} e.

(** The outside world: a state and the answer it gives to each operation. *)
Record World : Type := mkWorld {
  state : Type;
  handle : forall X, Op X -> state -> X * state
}.

Fixpoint run (E : World) {A} (p : Prog A) (w : state E) : Outcome A * state E * list Evt :=
  match p with
  | Ret a => (Returned a, w, [])
  | Throw e => (Raised e, w, [])
  | Do op k =>
      let (x, w1) := handle E op w in
      let '(o, w2, tr) := run E (k x) w1 in
      (o, w2, evt op x :: tr)
  end.

Definition outcome_of {A W} (r : Outcome A * W * list Evt) : Outcome A := fst (fst r).
Definition state_of {A W} (r : Outcome A * W * list Evt) : W := snd (fst r).
Definition trace_of {A W} (r : Outcome A * W * list Evt) : list Evt := snd r.

(* ================================================================== *)
(** ** src/monitor/parking.js *)

Record MonitorConfig : Type := mkConfig {
  email : string;
  password : string;
  seasonPass : string;
  licensePlate : string;
  targetDate : string;              (* YYYY-MM-DD *)
  intervalMs : Z;
  chromiumPath : option string      (* optional *)
}.

(** the object returned by [checkAndBook] ([check_available] is its field
    [available], a name the status kind has here) *)
Record CheckResult : Type := mkCheck {
  check_available : bool;
  booked : bool;
  status : option string
}.

(** the object returned by [startMonitor] *)
Record MonitorResult : Type := mkResult { monitor_booked : bool }.

Module Parking.
Import JsString Regex.

(** [Math.round(intervalMs / 60000)], rendered in a template literal.  It is
    computed on the integers; the source computes in doubles, which give the
    same digits for a whole number of milliseconds of at most 2^31 in
    absolute value, and for a multiple of 60000 of at most 2^53. *)
Definition minutes (intervalMs : Z) : string :=
  of_Z ((intervalMs + 30000) / 60000)%Z.

(** truthiness of an optional string ([undefined], [null] and [''] are falsy) *)
Definition truthy_opt (o : option string) : bool :=
  match o with
  | Some s => truthy s
  | None => false
  end.

Definition is_some {A} (o : option A) : bool :=
  match o with Some _ => true | None => false end.

(** lines 29-35: the entries of [required], in order, and the first falsy one *)
Definition required (config : MonitorConfig) : list (string * string) :=
  [ ("email", email config);
    ("password", password config);
    ("seasonPass", seasonPass config);
    ("licensePlate", licensePlate config);
    ("targetDate", targetDate config) ].

Fixpoint first_missing (entries : list (string * string)) : option string :=
  match entries with
  | [] => None
  | (key, value) :: rest => if truthy value then first_missing rest else Some key
  end.

(** the status messages of [startMonitor] (lines 32, 37, 45, 51, 58, 65) *)
Definition missing_message (key : string) : string :=
  "Missing required config: " ++ key.
Definition starting_message (config : MonitorConfig) : string :=
  "Starting monitor for " ++ targetDate config ++ " (checking every "
    ++ minutes (intervalMs config) ++ " min)".
Definition booked_message (config : MonitorConfig) : string :=
  "Successfully booked parking for " ++ targetDate config ++ "!".
Definition next_check_message (config : MonitorConfig) : string :=
  "Next check in " ++ minutes (intervalMs config) ++ " minute(s)...".
Definition check_error_message (err : Error) : string :=
  "Error during check: " ++ message err.
Definition stopped_message : string := "Monitor stopped".

(** lines 72-88 *)
Definition waitWithAbort (ms : Z) (signal : Signal) : Prog unit :=
  aborted <- call (SignalAborted signal) ;;
  if aborted then Ret tt
  else
    timeout <- call (SetTimeout ms) ;;
    call (AddAbortListener signal timeout) ;;
    call (AwaitResolve timeout).

(** *** The patterns of [checkAndBook] *)

Definition ws : regex := Star Space.                        (* \s* *)

(** lines 209-215 *)
Definition soldOutPatterns : list regex :=
  [ Seq (lit "sold") (Seq ws (lit "out"));                  (* /sold\s*out/i *)
    Seq (lit "no") (Seq ws
      (Seq (Alt (Seq (lit "spot") (Opt (lit "s"))) (lit "parking"))
           (Seq ws (lit "available"))));                    (* /no\s*(spots?|parking)\s*available/i *)
    Seq (lit "fully") (Seq ws (lit "booked"));              (* /fully\s*booked/i *)
    lit "unavailable";                                      (* /unavailable/i *)
    lit "waitlist" ].                                       (* /waitlist/i *)

(** line 257: /confirm|success|booked|reserved|thank\s*you/i *)
Definition successPattern : regex :=
  Alt (lit "confirm")
    (Alt (lit "success")
      (Alt (lit "booked")
        (Alt (lit "reserved")
          (Seq (lit "thank") (Seq ws (lit "you")))))).

(** lines 217-223: the first pattern that matches, if any *)
Fixpoint first_match (patterns : list regex) (text : string) : option regex :=
  match patterns with
  | [] => None
  | pattern :: rest => if test pattern text then Some pattern else first_match rest text
  end.

(** *** The selectors of [checkAndBook] *)

Definition url := "https://reserve.altaparking.com".
Definition has_text (tag text : string) : string :=
  tag ++ ":has-text(" ++ quoted text ++ ")".

(* line 128 *)
Definition sel_login : string :=
  has_text "button" "Log In" ++ ", " ++ has_text "a" "Log In" ++ ", " ++
  has_text "button" "Sign In".
(* lines 129, 141 *)
Definition sel_email : string :=
  "input[type=" ++ quoted "email" ++ "], input[name=" ++ quoted "email" ++ "]".
(* line 142 *)
Definition sel_password : string :=
  "input[type=" ++ quoted "password" ++ "], input[name=" ++ quoted "password" ++ "]".
(* line 145 *)
Definition sel_submit : string :=
  "button[type=" ++ quoted "submit" ++ "], " ++ has_text "button" "Log In" ++ ", " ++
  has_text "button" "Sign In".
(* lines 158-159 *)
Definition dateSelector (targetDate : string) : string :=
  "[data-date=" ++ quoted targetDate ++ "], " ++ "[aria-label*=" ++ quoted targetDate ++ "]".
(* line 166 *)
Definition daySelector (targetDay : string) : string :=
  has_text "button" targetDay ++ ", " ++ has_text "td" targetDay ++ ", " ++
  has_text ".day" targetDay.
(* line 197 *)
Definition sel_next : string :=
  has_text "button" "Next" ++ ", " ++ has_text "button" ">" ++
  ", .next-month, [aria-label=" ++ quoted "Next month" ++ "]".
(* line 226 *)
Definition sel_book : string :=
  has_text "button" "Reserve" ++ ", " ++ has_text "button" "Book" ++ ", " ++
  has_text "button" "Add to Cart" ++ ", " ++ has_text "button" "Select".
(* line 236 *)
Definition sel_pass : string :=
  "input[name*=" ++ quoted "pass" ++ "], input[placeholder*=" ++ quoted "pass" ++
  "], input[name*=" ++ quoted "code" ++ "]".
(* line 243 *)
Definition sel_plate : string :=
  "input[name*=" ++ quoted "plate" ++ "], input[name*=" ++ quoted "license" ++
  "], input[placeholder*=" ++ quoted "plate" ++ "]".
(* line 250 *)
Definition sel_confirm : string :=
  has_text "button" "Confirm" ++ ", " ++ has_text "button" "Complete" ++ ", " ++
  has_text "button" "Submit" ++ ", button[type=" ++ quoted "submit" ++ "]".

(** the three objects [checkAndBook] returns *)
Definition sold_out : CheckResult := mkCheck false false (Some "sold_out").
Definition not_found : CheckResult := mkCheck false false (Some "not_found").
Definition booking_done : CheckResult := mkCheck true true None.
Definition booking_failed : CheckResult := mkCheck true false None.

(** how an iteration of the calendar loop ends *)
Inductive LoopExit : Type :=
| ReturnNow (result : CheckResult)      (* return from checkAndBook *)
| FallThrough.                          (* break, or the loop ran out *)

Section CheckAndBook.

(** [new Date(s).getDate()] of the JavaScript runtime: the day of the
    month, or [None] for [NaN] (an invalid date). *)
Variable getDate : string -> option nat.

(** [String(targetDay)] *)
Definition day_string (targetDay : option nat) : string :=
  match targetDay with
  | Some d => of_nat d
  | None => "NaN"
  end.

(** lines 169-175: the first element whose trimmed text is the day *)
Fixpoint find_exact_day (targetDay : option nat) (dayElements : list Elem)
  : Prog (option Elem) :=
  match dayElements with
  | [] => Ret None
  | el :: rest =>
      text <- await (InnerText el) ;;
      if String.eqb (trim text) (day_string targetDay)
      then Ret (Some el)
      else find_exact_day targetDay rest
  end.

(** lines 158-176: the date cell on the current calendar view *)
Definition find_date (page : Page) (targetDate : string) : Prog (option Elem) :=
  dateElement <- await (Query page (dateSelector targetDate)) ;;
  match dateElement with
  | Some el => Ret (Some el)
  | None =>
      let targetDay := getDate (targetDate ++ "T12:00:00") in
      dayElements <- await (QueryAll page (daySelector (day_string targetDay))) ;;
      find_exact_day targetDay dayElements
  end.

(** lines 156-203: [while (attempts < maxAttempts)], with
    [left = maxAttempts - attempts] iterations still allowed *)
Fixpoint calendar_loop (left : nat) (browser : Browser) (page : Page)
    (targetDate : string) : Prog LoopExit :=
  match left with
  | O => Ret FallThrough
  | S left' =>
      dateElement <- find_date page targetDate ;;
      match dateElement with
      | Some el =>
          isDisabled <- await (GetAttribute el "disabled") ;;
          class <- await (GetAttribute el "class") ;;
          let classList := match class with
                           | Some c => if truthy c then c else EmptyString
                           | None => EmptyString
                           end in
          if truthy_opt isDisabled || includes classList "disabled"
             || includes classList "sold-out"
          then
            call (OnStatus checking (targetDate ++ " found but SOLD OUT")) ;;
            await (Close browser) ;;
            Ret (ReturnNow sold_out)
          else
            call (OnStatus checking ("Found " ++ targetDate ++ " - selecting...")) ;;
            await (Click el) ;;
            await (WaitForTimeout page 2000) ;;
            Ret FallThrough
      | None =>
          nextButton <- await (Query page sel_next) ;;
          match nextButton with
          | Some b => await (Click b) ;; await (WaitForTimeout page 1000)
          | None => Ret tt
          end ;;
          calendar_loop left' browser page targetDate
      end
  end.

Definition maxAttempts : nat := 12.

(** page.innerText('body').catch(() => '') *)
Definition body_text (page : Page) : Prog string :=
  try_catch (await (PageInnerText page "body")) (fun _ => Ret EmptyString).

Definition check_manually_message : string :=
  "Spot was available but auto-booking may have failed. Check manually!".

(** lines 250-265: from the lookup of the confirm button to the return *)
Definition confirm_step (config : MonitorConfig) (browser : Browser) (page : Page)
  : Prog CheckResult :=
  confirmButton <- await (Query page sel_confirm) ;;
  confirmed <-
    match confirmButton with
    | Some cb =>
        await (Click cb) ;;
        await (WaitForTimeout page 3000) ;;
        successText <- body_text page ;;
        Ret (test successPattern successText)
    | None => Ret false
    end ;;
  if (confirmed : bool)
  then
    await (Close browser) ;;
    Ret booking_done
  else
    call (OnStatus error check_manually_message) ;;
    await (Close browser) ;;
    Ret booking_failed.

(** lines 228-266: the booking button was found *)
Definition book_step (config : MonitorConfig) (browser : Browser) (page : Page)
    (bookButton : Elem) : Prog CheckResult :=
  call (OnStatus available
          ("SPOT AVAILABLE for " ++ targetDate config ++ "! Attempting to book...")) ;;
  await (Click bookButton) ;;
  await (WaitForTimeout page 2000) ;;
  passInput <- await (Query page sel_pass) ;;
  match passInput with
  | Some i =>
      await (Fill i (seasonPass config)) ;;
      call (OnStatus available "Entered season pass...")
  | None => Ret tt
  end ;;
  plateInput <- await (Query page sel_plate) ;;
  match plateInput with
  | Some i =>
      await (Fill i (licensePlate config)) ;;
      call (OnStatus available "Entered license plate...")
  | None => Ret tt
  end ;;
  confirm_step config browser page.

(** lines 205-270: the state of the page after the calendar loop *)
Definition availability_step (config : MonitorConfig) (browser : Browser) (page : Page)
  : Prog CheckResult :=
  pageText <- body_text page ;;
  match first_match soldOutPatterns pageText with
  | Some _ =>
      call (OnStatus checking (targetDate config ++ ": No parking available")) ;;
      await (Close browser) ;;
      Ret sold_out
  | None =>
      bookButton <- await (Query page sel_book) ;;
      match bookButton with
      | Some bb => book_step config browser page bb
      | None =>
          call (OnStatus checking ("No parking available for " ++ targetDate config)) ;;
          await (Close browser) ;;
          Ret not_found
      end
  end.

(** lines 127-148 *)
Definition login_step (config : MonitorConfig) (page : Page) : Prog unit :=
  loginButton <- await (Query page sel_login) ;;
  emailInput <- await (Query page sel_email) ;;
  if is_some loginButton || is_some emailInput
  then
    call (OnStatus checking "Logging in...") ;;
    match loginButton with
    | Some b => await (Click b) ;; await (WaitForTimeout page 1500)
    | None => Ret tt
    end ;;
    await (PageFill page sel_email (email config)) ;;
    await (PageFill page sel_password (password config)) ;;
    await (PageClick page sel_submit) ;;
    await (WaitForTimeout page 3000) ;;
    await (WaitForLoadState page)
  else Ret tt.

(** lines 123-270: the body of the [try] block *)
Definition session (config : MonitorConfig) (browser : Browser) (page : Page)
  : Prog CheckResult :=
  await (Goto page url) ;;
  await (WaitForTimeout page 2000) ;;
  login_step config page ;;
  call (OnStatus checking "Looking for target date...") ;;
  exit <- calendar_loop maxAttempts browser page (targetDate config) ;;
  match exit with
  | ReturnNow result => Ret result
  | FallThrough => availability_step config browser page
  end.

(** lines 98-117: launch, with the fallback to the system browser *)
Definition launch_browser (config : MonitorConfig) : Prog Browser :=
  let executablePath :=
    if truthy_opt (chromiumPath config) then chromiumPath config else None in
  try_catch (await (Launch executablePath))
    (fun err =>
       if truthy_opt (chromiumPath config)
       then
         call (OnStatus error "Failed to launch bundled Chromium, trying system browser...") ;;
         await (Launch None)
       else Throw err).

(** lines 93-276 *)
Definition checkAndBook (config : MonitorConfig) : Prog CheckResult :=
  call (OnStatus checking ("Checking availability for " ++ targetDate config ++ "...")) ;;
  browser <- launch_browser config ;;
  context <- await (NewContext browser) ;;
  page <- await (NewPage context) ;;
  try_catch (session config browser page)
    (fun err => await (Close browser) ;; Throw err).

(** how one turn of the monitoring loop ends *)
Inductive Turn : Type :=
| Finish (result : MonitorResult)     (* return *)
| Break                               (* break *)
| Again.                              (* next iteration *)

(** lines 41-62: the body of the [while] loop *)
Definition monitor_turn (config : MonitorConfig) (signal : Signal) : Prog Turn :=
  try_catch
    (result <- checkAndBook config ;;
     if booked result
     then
       call (OnStatus success (booked_message config)) ;;
       Ret (Finish (mkResult true))
     else
       aborted <- call (SignalAborted signal) ;;
       if aborted then Ret Break
       else
         call (OnStatus monitoring (next_check_message config)) ;;
         waitWithAbort (intervalMs config) signal ;;
         Ret Again)
    (fun err =>
       aborted <- call (SignalAborted signal) ;;
       if aborted then Ret Break
       else
         call (OnStatus error (check_error_message err)) ;;
         waitWithAbort (intervalMs config) signal ;;
         Ret Again).

(** lines 65-66 *)
Definition monitor_stopped : Prog (option MonitorResult) :=
  call (OnStatus monitoring stopped_message) ;;
  Ret (Some (mkResult false)).

(** lines 40-66: [while (!signal.aborted)] unrolled at most [fuel] times;
    [None] when the loop is still running after that many turns *)
Fixpoint monitor_loop (fuel : nat) (config : MonitorConfig) (signal : Signal)
  : Prog (option MonitorResult) :=
  match fuel with
  | O => Ret None
  | S fuel' =>
      aborted <- call (SignalAborted signal) ;;
      if aborted then monitor_stopped
      else
        turn <- monitor_turn config signal ;;
        match turn with
        | Finish result => Ret (Some result)
        | Break => monitor_stopped
        | Again => monitor_loop fuel' config signal
        end
  end.

(** lines 25-67 *)
Definition startMonitor (fuel : nat) (config : MonitorConfig) (signal : Signal)
  : Prog (option MonitorResult) :=
  match first_missing (required config) with
  | Some key =>
      call (OnStatus error (missing_message key)) ;;
      Ret (Some (mkResult false))
  | None =>
      call (OnStatus monitoring (starting_message config)) ;;
      monitor_loop fuel config signal
  end.

End CheckAndBook.
End Parking.

(* ================================================================== *)
(** ** Worlds *)

(** *** A world with a clock

    Logical time of the event loop, in milliseconds.  The shell's call of
    [controller.abort()] for a signal is an event of the world, scheduled at
    [stop_at signal]; a timer is due at a time; an abort listener clears its
    timer and resolves the promise when the abort event is dispatched.  The
    remaining operations are answered by an arbitrary inner world and take the
    time [latency] says. *)
Module Clock.

(** the delay Node gives a timer: below 1 or above 2^31-1 it is 1 *)
Definition timer_delay (ms : Z) : Z :=
  if ((ms <? 1) || (2147483647 <? ms))%Z then 1%Z else ms.

Section Timed.
Variable inner : World.
Variable latency : forall X, Op X -> state inner -> Z.

Record tstate : Type := mkT {
  now : Z;
  stop_at : Signal -> option Z;
  timers : list (Timer * Z);            (* pending timers and when they are due *)
  listeners : list (Timer * Signal);    (* abort listeners, by the timer they clear *)
  next_timer : Timer;
  hung : bool;                          (* an await that nothing will ever resolve *)
  inner_state : state inner
}.

Definition aborted (t : tstate) (signal : Signal) : bool :=
  match stop_at t signal with
  | Some ta => (ta <=? now t)%Z
  | None => false
  end.

Fixpoint lookup {V} (k : nat) (l : list (nat * V)) : option V :=
  match l with
  | [] => None
  | (k', v) :: l' => if Nat.eqb k k' then Some v else lookup k l'
  end.

Definition remove_key {V} (k : nat) (l : list (nat * V)) : list (nat * V) :=
  filter (fun kv => negb (Nat.eqb k (fst kv))) l.

(** when the promise tied to [timeout] is resolved: when the timer is due,
    or when the abort event reaches the listener, whichever is first *)
Definition wake_time (t : tstate) (timeout : Timer) : option Z :=
  let due := lookup timeout (timers t) in
  let abort := match lookup timeout (listeners t) with
               | Some signal => stop_at t signal
               | None => None
               end in
  match due, abort with
  | Some d, Some a => Some (Z.min d a)
  | Some d, None => Some d
  | None, Some a => Some a
  | None, None => None
  end.

Definition timed_handle X (op : Op X) (t : tstate) : X * tstate :=
  match op in Op X return X * tstate with
  | SignalAborted signal => (aborted t signal, t)
  | SetTimeout ms =>
      (next_timer t,
       mkT (now t) (stop_at t)
           ((next_timer t, (now t + timer_delay ms)%Z) :: timers t)
           (listeners t) (S (next_timer t)) (hung t) (inner_state t))
  | AddAbortListener signal timeout =>
      (tt,
       mkT (now t) (stop_at t) (timers t)
           ((timeout, signal) :: listeners t) (next_timer t) (hung t) (inner_state t))
  | AwaitResolve timeout =>
      match wake_time t timeout with
      | Some at_ =>
          (tt,
           mkT (Z.max (now t) at_) (stop_at t)
               (remove_key timeout (timers t)) (remove_key timeout (listeners t))
               (next_timer t) (hung t) (inner_state t))
      | None =>
          (tt,
           mkT (now t) (stop_at t) (timers t) (listeners t) (next_timer t) true
               (inner_state t))
      end
  | OnStatus kind msg =>
      (* a synchronous callback: no event of the world happens meanwhile *)
      let (x, i) := handle inner (OnStatus kind msg) (inner_state t) in
      (x,
       mkT (now t) (stop_at t) (timers t) (listeners t) (next_timer t) (hung t) i)
  | op' =>
      let (x, i) := handle inner op' (inner_state t) in
      (x,
       mkT (now t + Z.max 0 (latency op' (inner_state t)))%Z (stop_at t) (timers t)
           (listeners t) (next_timer t) (hung t) i)
  end.

Definition timed : World := mkWorld timed_handle.

End Timed.
End Clock.

(** *** The main process: src/main/index.js

    Several [startMonitor] calls can be in flight at once, each parked at an
    [await].  The IPC handlers run to completion; a call of [startMonitor]
    runs synchronously up to its first [await], where the awaited operation
    has been started; the world later resolves the operation of one parked
    call, which then runs on to its next [await].  The continuations that a
    handler queues (a sleep resolved by [abort()], the [then] callback of a
    call that has returned) run when the handler has returned, before
    anything else; an [await] of a promise that is already settled is taken in
    the same step. *)
Module Main.
Import JsString Parking.

(** the [config] object the renderer sends with ['start-monitor'] *)
Record IpcConfig : Type := mkIpc {
  ipc_email : string;
  ipc_password : string;
  ipc_seasonPass : string;
  ipc_licensePlate : string;
  ipc_targetDate : string;
  intervalMinutes : Z
}.

Record Task : Type := mkTask {
  task_signal : Signal;
  task_date : string;                            (* config.targetDate of the handler call *)
  parked : Prog (option MonitorResult)           (* what is left of startMonitor *)
}.

Record Sys : Type := mkSys {
  monitorAbortController : option Signal;        (* a controller is named by its signal *)
  next_signal : Signal;
  aborted_signals : list Signal;
  sys_listeners : list (Timer * Signal);
  sys_next_timer : Timer;
  tasks : list Task;
  live : list Browser;                           (* launched and not closed *)
  window_open : bool;                            (* mainWindow && !mainWindow.isDestroyed() *)
  sent : list (StatusKind * string);             (* 'monitor-status' messages, latest first *)
  notifications : list (string * string)
}.

Definition with_tasks (s : Sys) (ts : list Task) : Sys :=
  mkSys (monitorAbortController s) (next_signal s) (aborted_signals s) (sys_listeners s)
        (sys_next_timer s) ts (live s) (window_open s) (sent s) (notifications s).

Definition with_controller (s : Sys) (c : option Signal) : Sys :=
  mkSys c (next_signal s) (aborted_signals s) (sys_listeners s)
        (sys_next_timer s) (tasks s) (live s) (window_open s) (sent s) (notifications s).

Definition with_live (s : Sys) (l : list Browser) : Sys :=
  mkSys (monitorAbortController s) (next_signal s) (aborted_signals s) (sys_listeners s)
        (sys_next_timer s) (tasks s) l (window_open s) (sent s) (notifications s).

(** lines 162-170 *)
Definition sendStatus (kind : StatusKind) (msg : string) (s : Sys) : Sys :=
  if window_open s
  then mkSys (monitorAbortController s) (next_signal s) (aborted_signals s)
             (sys_listeners s) (sys_next_timer s) (tasks s) (live s) (window_open s)
             ((kind, msg) :: sent s) (notifications s)
  else s.

(** lines 177-186, on a platform that supports notifications; a title and a
    body are recorded (the pictogram that opens the title in the source is
    left out) *)
Definition showNotification (title body : string) (s : Sys) : Sys :=
  mkSys (monitorAbortController s) (next_signal s) (aborted_signals s)
        (sys_listeners s) (sys_next_timer s) (tasks s) (live s) (window_open s)
        (sent s) ((title, body) :: notifications s).

(** lines 262-272: the [onStatus] callback of a handler call *)
Definition onStatus (date : string) (kind : StatusKind) (msg : string) (s : Sys) : Sys :=
  let s1 := sendStatus kind msg s in
  match kind with
  | success =>
      showNotification "Parking Booked!" ("Successfully booked parking for " ++ date) s1
  | _ => s1
  end.

Definition is_aborted (s : Sys) (signal : Signal) : bool :=
  existsb (Nat.eqb signal) (aborted_signals s).

(** the answer to a synchronous operation; [None] for an awaited one *)
Definition sync_answer (date : string) X (op : Op X) (s : Sys) : option (X * Sys) :=
  match op in Op X return option (X * Sys) with
  | OnStatus kind msg => Some (tt, onStatus date kind msg s)
  | SignalAborted signal => Some (is_aborted s signal, s)
  | SetTimeout _ =>
      Some (sys_next_timer s,
            mkSys (monitorAbortController s) (next_signal s) (aborted_signals s)
                  (sys_listeners s) (S (sys_next_timer s)) (tasks s) (live s)
                  (window_open s) (sent s) (notifications s))
  | AddAbortListener signal timeout =>
      Some (tt,
            mkSys (monitorAbortController s) (next_signal s) (aborted_signals s)
                  ((timeout, signal) :: sys_listeners s) (sys_next_timer s) (tasks s)
                  (live s) (window_open s) (sent s) (notifications s))
  | _ => None
  end.

(** run a call up to its next [await] *)
Fixpoint advance (date : string) {A} (p : Prog A) (s : Sys) : Prog A * Sys :=
  match p with
  | Do op k =>
      match sync_answer date op s with
      | Some (x, s') => advance date (k x) s'
      | None => (p, s)
      end
  | _ => (p, s)
  end.

(** what the resolution of an awaited operation does to the sessions *)
Definition settle X (op : Op X) (s : Sys) : X -> Sys :=
  match op in Op X return X -> Sys with
  | Launch _ => fun r =>
      match r with
      | inr b => with_live s (b :: live s)
      | inl _ => s
      end
  | Close b => fun r =>
      match r with
      | inr _ => with_live s (filter (fun b' => negb (Nat.eqb b b')) (live s))
      | inl _ => s
      end
  | _ => fun _ => s
  end.

(** lines 276-288: the [then] / [catch] callbacks of a finished call; a
    call that is still parked stays in the list (so does one whose bound on
    the turns is used up: it stands for a loop that is still running) *)
Definition finish (t : Task) (s : Sys) : Sys :=
  match parked t with
  | Ret (Some result) =>
      let s1 := if monitor_booked result
                then sendStatus success "Parking successfully booked!" s else s in
      with_controller s1 None
  | Throw err =>
      let s1 := if negb (String.eqb (name err) "AbortError")
                   && negb (is_aborted s (task_signal t))
                then sendStatus error ("Monitor error: " ++ message err) s
                else s in
      with_controller s1 None
  | _ => with_tasks s (tasks s ++ [t])
  end.

(** the parked call number [i] goes on with the answer [x] of its operation *)
Definition resume_task (t : Task) (answer : forall X, Op X -> X) (s : Sys) : Sys :=
  match parked t with
  | Do op k =>
      let s1 := settle op s (answer _ op) in
      let (p, s2) := advance (task_date t) (k (answer _ op)) s1 in
      finish (mkTask (task_signal t) (task_date t) p) s2
  | _ => finish t s
  end.

(** is the call parked on the promise of [waitWithAbort] with a listener on [signal]? *)
Definition sleeping_on (s : Sys) (signal : Signal) (t : Task) : bool :=
  match parked t with
  | Do op _ =>
      match op with
      | AwaitResolve timeout =>
          existsb (fun l => Nat.eqb (fst l) timeout && Nat.eqb (snd l) signal)
                  (sys_listeners s)
      | _ => false
      end
  | _ => false
  end.

Definition keep (t : Task) (s : Sys) : Sys := with_tasks s (tasks s ++ [t]).

(** the abort listener has resolved the promise the call is parked on *)
Definition wake (t : Task) (s : Sys) : Sys :=
  match parked t with
  | Do op k =>
      match op in Op X return (X -> Prog (option MonitorResult)) -> Sys with
      | AwaitResolve _ => fun k' =>
          let (p, s1) := advance (task_date t) (k' tt) s in
          finish (mkTask (task_signal t) (task_date t) p) s1
      | _ => fun _ => keep t s
      end k
  | _ => finish t s
  end.

(** [controller.abort()]: the signal is aborted from now on *)
Definition abort (signal : Signal) (s : Sys) : Sys :=
  mkSys (monitorAbortController s) (next_signal s) (signal :: aborted_signals s)
        (sys_listeners s) (sys_next_timer s) (tasks s) (live s) (window_open s)
        (sent s) (notifications s).

(** the continuations queued while a handler ran: the calls in [old] that
    slept on [stopped] go on, the others stay parked *)
Definition microtasks (listening : Sys) (stopped : option Signal) (old : list Task)
    (s : Sys) : Sys :=
  fold_left
    (fun acc t =>
       match stopped with
       | Some signal => if sleeping_on listening signal t then wake t acc else keep t acc
       | None => keep t acc
       end)
    old s.

Section Handlers.
Variable getDate : string -> option nat.
Variable resourcesPath : string.      (* process.resourcesPath, or its fallback *)
Variable fuel : nat.                  (* bound on the turns of a monitoring loop *)

(** lines 192-205.  [path.join] is written as concatenation with ['/']:
    what [path.join] gives when [resourcesPath] has no trailing separator and
    no ['.'] or ['..'] segment.  The code that follows only reads whether the
    path is empty, which it never is. *)
Definition getChromiumPath : string :=
  resourcesPath ++
  "/chromium/chrome-mac-arm64/Google Chrome for Testing.app/Contents/MacOS/Google Chrome for Testing".

(** lines 251-259.  The interval is multiplied on the integers; the doubles
    of the source give the same product while it is at most 2^53 in absolute
    value. *)
Definition monitorConfig (config : IpcConfig) : MonitorConfig :=
  mkConfig (ipc_email config) (ipc_password config) (ipc_seasonPass config)
           (ipc_licensePlate config) (ipc_targetDate config)
           (intervalMinutes config * 60 * 1000)%Z (Some getChromiumPath).

(** lines 238-290, up to [return { success: true }]: the state when the
    handler returns and the call of [startMonitor] it has made *)
Definition start_monitor_body (config : IpcConfig) (s : Sys) : Task * Sys :=
  let s1 := match monitorAbortController s with
            | Some c => abort c s
            | None => s
            end in
  let signal := next_signal s1 in
  let s2 := mkSys (Some signal) (S signal) (aborted_signals s1) (sys_listeners s1)
                  (sys_next_timer s1) (tasks s1) (live s1) (window_open s1)
                  (sent s1) (notifications s1) in
  let s3 := sendStatus monitoring
              ("Starting monitor for " ++ ipc_targetDate config ++ "...") s2 in
  let (p, s4) := advance (ipc_targetDate config)
                   (startMonitor getDate fuel (monitorConfig config) signal) s3 in
  (mkTask signal (ipc_targetDate config) p, s4).

(** the ['start-monitor'] handler and the continuations it has queued *)
Definition start_monitor (config : IpcConfig) (s : Sys) : Sys :=
  let (t, s1) := start_monitor_body config s in
  let s2 := microtasks s (monitorAbortController s) (tasks s) (with_tasks s1 []) in
  finish t s2.

(** lines 301-308: the ['stop-monitor'] handler *)
Definition stop_monitor (s : Sys) : Sys :=
  match monitorAbortController s with
  | Some c =>
      let s1 := with_controller (abort c s) None in
      let s2 := sendStatus idle "Monitoring stopped by user" s1 in
      microtasks s (Some c) (tasks s) (with_tasks s2 [])
  | None => s
  end.

(** the world resolves the operation the call number [i] is parked on *)
Fixpoint resolve_at (i : nat) (answer : forall X, Op X -> X) (old : list Task)
    (s : Sys) : Sys :=
  match old with
  | [] => s
  | t :: rest =>
      match i with
      | O => fold_left (fun acc t' => keep t' acc) rest (resume_task t answer s)
      | S i' => resolve_at i' answer rest (keep t s)
      end
  end.

Inductive Event : Type :=
| StartMonitor (config : IpcConfig)
| StopMonitor
| Resolve (i : nat) (answer : forall X, Op X -> X).

Definition step (s : Sys) (e : Event) : Sys :=
  match e with
  | StartMonitor config => start_monitor config s
  | StopMonitor => stop_monitor s
  | Resolve i answer => resolve_at i answer (tasks s) (with_tasks s [])
  end.

Definition steps (s : Sys) (es : list Event) : Sys := fold_left step es s.

(** the calls in flight that are inside an attempt: parked on a playwright
    operation, not on the sleep between attempts *)
Definition attempting (t : Task) : bool :=
  match parked t with
  | Do op _ =>
      match op with
      | AwaitResolve _ => false
      | _ => true
      end
  | _ => false
  end.

End Handlers.

(** what the synchronous part of a call never touches *)
Definition frame (s s' : Sys) : Prop :=
  aborted_signals s' = aborted_signals s /\
  next_signal s' = next_signal s /\
  monitorAbortController s' = monitorAbortController s /\
  live s' = live s.

(** what the calls in flight never do: abort a signal, create one, or
    register a controller (they can only clear the registered one) *)
Definition core (s s' : Sys) : Prop :=
  aborted_signals s' = aborted_signals s /\
  next_signal s' = next_signal s /\
  (monitorAbortController s' = monitorAbortController s \/
   monitorAbortController s' = None).

(** the same, and no browser session is opened or closed *)
Definition settled (s s' : Sys) : Prop :=
  core s s' /\ live s' = live s.

(** signals are numbered in the order of their creation *)
Definition fresh (s : Sys) : Prop :=
  (forall x, In x (aborted_signals s) -> x < next_signal s) /\
  (forall c, monitorAbortController s = Some c -> c < next_signal s).

(** the application after [app.whenReady()]: a window, no monitor *)
Definition boot : Sys := mkSys None O [] [] O [] [] true [] [].

End Main.

(* ================================================================== *)
(** ** Reading a trace *)

Module Trace.
Import JsString Parking.

Definition count (f : Evt -> bool) (tr : list Evt) : nat := length (filter f tr).

(** a call of [chromium.launch]: the start of a browser session *)
Definition is_launch (e : Evt) : bool :=
  match evt_op e with
  | Launch _ => true
  | _ => false
  end.

(** a call of [chromium.launch] that gave a browser *)
Definition launched (e : Evt) : bool :=
  match evt_op e in Op X return X -> bool with
  | Launch _ => fun r => match r with inr _ => true | inl _ => false end
  | _ => fun _ => false
  end (evt_answer e).

(** a call of [browser.close] *)
Definition is_close (e : Evt) : bool :=
  match evt_op e with
  | Close _ => true
  | _ => false
  end.

(** a status event of kind ['error'] *)
Definition is_error_status (e : Evt) : bool :=
  match evt_op e with
  | OnStatus error _ => true
  | _ => false
  end.

(** a lookup of the date cell on a calendar view (line 161) *)
Definition is_date_lookup (targetDate : string) (e : Evt) : bool :=
  match evt_op e with
  | Query _ selector => String.eqb selector (dateSelector targetDate)
  | _ => false
  end.

(** the lookup of line 226 found a booking button *)
Definition book_button_found (e : Evt) : bool :=
  match evt_op e in Op X return X -> bool with
  | Query _ selector => fun r =>
      match r with
      | inr (Some _) => String.eqb selector sel_book
      | _ => false
      end
  | _ => fun _ => false
  end (evt_answer e).

(** no run of the program performs an operation that [f] selects *)
Inductive avoids (f : Evt -> bool) {A : Type} : Prog A -> Prop :=
| avoids_ret (a : A) : avoids f (Ret a)
| avoids_throw (e : Error) : avoids f (Throw e)
| avoids_do X (op : Op X) (k : X -> Prog A) :
    (forall x, f (evt op x) = false) ->
    (forall x, avoids f (k x)) ->
    avoids f (Do op k).

(** on every run of the program that returns a value [a], either
    [browser.close()] has been called or [Q a] holds *)
Inductive closes_unless {A : Type} (Q : A -> Prop) : Prog A -> Prop :=
| cu_ret (a : A) : Q a -> closes_unless Q (Ret a)
| cu_throw (e : Error) : closes_unless Q (Throw e)
| cu_close (browser : Browser) (k : Error + unit -> Prog A) :
    closes_unless Q (Do (Close browser) k)
| cu_do X (op : Op X) (k : X -> Prog A) :
    (forall x, closes_unless Q (k x)) -> closes_unless Q (Do op k).

(** the status event that follows an attempt which did not book: line 51
    when it returned, line 58 when it threw *)
Definition after_attempt (config : MonitorConfig) (o : Outcome CheckResult) : Evt :=
  match o with
  | Returned _ => evt (OnStatus monitoring (next_check_message config)) tt
  | Raised err => evt (OnStatus error (check_error_message err)) tt
  end.

End Trace.

(* ================================================================== *)
(** ** Concrete worlds

    Small reservation sites on which the programs can be run. *)

Module Scenario.
Import JsString Parking.

Definition digit (c : ascii) : option nat :=
  let n := nat_of_ascii c in
  if (48 <=? n) && (n <=? 57) then Some (n - 48) else None.

(** the day of the month of a well-formed [YYYY-MM-DDT12:00:00] *)
Definition iso_day (s : string) : option nat :=
  match skipn 8 (chars s) with
  | d1 :: d2 :: _ =>
      match digit d1, digit d2 with
      | Some a, Some b => Some (10 * a + b)
      | _, _ => None
      end
  | _ => None
  end.

(** every step succeeds, nothing is on the page, nobody asks to stop *)
Definition quiet X (op : Op X) : X :=
  match op in Op X return X with
  | OnStatus _ _ => tt
  | SignalAborted _ => false
  | SetTimeout _ => O
  | AddAbortListener _ _ => tt
  | AwaitResolve _ => tt
  | Launch _ => inr 1
  | NewContext _ => inr 2
  | NewPage _ => inr 3
  | Goto _ _ => inr tt
  | WaitForTimeout _ _ => inr tt
  | WaitForLoadState _ => inr tt
  | Query _ _ => inr None
  | QueryAll _ _ => inr []
  | InnerText _ => inr EmptyString
  | GetAttribute _ _ => inr None
  | Click _ => inr tt
  | Fill _ _ => inr tt
  | PageFill _ _ _ => inr tt
  | PageClick _ _ => inr tt
  | PageInnerText _ _ => inr EmptyString
  | Close _ => inr tt
  end.

(** a world without state, given by its answers *)
Definition stateless (answer : forall X, Op X -> X) : World :=
  mkWorld (state := unit) (fun X op w => (answer X op, w)).

Definition quiet_site : World := stateless quiet.

(** the browser starts, but its context cannot be created *)
Definition context_fails X (op : Op X) : X :=
  match op in Op X return X with
  | NewContext _ => inl (mkError "Error" "Target page, context or browser has been closed")
  | op' => quiet op'
  end.

(** the body of the page reads [text] *)
Definition page_reads (text : string) X (op : Op X) : X :=
  match op in Op X return X with
  | PageInnerText _ _ => inr text
  | op' => quiet op'
  end.

(** no calendar cell for the date on any view, but a booking button (7), a
    confirm button (8), and the body of the page reads [text] *)
Definition bookable_page (text : string) X (op : Op X) : X :=
  match op in Op X return X with
  | Query _ selector =>
      inr (if String.eqb selector sel_book then Some 7
           else if String.eqb selector sel_confirm then Some 8
           else None)
  | PageInnerText _ _ => inr text
  | op' => quiet op'
  end.

(** a calendar whose day cells 11, 12 and 13 show 12, 21 and " 1 " *)
Definition day_cells X (op : Op X) : X :=
  match op in Op X return X with
  | QueryAll _ _ => inr [11; 12; 13]
  | InnerText el =>
      inr (if Nat.eqb el 11 then "12"
           else if Nat.eqb el 12 then "21"
           else " 1 ")
  | op' => quiet op'
  end.

(** the browser that starts has the handle [b] *)
Definition launch_gives (b : Browser) X (op : Op X) : X :=
  match op in Op X return X with
  | Launch _ => inr b
  | op' => quiet op'
  end.

(** the shell has already asked to stop *)
Definition stopped X (op : Op X) : X :=
  match op in Op X return X with
  | SignalAborted _ => true
  | op' => quiet op'
  end.

Definition config : MonitorConfig :=
  mkConfig "skier@example.com" "hunter2" "SP2ABCDEFGH" "ABC123" "2026-02-01"
           300000 None.

(** the same, with an e-mail made of blanks *)
Definition blank_email : MonitorConfig :=
  mkConfig "   " "hunter2" "SP2ABCDEFGH" "ABC123" "2026-02-01" 300000 None.

(** the same, with no password *)
Definition no_password : MonitorConfig :=
  mkConfig "skier@example.com" EmptyString "SP2ABCDEFGH" "ABC123" "2026-02-01"
           300000 None.

Definition ipc_config : Main.IpcConfig :=
  Main.mkIpc "skier@example.com" "hunter2" "SP2ABCDEFGH" "ABC123" "2026-02-01" 5.

(** a clock at 0 on which the shell asks to stop signal 0 at [ta] *)
Definition clock_world : World := Clock.timed quiet_site (fun _ _ _ => 10%Z).
Definition clock_start (ta : Z) : state clock_world :=
  Clock.mkT quiet_site 0%Z (fun s => if Nat.eqb s 0 then Some ta else None)
            [] [] O false tt.

End Scenario.

(* ================================================================== *)
(** ** Following a run operation by operation *)

Module Observe.
Import JsString Regex Parking.

(** the operation was a [browser.close()] that resolved *)
Definition close_resolved X (op : Op X) : X -> bool :=
  match op in Op X return X -> bool with
  | Close _ => fun r => match r with inr _ => true | inl _ => false end
  | _ => fun _ => false
  end.

(** was the last operation of the trace a [browser.close()] that resolved?
    ([b] when the trace is empty) *)
Definition ends_closed (b : bool) (tr : list Evt) : bool :=
  fold_left (fun _ e => close_resolved (evt_op e) (evt_answer e)) tr b.

(** [closed_last Q b p]: on every run of [p] that returns a value [a],
    [Q b' a] holds, where [b'] tells whether the last operation performed was
    a [browser.close()] that resolved ([b] tells it for what came before
    [p]) *)
Inductive closed_last {A : Type} (Q : bool -> A -> Prop) : bool -> Prog A -> Prop :=
| cl_ret (b : bool) (a : A) : Q b a -> closed_last Q b (Ret a)
| cl_throw (b : bool) (e : Error) : closed_last Q b (Throw e)
| cl_do (b : bool) X (op : Op X) (k : X -> Prog A) :
    (forall x, closed_last Q (close_resolved op x) (k x)) ->
    closed_last Q b (Do op k).

(** the four objects of lines 186, 221, 259, 265 and 270 *)
Definition is_result (r : CheckResult) : Prop :=
  r = sold_out \/ r = not_found \/ r = booking_done \/ r = booking_failed.

(** the browser has just been closed, and [r] is one of the four objects *)
Definition closed_result (b : bool) (r : CheckResult) : Prop :=
  b = true /\ is_result r.

(** the calendar loop falls through, or has just closed the browser and
    returns the sold-out object (line 186) *)
Definition closed_exit (b : bool) (exit : LoopExit) : Prop :=
  exit = FallThrough \/ (b = true /\ exit = ReturnNow sold_out).

(** lines 250-258 on a run that books: the confirm button is found and
    clicked, and after three seconds the page shows a success phrase; then
    the browser is closed *)
Definition confirmation (page : Page) (el : Elem) (text : string) (browser : Browser)
  : list Evt :=
  [ evt (Query page sel_confirm) (inr (Some el));
    evt (Click el) (inr tt);
    evt (WaitForTimeout page 3000) (inr tt);
    evt (PageInnerText page "body") (inr text);
    evt (Close browser) (inr tt) ].

(** a trace that ends with the confirmation, after a booking button was found *)
Definition booked_trace (tr : list Evt) : Prop :=
  exists before page el text browser,
    tr = (before ++ confirmation page el text browser)%list /\
    test successPattern text = true /\
    existsb Trace.book_button_found before = true.

(** the lookup of line 250 found a confirm button *)
Definition confirm_button_found (e : Evt) : bool :=
  match evt_op e in Op X return X -> bool with
  | Query _ selector => fun r =>
      match r with
      | inr (Some _) => String.eqb selector sel_confirm
      | _ => false
      end
  | _ => fun _ => false
  end (evt_answer e).

(** the body of the page was read, and the text has a success phrase *)
Definition success_text_read (e : Evt) : bool :=
  match evt_op e in Op X return X -> bool with
  | PageInnerText _ _ => fun r =>
      match r with
      | inr text => test successPattern text
      | inl _ => false
      end
  | _ => fun _ => false
  end (evt_answer e).

(** a click on an element *)
Definition is_click (e : Evt) : bool :=
  match evt_op e with
  | Click _ => true
  | _ => false
  end.

(** a timer is set: the start of a sleep *)
Definition is_timer (e : Evt) : bool :=
  match evt_op e with
  | SetTimeout _ => true
  | _ => false
  end.

(** a status event of the given kind and message *)
Definition is_status (kind : StatusKind) (msg : string) (e : Evt) : Prop :=
  e = evt (OnStatus kind msg) tt.

(** *** A summary of the operations performed so far

    [tracks step Q R s p]: on every run of [p], in every world, when the
    summary of what came before is [s] and the run returns [a] then [Q s' a],
    and when it throws [e] then [R s' e], where [s'] is the summary after
    the operations of the run ([step] adds one operation to a summary). *)
Inductive tracks {S A : Type} (step : S -> Evt -> S)
    (Q : S -> A -> Prop) (R : S -> Error -> Prop) : S -> Prog A -> Prop :=
| tk_ret (s : S) (a : A) : Q s a -> tracks step Q R s (Ret a)
| tk_throw (s : S) (e : Error) : R s e -> tracks step Q R s (Throw e)
| tk_do (s : S) X (op : Op X) (k : X -> Prog A) :
    (forall x, tracks step Q R (step s (evt op x)) (k x)) ->
    tracks step Q R s (Do op k).

(** the summary that keeps the last operation *)
Definition latest (l : option Evt) (e : Evt) : option Evt := Some e.

(** the last operation of a trace, if any *)
Definition last_op (tr : list Evt) : option Evt := fold_left latest tr None.

(** how a call of [startMonitor] that has returned stands, given its last
    operation [l]: [{ booked: true }] comes right after the ['success']
    event of line 45, [{ booked: false }] right after the 'Monitor stopped'
    event of line 65 or, when a field is missing, after the ['error'] event
    of line 32 *)
Definition final_status (config : MonitorConfig) (l : option Evt)
    (r : MonitorResult) : Prop :=
  if monitor_booked r
  then first_missing (required config) = None /\
       l = Some (evt (OnStatus success (booked_message config)) tt)
  else (first_missing (required config) = None /\
        l = Some (evt (OnStatus monitoring stopped_message) tt)) \/
       (exists key, first_missing (required config) = Some key /\
                    l = Some (evt (OnStatus error (missing_message key)) tt)).

(** what a turn of the loop leaves behind: a result only after the success
    event *)
Definition turn_status (config : MonitorConfig) (l : option Evt) (t : Turn) : Prop :=
  match t with
  | Finish r => r = mkResult true /\
                l = Some (evt (OnStatus success (booked_message config)) tt)
  | _ => True
  end.

(** the loop of a run with a valid configuration *)
Definition loop_status (config : MonitorConfig) (l : option Evt)
    (r : option MonitorResult) : Prop :=
  match r with
  | Some result =>
      l = Some (evt (OnStatus (if monitor_booked result then success else monitoring)
                              (if monitor_booked result then booked_message config
                               else stopped_message)) tt)
  | None => True
  end.

(** the summary that counts the operations [f] selects *)
Definition counting (f : Evt -> bool) (n : nat) (e : Evt) : nat :=
  if f e then S n else n.

(** the summary that keeps the operations [f] selects, in order *)
Definition keeping (f : Evt -> bool) (l : list Evt) (e : Evt) : list Evt :=
  if f e then (l ++ [e])%list else l.

(** a status event of kind ['success'] *)
Definition is_success_status (e : Evt) : bool :=
  match evt_op e with
  | OnStatus success _ => true
  | _ => false
  end.

(** the operations of the loop around the attempts: a read of the abort
    signal, a timer, an abort listener, the wait for either, and the status
    events of kind ['success'], ['monitoring'] and ['idle'] *)
Definition loop_op (e : Evt) : bool :=
  match evt_op e with
  | SignalAborted _ | SetTimeout _ | AddAbortListener _ _ | AwaitResolve _ => true
  | OnStatus success _ | OnStatus monitoring _ | OnStatus idle _ => true
  | _ => false
  end.

(** the operations that set a browser session up (lines 108-120) *)
Definition setup_op (e : Evt) : bool :=
  match evt_op e with
  | Launch _ | NewContext _ | NewPage _ => true
  | _ => false
  end.

(** what the body of the [try] block never does *)
Definition foreign (e : Evt) : bool := loop_op e || setup_op e.

(** lines 99-104: the path the first launch is given *)
Definition executablePath (config : MonitorConfig) : option string :=
  if truthy_opt (chromiumPath config) then chromiumPath config else None.

(** the launches of an attempt: one that gave a browser; or one that
    failed with no bundled browser configured; or a failed launch of the
    bundled browser followed by one launch of the system browser *)
Definition launch_shape (config : MonitorConfig) (launches : list Evt) : Prop :=
  (exists browser, launches = [evt (Launch (executablePath config)) (inr browser)]) \/
  (truthy_opt (chromiumPath config) = false /\
   exists e, launches = [evt (Launch None) (inl e)]) \/
  (truthy_opt (chromiumPath config) = true /\
   exists e x, launches = [evt (Launch (chromiumPath config)) (inl e);
                           evt (Launch None) x]).

(** the number of ['success'] events a returned value stands for *)
Definition success_events (r : option MonitorResult) : nat :=
  match r with
  | Some result => if monitor_booked result then 1 else 0
  | None => 0
  end.

(** a turn of the loop adds a ['success'] event exactly when it finishes,
    and then with [{ booked: true }] *)
Definition turn_successes (n0 n : nat) (t : Turn) : Prop :=
  match t with
  | Finish r => r = mkResult true /\ n = S n0
  | _ => n = n0
  end.

(** line 96: the status event an attempt starts with *)
Definition checking_message (config : MonitorConfig) : string :=
  "Checking availability for " ++ targetDate config ++ "...".

Definition is_attempt_start (config : MonitorConfig) (e : Evt) : bool :=
  match evt_op e with
  | OnStatus checking msg => String.eqb msg (checking_message config)
  | _ => false
  end.

(** the loop has rested: the promise of [waitWithAbort] has resolved, or
    the signal has read aborted *)
Definition is_rest (e : Evt) : bool :=
  match evt_op e in Op X return X -> bool with
  | AwaitResolve _ => fun _ => true
  | SignalAborted _ => fun aborted => aborted
  | _ => fun _ => false
  end (evt_answer e).

(** where the loop stands between attempts: it has rested since the last
    attempt started (or none has), it has not, or an attempt has started
    without a rest since the one before *)
Inductive Pace : Type := Rested | Busy | Hasty.

Definition pace (config : MonitorConfig) (s : Pace) (e : Evt) : Pace :=
  if is_attempt_start config e
  then match s with Rested => Busy | _ => Hasty end
  else if is_rest e
       then match s with Hasty => Hasty | _ => Rested end
       else s.

(** an attempt start or a rest *)
Definition paces (config : MonitorConfig) (e : Evt) : bool :=
  is_attempt_start config e || is_rest e.

(** what the body of the [try] block never does, the start of an attempt
    included *)
Definition out_of_session (config : MonitorConfig) (e : Evt) : bool :=
  is_attempt_start config e || foreign e.

(** what a turn of the loop leaves behind: the attempt has started and
    booked, or the loop has rested *)
Definition turn_pace (s : Pace) (t : Turn) : Prop :=
  match t with
  | Finish _ => s = Busy
  | _ => s = Rested
  end.

(** the calls of [browser.close()] of the [try] block and its [catch]: one
    call, or a call that was rejected followed by the one of the [catch] *)
Definition close_shape (browser : Browser) (closes : list Evt) : Prop :=
  (exists x, closes = [evt (Close browser) x]) \/
  (exists e x, closes = [evt (Close browser) (inl e); evt (Close browser) x]).

(** inside the [try] block: no call yet, or one that was rejected *)
Definition close_failed (browser : Browser) (closes : list Evt) : Prop :=
  closes = [] \/ exists e, closes = [evt (Close browser) (inl e)].

(** the calendar loop goes on without a call, or returns after one that
    resolved *)
Definition close_exit (browser : Browser) (closes : list Evt) (exit : LoopExit) : Prop :=
  match exit with
  | FallThrough => closes = []
  | ReturnNow _ => closes = [evt (Close browser) (inr tt)]
  end.

End Observe.

(* ================================================================== *)
(** ** The controller of the main process *)

Module Lifecycle.
Import Main.

(** the registered controller is the one created last, and its signal is
    not aborted *)
Definition registered_latest (s : Sys) : Prop :=
  forall c, monitorAbortController s = Some c ->
    S c = next_signal s /\ ~ In c (aborted_signals s).

(** the calls in flight are as many, with a controller as before, or fewer,
    with no controller *)
Definition ended_or_same (n : nat) (c : option Signal) (s : Sys) : Prop :=
  (length (tasks s) = n /\ monitorAbortController s = c) \/
  (length (tasks s) < n /\ monitorAbortController s = None).

(** nothing is taken back from what was sent to the window *)
Definition keeps_sent (s s' : Sys) : Prop :=
  window_open s' = window_open s /\ exists more, sent s' = (more ++ sent s)%list.

End Lifecycle.

(* ================================================================== *)
(** ** Versions: [isNewerVersion] of src/main/index.js *)

Module Version.
Import JsString.

(** [String.prototype.split] on a separator of one code unit; [cur] holds
    the piece being read, latest code unit first *)
Fixpoint split_chars (sep : ascii) (s cur : list ascii) : list (list ascii) :=
  match s with
  | [] => [rev cur]
  | c :: s' =>
      if Ascii.eqb c sep then rev cur :: split_chars sep s' []
      else split_chars sep s' (c :: cur)
  end.

Definition split (s : string) (sep : ascii) : list string :=
  map string_of_list_ascii (split_chars sep (chars s) []).

Section Compare.
(** the numbers of the runtime other than [NaN], with [+0] and [-0] taken
    as one; [a > b]; and [Number(s)], [None] for [NaN] *)
Variable num : Type.
Variable zero : num.
Variable gt : num -> num -> bool.
Variable Number : string -> option num.

(** [parts[i] || 0]: a missing part, [NaN] and zero give 0 *)
Definition part (parts : list (option num)) (i : nat) : num :=
  match nth_error parts i with
  | Some (Some x) => x
  | _ => zero
  end.

(** lines 122-126: the loop from [i], with [n] iterations left *)
Fixpoint compare_parts (latestParts currentParts : list (option num)) (n i : nat) : bool :=
  match n with
  | O => false
  | S n' =>
      if gt (part latestParts i) (part currentParts i) then true
      else if gt (part currentParts i) (part latestParts i) then false
      else compare_parts latestParts currentParts n' (S i)
  end.

(** lines 118-127 *)
Definition isNewerVersion (latest current : string) : bool :=
  compare_parts (map Number (split latest "."%char))
                (map Number (split current "."%char)) 3 0.

End Compare.

(** [Number] on the strings of decimal digits (the empty string gives 0);
    other strings are taken as [NaN] *)
Fixpoint digits_value (s : list ascii) (acc : Z) : option Z :=
  match s with
  | [] => Some acc
  | c :: s' =>
      let n := nat_of_ascii c in
      if (48 <=? n) && (n <=? 57)
      then digits_value s' (10 * acc + Z.of_nat (n - 48))%Z
      else None
  end.

Definition number_of_digits (s : string) : option Z := digits_value (chars s) 0%Z.

End Version.

(* ================================================================== *)
(** ** The keychain: src/main/keychain.js *)

Module Keychain.
Import JsString.

Definition SERVICE : string := "alta-parking-monitor".

(** keytar as the code uses it: a call resolves or rejects, and may change
    the keychain *)
Record Keytar : Type := mkKeytar {
  chain : Type;
  setPassword : string -> string -> string -> chain -> (Error + unit) * chain;
  getPassword : string -> string -> chain -> (Error + option string) * chain;
  deletePassword : string -> string -> chain -> (Error + bool) * chain
}.

(** an async function over the keychain *)
Definition K (kt : Keytar) (A : Type) : Type := chain kt -> (Error + A) * chain kt.

Definition kret {kt : Keytar} {A} (a : A) : K kt A := fun st => (inr a, st).

(** [await]: a rejection ends the function *)
Definition kbind {kt : Keytar} {A B} (m : K kt A) (f : A -> K kt B) : K kt B :=
  fun st =>
    match m st with
    | (inr a, st1) => f a st1
    | (inl e, st1) => (inl e, st1)
    end.

Declare Scope key_scope.
Delimit Scope key_scope with key.
Notation "x <- m ;; f" := (kbind m (fun x => f))
  (at level 61, m at next level, right associativity) : key_scope.
Notation "m ;; f" := (kbind m (fun _ => f))
  (at level 61, right associativity) : key_scope.

Record Credentials : Type := mkCreds {
  c_email : string;
  c_password : string;
  c_seasonPass : string;
  c_licensePlate : string
}.

(** what [loadCredentials] gives: [None] is [null] *)
Record Loaded : Type := mkLoaded {
  l_email : option string;
  l_password : option string;
  l_seasonPass : option string;
  l_licensePlate : option string
}.

Section Functions.
Variable kt : Keytar.

(** lines 17-22 *)
Definition saveCredentials (creds : Credentials) : K kt unit :=
  (setPassword kt SERVICE "email" (c_email creds) ;;
   setPassword kt SERVICE "password" (c_password creds) ;;
   setPassword kt SERVICE "seasonPass" (c_seasonPass creds) ;;
   setPassword kt SERVICE "licensePlate" (c_licensePlate creds))%key.

(** lines 28-35 *)
Definition loadCredentials : K kt Loaded :=
  (email <- getPassword kt SERVICE "email" ;;
   password <- getPassword kt SERVICE "password" ;;
   seasonPass <- getPassword kt SERVICE "seasonPass" ;;
   licensePlate <- getPassword kt SERVICE "licensePlate" ;;
   kret (mkLoaded email password seasonPass licensePlate))%key.

(** lines 40-45 *)
Definition clearCredentials : K kt unit :=
  (deletePassword kt SERVICE "email" ;;
   deletePassword kt SERVICE "password" ;;
   deletePassword kt SERVICE "seasonPass" ;;
   _ <- deletePassword kt SERVICE "licensePlate" ;;
   kret tt)%key.

(** index.js, lines 225-233: the ['load-credentials'] handler *)
Definition load_credentials_handler (st : chain kt) : Loaded * chain kt :=
  match loadCredentials st with
  | (inr creds, st1) => (creds, st1)
  | (inl _, st1) => (mkLoaded None None None None, st1)
  end.

(** what the keychain holds for a service and an account, and a keychain
    that keeps it as keytar says: a write that resolves replaces one entry,
    a delete that resolves removes one, a read gives the entry, and nothing
    else changes *)
Variable content : chain kt -> string -> string -> option string.

Record Lawful : Prop := mkLawful {
  set_resolved : forall sv a p st st',
    setPassword kt sv a p st = (inr tt, st') ->
    forall sv' a', content st' sv' a' =
      if String.eqb sv sv' && String.eqb a a' then Some p else content st sv' a';
  set_rejected : forall sv a p st st' e,
    setPassword kt sv a p st = (inl e, st') ->
    forall sv' a', content st' sv' a' = content st sv' a';
  get_keeps : forall sv a st r st',
    getPassword kt sv a st = (r, st') ->
    forall sv' a', content st' sv' a' = content st sv' a';
  get_resolved : forall sv a st v st',
    getPassword kt sv a st = (inr v, st') -> v = content st sv a;
  delete_resolved : forall sv a st b st',
    deletePassword kt sv a st = (inr b, st') ->
    forall sv' a', content st' sv' a' =
      if String.eqb sv sv' && String.eqb a a' then None else content st sv' a'
}.

End Functions.

(** the accounts of [saveCredentials], in the order they are written *)
Definition fields (creds : Credentials) : list (string * string) :=
  [ ("email", c_email creds);
    ("password", c_password creds);
    ("seasonPass", c_seasonPass creds);
    ("licensePlate", c_licensePlate creds) ].

(** a keychain in memory: the entries, latest first; writes to the accounts
    in [denied] are rejected *)
Definition entries : Type := list (string * string * string).

Fixpoint find (sv a : string) (l : entries) : option string :=
  match l with
  | [] => None
  | (sv', a', p) :: l' =>
      if String.eqb sv' sv && String.eqb a' a then Some p else find sv a l'
  end.

Definition ring (denied : string -> bool) : Keytar :=
  mkKeytar
    (fun sv a p (st : entries) =>
       if denied a then (inl (mkError "Error" "User canceled the operation."), st)
       else (inr tt, (sv, a, p) :: st))
    (fun sv a st => (inr (find sv a st), st))
    (fun sv a st =>
       (inr (match find sv a st with Some _ => true | None => false end),
        filter (fun e => negb (String.eqb (fst (fst e)) sv && String.eqb (snd (fst e)) a))
               st)).

End Keychain.

(* ================================================================== *)
(** ** The form of the renderer: [handleSubmit] and [init] *)

Module Renderer.
Import JsString Parking Main Keychain.

(** the values of the inputs; [interval] is
    [parseInt(intervalSelect.value, 10)], taken to be a number *)
Record Form : Type := mkForm {
  emailInput : string;
  passwordInput : string;
  seasonPassInput : string;
  licensePlateInput : string;
  targetDateInput : string;
  interval : Z
}.

(** [x || ''] *)
Definition or_empty (o : option string) : string :=
  match o with
  | Some s => s
  | None => EmptyString
  end.

(** lines 299-304 of [init]: the saved credentials go into the form when
    an e-mail was saved *)
Definition restore (creds : Loaded) (f : Form) : Form :=
  if truthy_opt (l_email creds)
  then mkForm (or_empty (l_email creds)) (or_empty (l_password creds))
              (or_empty (l_seasonPass creds)) (or_empty (l_licensePlate creds))
              (targetDateInput f) (interval f)
  else f.

Section Submit.
(** [String.prototype.toUpperCase] *)
Variable toUpperCase : string -> string.

(** lines 382-389 of [handleSubmit] *)
Definition form_config (f : Form) : IpcConfig :=
  mkIpc (trim (emailInput f)) (passwordInput f)
        (toUpperCase (trim (seasonPassInput f)))
        (toUpperCase (trim (licensePlateInput f)))
        (targetDateInput f) (interval f).

(** line 392 *)
Definition incomplete (config : IpcConfig) : bool :=
  negb (truthy (ipc_email config)) || negb (truthy (ipc_password config)) ||
  negb (truthy (ipc_seasonPass config)) || negb (truthy (ipc_licensePlate config)) ||
  negb (truthy (ipc_targetDate config)).

(** lines 379-395: the configuration [handleSubmit] goes on with, [None]
    when it returns at the validation *)
Definition submit (f : Form) : option IpcConfig :=
  if incomplete (form_config f) then None else Some (form_config f).

End Submit.

(** lines 399-404: what [handleSubmit] saves *)
Definition saved (config : IpcConfig) : Credentials :=
  mkCreds (ipc_email config) (ipc_password config) (ipc_seasonPass config)
          (ipc_licensePlate config).

(** [toUpperCase] on texts without letters beyond ASCII *)
Definition ascii_upper (s : string) : string :=
  string_of_list_ascii (map canonicalize (chars s)).

(** a form as typed: blanks around the e-mail, lower-case pass and plate *)
Definition typed : Form :=
  mkForm " skier@example.com " "hunter2" "sp2abcdefgh" "abc123 " "2026-02-01" 5.

(** the same, with an e-mail of three blanks *)
Definition typed_blank_email : Form :=
  mkForm "   " "hunter2" "sp2abcdefgh" "abc123 " "2026-02-01" 5.

(** the form at the start of the application *)
Definition empty_form : Form :=
  mkForm EmptyString EmptyString EmptyString EmptyString "2026-01-31" 5.

End Renderer.

(* ================================================================== *)
(** ** Calendar cells *)

Module Cells.
Import JsString Parking.

(** line 181: [await dateElement.getAttribute('class') || ''] *)
Definition class_list (class : option string) : string :=
  match class with
  | Some c => if truthy c then c else EmptyString
  | None => EmptyString
  end.

(** line 183: the test on the attributes of the date cell *)
Definition taken (isDisabled class : option string) : bool :=
  truthy_opt isDisabled || includes (class_list class) "disabled"
  || includes (class_list class) "sold-out".

(** a calendar whose cell for the date (5) carries [disabled] as an empty
    attribute, as in the markup [<button disabled>], and the class [day] *)
Definition disabled_cell X (op : Op X) : X :=
  match op in Op X return X with
  | Query _ selector =>
      inr (if String.eqb selector (dateSelector "2026-02-01") then Some 5 else None)
  | GetAttribute _ name =>
      inr (if String.eqb name "disabled" then Some EmptyString else Some "day")
  | op' => Scenario.quiet op'
  end.

End Cells.

(* ================================================================== *)
(** * Properties *)

(** ** Regular expression search *)

Module RegexFacts.
Import JsString Regex.
Local Open Scope list_scope.

Lemma nullable_matches_nil r : nullable r = true <-> matches r [].
Proof.
  split.
  - induction r; simpl; intros H; try discriminate.
    + constructor.
    + apply andb_true_iff in H as [H1 H2].
      change (@nil ascii) with (@nil ascii ++ []). constructor; auto.
    + apply orb_true_iff in H as [H|H]; [apply m_alt_l|apply m_alt_r]; auto.
    + constructor.
  - intros H. remember (@nil ascii) as s eqn:Es.
    induction H; simpl; try discriminate; auto.
    + apply app_eq_nil in Es as [-> ->]. rewrite IHmatches1, IHmatches2; auto.
    + rewrite IHmatches; auto.
    + rewrite IHmatches; auto using orb_true_r.
Qed.

Lemma deriv_complete r c s : matches r (c :: s) -> matches (deriv c r) s.
Proof.
  intros H. remember (c :: s) as cs eqn:E. revert c s E.
  induction H; intros c0 s0 E; simpl; try discriminate.
  - injection E as -> <-. rewrite H, Ascii.eqb_refl. constructor.
  - injection E as -> <-. rewrite H. constructor.
  - destruct s1 as [|a s1'].
    + simpl in E. subst s2.
      assert (N : nullable r1 = true) by (apply nullable_matches_nil; assumption).
      rewrite N. apply m_alt_r. apply IHmatches2. reflexivity.
    + simpl in E. injection E as -> <-.
      assert (M : matches (Seq (deriv c0 r1) r2) (s1' ++ s2)).
      { constructor; auto. }
      destruct (nullable r1); [apply m_alt_l|]; assumption.
  - apply m_alt_l. auto.
  - apply m_alt_r. auto.
  - destruct s1 as [|a s1'].
    + simpl in E. apply IHmatches2. assumption.
    + simpl in E. injection E as -> <-. constructor; auto.
Qed.

Lemma deriv_sound r : forall c s, matches (deriv c r) s -> matches r (c :: s).
Proof.
  induction r; intros c0 s H; simpl in H.
  - inversion H.
  - inversion H.
  - destruct (Ascii.eqb (canonicalize c) (canonicalize c0)) eqn:E; inversion H; subst.
    constructor. apply Ascii.eqb_eq. assumption.
  - destruct (is_space c0) eqn:E; inversion H; subst. constructor. assumption.
  - destruct (nullable r1) eqn:N.
    + inversion H; subst.
      * inversion H3; subst.
        change (c0 :: s1 ++ s2) with ((c0 :: s1) ++ s2). constructor; auto.
      * change (c0 :: s) with ([] ++ c0 :: s). constructor; auto.
        apply nullable_matches_nil. assumption.
    + inversion H; subst.
      change (c0 :: s1 ++ s2) with ((c0 :: s1) ++ s2). constructor; auto.
  - inversion H; subst; [apply m_alt_l|apply m_alt_r]; auto.
  - inversion H; subst.
    change (c0 :: s1 ++ s2) with ((c0 :: s1) ++ s2). constructor; auto.
Qed.

Lemma match_prefix_spec : forall s r,
  match_prefix r s = true <-> exists a b, s = a ++ b /\ matches r a.
Proof.
  induction s as [|c s IH]; intros r; simpl.
  - rewrite orb_false_r. rewrite nullable_matches_nil. split.
    + intros H. exists [], []. auto.
    + intros (a & b & E & M). symmetry in E. apply app_eq_nil in E as [-> _]. assumption.
  - rewrite orb_true_iff, IH, nullable_matches_nil. split.
    + intros [H | (a & b & E & M)].
      * exists [], (c :: s). auto.
      * exists (c :: a), b. split; [simpl; congruence|]. apply deriv_sound. assumption.
    + intros (a & b & E & M). destruct a as [|c' a].
      * left. assumption.
      * right. simpl in E. injection E as <- ->. exists a, b. split; auto.
        apply deriv_complete. assumption.
Qed.

(** [search] finds exactly the texts with a matching substring *)
Lemma search_spec : forall s r,
  search r s = true <->
  exists pre mid post, s = pre ++ mid ++ post /\ matches r mid.
Proof.
  induction s as [|c s IH]; intros r; cbn [search].
  - rewrite orb_false_r, match_prefix_spec. split.
    + intros (a & b & E & M). exists [], a, b. auto.
    + intros (pre & mid & post & E & M). exists mid, post. split; auto.
      symmetry in E. apply app_eq_nil in E as [-> E]. symmetry. assumption.
  - rewrite orb_true_iff, IH, match_prefix_spec. split.
    + intros [(a & b & E & M) | (pre & mid & post & E & M)].
      * exists [], a, b. auto.
      * exists (c :: pre), mid, post. split; [simpl; congruence | assumption].
    + intros (pre & mid & post & E & M). destruct pre as [|c' pre].
      * left. exists mid, post. auto.
      * right. simpl in E. injection E as <- ->. exists pre, mid, post. auto.
Qed.

(** some pattern of the list matches: the scan finds one *)
Lemma first_match_some patterns text :
  (exists r, In r patterns /\ test r text = true) ->
  exists r, Parking.first_match patterns text = Some r.
Proof.
  induction patterns as [|p ps IH]; simpl.
  - intros (r & [] & _).
  - intros (r & [<- | Hin] & Ht).
    + rewrite Ht. eauto.
    + destruct (test p text); eauto.
Qed.

(** the pattern the scan finds matches, and no pattern before it in the
    list does *)
Lemma first_match_first patterns text r :
  Parking.first_match patterns text = Some r ->
  exists before after,
    patterns = before ++ r :: after /\
    test r text = true /\
    forall r', In r' before -> test r' text = false.
Proof.
  induction patterns as [|p ps IH]; simpl; intros H; [discriminate|].
  destruct (test p text) eqn:E.
  - injection H as <-. exists [], ps. split; [reflexivity|]. split; [assumption|].
    intros r' [].
  - destruct (IH H) as (before & after & -> & Ht & Hb).
    exists (p :: before), after. split; [reflexivity|]. split; [assumption|].
    intros r' [<- | Hin]; auto.
Qed.

End RegexFacts.

(** ** Running composed programs *)

Module RunFacts.
Local Open Scope list_scope.

Lemma run_bind (E : World) A B (p : Prog A) (f : A -> Prog B) : forall w,
  run E (bind p f) w =
  match run E p w with
  | (Returned a, w1, tr1) =>
      let '(o, w2, tr2) := run E (f a) w1 in (o, w2, tr1 ++ tr2)
  | (Raised e, w1, tr1) => (Raised e, w1, tr1)
  end.
Proof.
  induction p as [a|e|X op k IH]; intros w; simpl.
  - destruct (run E (f a) w) as [[o w2] tr2]. reflexivity.
  - reflexivity.
  - destruct (handle E op w) as [x w1]. rewrite IH.
    destruct (run E (k x) w1) as [[[a|e] w2] tr1]; simpl.
    + destruct (run E (f a) w2) as [[o w3] tr2]. reflexivity.
    + reflexivity.
Qed.

Lemma run_try_catch (E : World) A (p : Prog A) (h : Error -> Prog A) : forall w,
  run E (try_catch p h) w =
  match run E p w with
  | (Returned a, w1, tr1) => (Returned a, w1, tr1)
  | (Raised e, w1, tr1) =>
      let '(o, w2, tr2) := run E (h e) w1 in (o, w2, tr1 ++ tr2)
  end.
Proof.
  induction p as [a|e|X op k IH]; intros w; simpl.
  - reflexivity.
  - destruct (run E (h e) w) as [[o w2] tr2]. reflexivity.
  - destruct (handle E op w) as [x w1]. rewrite IH.
    destruct (run E (k x) w1) as [[[a|e] w2] tr1]; simpl.
    + reflexivity.
    + destruct (run E (h e) w2) as [[o w3] tr2]. reflexivity.
Qed.

Lemma result_eta A W (r : Outcome A * W * list Evt) :
  r = (outcome_of r, state_of r, trace_of r).
Proof. destruct r as [[o w] tr]. reflexivity. Qed.

Lemma run_call (E : World) X (op : Op X) w :
  run E (call op) w = (Returned (fst (handle E op w)), snd (handle E op w),
                       [evt op (fst (handle E op w))]).
Proof. unfold call. simpl. destruct (handle E op w). reflexivity. Qed.

End RunFacts.

(** ** The monitoring loop *)

Module PollLoop.
Import JsString Parking RunFacts.
Local Open Scope list_scope.

(** C1.  In any turn of the monitoring loop, in any world: when the loop
    condition lets the turn start and the attempt ([checkAndBook]) returns an
    object with [booked: true], the loop performs exactly one more operation,
    the ['success'] status event, and returns [{ booked: true }].  The trace
    of the turn is the read of the signal, the trace [tr] of that one attempt,
    and the success event: no operation of a further attempt follows. *)
Theorem booked_attempt_ends_run
    (getDate : string -> option nat) (E : World) (config : MonitorConfig)
    (signal : Signal) (fuel : nat) (w w1 : state E) (result : CheckResult)
    (tr : list Evt) :
  fst (handle E (SignalAborted signal) w) = false ->
  run E (checkAndBook getDate config) (snd (handle E (SignalAborted signal) w))
    = (Returned result, w1, tr) ->
  booked result = true ->
  run E (monitor_loop getDate (S fuel) config signal) w =
    (Returned (Some (mkResult true)),
     snd (handle E (OnStatus success (booked_message config)) w1),
     evt (SignalAborted signal) false ::
       tr ++ [evt (OnStatus success (booked_message config)) tt]).
Proof.
  intros Hlive Hrun Hbooked.
  cbn [monitor_loop]. rewrite run_bind, run_call, Hlive.
  cbn iota beta. unfold monitor_turn.
  rewrite run_bind, run_try_catch, run_bind, Hrun.
  cbn iota beta. rewrite Hbooked.
  rewrite run_bind, run_call. cbn.
  destruct (handle E (OnStatus success _) w1) as [[] w2]. cbn.
  rewrite <- app_assoc. reflexivity.
Qed.

(** C1, on a site where the booking goes through at the first attempt. *)
Lemma booked_attempt_ends_run_witness :
  let E := Scenario.stateless (Scenario.bookable_page "Your parking spot is reserved") in
  let attempt := run E (checkAndBook Scenario.iso_day Scenario.config) tt in
  attempt = (Returned booking_done, tt, trace_of attempt) /\
  run E (monitor_loop Scenario.iso_day 1 Scenario.config 0) tt =
    (Returned (Some (mkResult true)), tt,
     evt (SignalAborted 0) false ::
       trace_of attempt ++ [evt (OnStatus success (booked_message Scenario.config)) tt]).
Proof.
  intros E attempt. split; [vm_compute; reflexivity|].
  apply (@booked_attempt_ends_run Scenario.iso_day E Scenario.config 0 0 tt tt
           booking_done (trace_of attempt)).
  - reflexivity.
  - vm_compute. reflexivity.
  - reflexivity.
Defined.

Lemma truthy_false (s : string) : truthy s = false <-> s = EmptyString.
Proof.
  unfold truthy. destruct s; simpl; split; intros H; try reflexivity; discriminate.
Qed.

(** C3 as the code has it.  When one of the five required fields is the
    empty string, [startMonitor] performs a single operation, the ['error']
    status event that names the first empty field, and returns
    [{ booked: false }]: no attempt is started, in any world and for any
    bound on the loop. *)
Theorem empty_field_stops_start
    (getDate : string -> option nat) (E : World) (config : MonitorConfig)
    (signal : Signal) (fuel : nat) (w : state E) :
  email config = EmptyString \/ password config = EmptyString \/
  seasonPass config = EmptyString \/ licensePlate config = EmptyString \/
  targetDate config = EmptyString ->
  exists key,
    In key ["email"; "password"; "seasonPass"; "licensePlate"; "targetDate"]%string /\
    first_missing (required config) = Some key /\
    run E (startMonitor getDate fuel config signal) w =
      (Returned (Some (mkResult false)),
       snd (handle E (OnStatus error (missing_message key)) w),
       [evt (OnStatus error (missing_message key)) tt]).
Proof.
  intros H.
  assert (K : exists key,
             In key ["email"; "password"; "seasonPass"; "licensePlate"; "targetDate"]%string /\
             first_missing (required config) = Some key).
  { unfold required. cbn [first_missing].
    destruct (truthy (email config)) eqn:E1; [|exists "email"%string; simpl; auto].
    destruct (truthy (password config)) eqn:E2; [|exists "password"%string; simpl; auto].
    destruct (truthy (seasonPass config)) eqn:E3; [|exists "seasonPass"%string; simpl; auto].
    destruct (truthy (licensePlate config)) eqn:E4;
      [|exists "licensePlate"%string; simpl; auto 6].
    destruct (truthy (targetDate config)) eqn:E5;
      [|exists "targetDate"%string; simpl; auto 7].
    exfalso.
    destruct H as [H|[H|[H|[H|H]]]]; apply truthy_false in H; congruence. }
  destruct K as (key & Hin & Hkey). exists key. repeat split; try assumption.
  unfold startMonitor. rewrite Hkey. rewrite run_bind, run_call. cbn.
  destruct (handle E (OnStatus error _) w) as [[] w1]. reflexivity.
Qed.

(** C3 as the code has it, for a configuration without a password. *)
Lemma empty_field_stops_start_witness :
  password Scenario.no_password = EmptyString /\
  run Scenario.quiet_site (startMonitor Scenario.iso_day 3 Scenario.no_password 0) tt =
    (Returned (Some (mkResult false)), tt,
     [evt (OnStatus error (missing_message "password")) tt]).
Proof.
  split; [reflexivity|].
  destruct (@empty_field_stops_start Scenario.iso_day Scenario.quiet_site
              Scenario.no_password 0 3 tt (or_intror (or_introl eq_refl)))
    as (key & _ & Hkey & Hrun).
  injection Hkey as <-. exact Hrun.
Defined.

(** C3 fails for a field made of blanks: with an e-mail of three spaces the
    run starts an attempt, emits no ['error'] event and, on a site where the
    booking goes through, returns [{ booked: true }]. *)
Lemma blank_email_is_monitored :
  forallb is_space (chars (email Scenario.blank_email)) = true /\
  let r := run (Scenario.stateless (Scenario.bookable_page "Your parking spot is reserved"))
               (startMonitor Scenario.iso_day 1 Scenario.blank_email 0) tt in
  outcome_of r = Returned (Some (mkResult true)) /\
  Trace.count Trace.is_launch (trace_of r) = 1 /\
  Trace.count Trace.is_error_status (trace_of r) = 0.
Proof. vm_compute. repeat split. Qed.

(** C10.  For a configuration that passes the validation, when the signal
    reads aborted at the first test of the loop condition (nothing but the
    synchronous validation and the first status callback runs between the
    call and that test), [startMonitor] performs three operations: the
    ['monitoring'] start event, the read of the signal, the ['monitoring']
    stop event; it returns [{ booked: false }].  No attempt is started and
    no browser is launched. *)
Theorem aborted_before_start
    (getDate : string -> option nat) (E : World) (config : MonitorConfig)
    (signal : Signal) (fuel : nat) (w : state E) :
  first_missing (required config) = None ->
  fst (handle E (SignalAborted signal)
         (snd (handle E (OnStatus monitoring (starting_message config)) w))) = true ->
  run E (startMonitor getDate (S fuel) config signal) w =
    (Returned (Some (mkResult false)),
     snd (handle E (OnStatus monitoring stopped_message)
            (snd (handle E (SignalAborted signal)
                    (snd (handle E (OnStatus monitoring (starting_message config)) w))))),
     [evt (OnStatus monitoring (starting_message config)) tt;
      evt (SignalAborted signal) true;
      evt (OnStatus monitoring stopped_message) tt]).
Proof.
  intros Hvalid Haborted.
  unfold startMonitor. rewrite Hvalid.
  rewrite run_bind, run_call.
  destruct (handle E (OnStatus monitoring (starting_message config)) w) as [[] w1].
  cbn [fst snd] in *. cbn [monitor_loop].
  rewrite run_bind, run_call, Haborted. cbn iota beta.
  unfold monitor_stopped. rewrite run_bind, run_call.
  destruct (handle E (OnStatus monitoring stopped_message) _) as [[] w3].
  reflexivity.
Qed.

(** C10, in a world whose signal is aborted from the start. *)
Lemma aborted_before_start_witness :
  first_missing (required Scenario.config) = None /\
  run (Scenario.stateless Scenario.stopped)
      (startMonitor Scenario.iso_day 1 Scenario.config 0) tt =
    (Returned (Some (mkResult false)), tt,
     [evt (OnStatus monitoring (starting_message Scenario.config)) tt;
      evt (SignalAborted 0) true;
      evt (OnStatus monitoring stopped_message) tt]).
Proof.
  split; [reflexivity|].
  apply (@aborted_before_start Scenario.iso_day (Scenario.stateless Scenario.stopped)
           Scenario.config 0 0 tt); reflexivity.
Defined.

End PollLoop.

(** ** Cancellation during the sleep *)

Module Cancellation.
Import JsString Parking RunFacts Clock.
Local Open Scope list_scope.
Local Open Scope Z_scope.

Section Sleep.
Variable inner : World.
Variable latency : forall X, Op X -> state inner -> Z.
Variable getDate : string -> option nat.

Let W : World := timed inner latency.

Lemma lookup_remove_key V (k : nat) (l : list (nat * V)) :
  lookup k (remove_key k l) = None.
Proof.
  induction l as [|[k' v] l IH]; simpl; [reflexivity|].
  destruct (Nat.eqb k k') eqn:E; simpl; [assumption|].
  rewrite E. assumption.
Qed.

(** The sleep of [waitWithAbort] when the abort comes before the timer is
    due: the promise is resolved at the time of the abort. *)
Lemma wait_interrupted (ms : Z) (signal : Signal) (t : state W) (ta : Z) :
  stop_at t signal = Some ta ->
  now t < ta ->
  ta < now t + timer_delay ms ->
  exists t' : state W,
    run W (waitWithAbort ms signal) t =
      (Returned tt, t',
       [evt (SignalAborted signal) false;
        evt (SetTimeout ms) (next_timer t);
        evt (AddAbortListener signal (next_timer t)) tt;
        evt (AwaitResolve (next_timer t)) tt]) /\
    now t' = ta /\ stop_at t' = stop_at t /\ hung t' = hung t.
Proof.
  intros Hstop Hlt Hdue.
  assert (Hlive : aborted t signal = false).
  { unfold aborted. rewrite Hstop. apply Z.leb_gt. assumption. }
  unfold waitWithAbort. rewrite run_bind, run_call.
  change (handle W (SignalAborted signal) t) with (aborted t signal, t).
  cbn [fst snd]. rewrite Hlive. cbn iota beta.
  cbn [run bind call handle W timed timed_handle].
  unfold wake_time. cbn [lookup timers listeners stop_at now]. rewrite !Nat.eqb_refl.
  rewrite Hstop. cbn [app next_timer hung inner_state].
  rewrite (Z.min_r _ ta) by lia. rewrite (Z.max_r _ ta) by lia.
  eexists. split; [reflexivity|].
  cbn [now hung stop_at]. repeat split.
Qed.

Lemma monitor_loop_S (config : MonitorConfig) (signal : Signal) (fuel : nat) :
  monitor_loop getDate (S fuel) config signal =
  (aborted' <- call (SignalAborted signal) ;;
   if (aborted' : bool) then monitor_stopped
   else
     turn <- monitor_turn getDate config signal ;;
     match turn with
     | Finish result => Ret (Some result)
     | Break => monitor_stopped
     | Again => monitor_loop getDate fuel config signal
     end)%prog.
Proof. reflexivity. Qed.

(** the loop condition, once the signal is aborted *)
Lemma loop_sees_abort (config : MonitorConfig) (signal : Signal) (fuel : nat)
    (t : state W) :
  aborted t signal = true ->
  exists t' : state W,
    run W (monitor_loop getDate (S fuel) config signal) t =
      (Returned (Some (mkResult false)), t',
       [evt (SignalAborted signal) true;
        evt (OnStatus monitoring stopped_message) tt]) /\
    now t' = now t.
Proof.
  intros Hnow.
  cbn [monitor_loop]. rewrite run_bind, run_call.
  change (handle W (SignalAborted signal) t) with (aborted t signal, t).
  cbn [fst snd]. rewrite Hnow. cbn iota beta. unfold monitor_stopped.
  rewrite run_bind, run_call.
  cbn [handle W timed timed_handle].
  destruct (handle inner (OnStatus monitoring stopped_message) (inner_state t))
    as [[] i] eqn:Ei.
  cbn [fst snd run app].
  eexists. split; [reflexivity|]. reflexivity.
Qed.

(** a status callback leaves the clock and the schedule as they are *)
Lemma status_keeps_clock (kind : StatusKind) (msg : string) (t : state W) :
  exists t' : state W,
    run W (call (OnStatus kind msg)) t = (Returned tt, t', [evt (OnStatus kind msg) tt]) /\
    now t' = now t /\ stop_at t' = stop_at t /\ next_timer t' = next_timer t.
Proof.
  rewrite run_call. cbn [handle W timed timed_handle].
  destruct (handle inner (OnStatus kind msg) (inner_state t)) as [[] i].
  cbn [fst snd]. eexists. split; [reflexivity|]. repeat split.
Qed.

(** C4.  A turn of the loop in a world with a clock.  The attempt of the
    turn does not book (it returns [booked: false] or throws) and ends at
    the state [t1], where the signal is not yet aborted; the shell calls
    [abort()] at the time [ta], after the attempt has ended and before the
    timer of the sleep is due.  Then the promise of [waitWithAbort] is
    resolved at [ta], not when the timer is due; the loop reads the
    signal, emits the stop event and returns [{ booked: false }] at the
    time [ta].  After the trace [tr] of the attempt the run performs the
    eight operations listed, none of which belongs to an attempt. *)
Theorem abort_during_sleep_stops_loop (config : MonitorConfig) (signal : Signal)
    (fuel : nat) (t0 t1 : state W) (o : Outcome CheckResult) (tr : list Evt)
    (ta : Z) :
  aborted t0 signal = false ->
  run W (checkAndBook getDate config) t0 = (o, t1, tr) ->
  (forall result, o = Returned result -> booked result = false) ->
  stop_at t1 signal = Some ta ->
  now t1 < ta ->
  ta < now t1 + timer_delay (intervalMs config) ->
  exists t2 : state W,
    run W (monitor_loop getDate (S (S fuel)) config signal) t0 =
      (Returned (Some (mkResult false)), t2,
       evt (SignalAborted signal) false ::
       tr ++
       [evt (SignalAborted signal) false;
        Trace.after_attempt config o;
        evt (SignalAborted signal) false;
        evt (SetTimeout (intervalMs config)) (next_timer t1);
        evt (AddAbortListener signal (next_timer t1)) tt;
        evt (AwaitResolve (next_timer t1)) tt;
        evt (SignalAborted signal) true;
        evt (OnStatus monitoring stopped_message) tt]) /\
    now t2 = ta /\ now t2 < now t1 + timer_delay (intervalMs config).
Proof.
  intros Hlive0 Hrun Hnot Hstop Hlt Hdue.
  assert (Hlive1 : aborted t1 signal = false).
  { unfold aborted. rewrite Hstop. apply Z.leb_gt. assumption. }
  (* what follows the attempt, on either path *)
  assert (Hrest : forall kind msg,
            exists t2 : state W,
              run W (aborted' <- call (SignalAborted signal) ;;
                     if (aborted' : bool) then Ret Break
                     else
                       call (OnStatus kind msg) ;;
                       waitWithAbort (intervalMs config) signal ;;
                       Ret Again)%prog t1 =
                (Returned Again, t2,
                 [evt (SignalAborted signal) false;
                  evt (OnStatus kind msg) tt;
                  evt (SignalAborted signal) false;
                  evt (SetTimeout (intervalMs config)) (next_timer t1);
                  evt (AddAbortListener signal (next_timer t1)) tt;
                  evt (AwaitResolve (next_timer t1)) tt]) /\
              now t2 = ta /\ stop_at t2 = stop_at t1).
  { intros kind msg.
    rewrite run_bind, run_call.
    change (handle W (SignalAborted signal) t1) with (aborted t1 signal, t1).
    cbn [fst snd]. rewrite Hlive1. cbn iota beta.
    destruct (status_keeps_clock kind msg t1) as (ts & Hs & Hn & Hst & Hnt).
    rewrite run_bind, Hs. cbn iota beta.
    destruct (@wait_interrupted (intervalMs config) signal ts ta)
      as (tw & Hw & Hwn & Hwst & _); [congruence | lia | lia |].
    rewrite run_bind, Hw. cbn [run app]. rewrite Hnt.
    exists tw. split; [reflexivity|]. split; congruence. }
  rewrite monitor_loop_S, run_bind, run_call.
  change (handle W (SignalAborted signal) t0) with (aborted t0 signal, t0).
  cbn [fst snd]. rewrite Hlive0. cbn iota beta.
  rewrite run_bind. unfold monitor_turn. rewrite run_try_catch, run_bind, Hrun.
  destruct o as [result | err].
  - cbn iota beta. rewrite (Hnot result eq_refl).
    destruct (Hrest monitoring (next_check_message config)) as (t2 & H2 & Hn2 & Hs2).
    rewrite H2. cbn iota beta.
    destruct (@loop_sees_abort config signal fuel t2) as (t3 & H3 & Hn3).
    { unfold aborted. rewrite Hs2, Hstop, Hn2. apply Z.leb_refl. }
    rewrite H3.
    exists t3. split.
    + cbn [Trace.after_attempt app]. rewrite <- !app_assoc. reflexivity.
    + split; [congruence | lia].
  - cbn iota beta.
    destruct (Hrest error (check_error_message err)) as (t2 & H2 & Hn2 & Hs2).
    rewrite H2. cbn iota beta.
    destruct (@loop_sees_abort config signal fuel t2) as (t3 & H3 & Hn3).
    { unfold aborted. rewrite Hs2, Hstop, Hn2. apply Z.leb_refl. }
    rewrite H3.
    exists t3. split.
    + cbn [Trace.after_attempt app]. rewrite <- !app_assoc. reflexivity.
    + split; [congruence | lia].
Qed.

End Sleep.

(** C4, on a clock where every browser operation takes 10 ms, the interval
    is five minutes and the shell asks to stop one minute after the start. *)
Lemma abort_during_sleep_stops_loop_witness :
  let W := Scenario.clock_world in
  let t0 := Scenario.clock_start 60000 in
  let attempt := run W (checkAndBook Scenario.iso_day Scenario.config) t0 in
  outcome_of attempt = Returned not_found /\
  (now (state_of attempt) < 60000 < now (state_of attempt) + 300000) /\
  exists t2 : state W,
    outcome_of (run W (monitor_loop Scenario.iso_day 2 Scenario.config 0%nat) t0) =
      Returned (Some (mkResult false)) /\
    state_of (run W (monitor_loop Scenario.iso_day 2 Scenario.config 0%nat) t0) = t2 /\
    now t2 = 60000.
Proof.
  intros W t0 attempt.
  split; [vm_compute; reflexivity|].
  split; [vm_compute; split; reflexivity|].
  destruct (@abort_during_sleep_stops_loop Scenario.quiet_site (fun _ _ _ => 10)
              Scenario.iso_day Scenario.config 0%nat 0%nat t0 (state_of attempt)
              (outcome_of attempt) (trace_of attempt) 60000)
    as (t2 & Hrun & Hnow & _).
  - vm_compute. reflexivity.
  - apply result_eta.
  - intros result H. vm_compute in H. injection H as <-. reflexivity.
  - vm_compute. reflexivity.
  - vm_compute. reflexivity.
  - vm_compute. reflexivity.
  - exists t2. split; [exact (f_equal (@outcome_of _ _) Hrun)|].
    split; [exact (f_equal (@state_of _ _) Hrun) | exact Hnow].
Defined.

End Cancellation.

(** ** One attempt *)

Module Attempt.
Import JsString Regex Parking RunFacts RegexFacts.
Local Open Scope list_scope.

(** C2 fails on the code.  The browser starts, then [browser.newContext()]
    rejects: lines 119-120 are outside the [try] block whose [catch] closes
    the browser, so [checkAndBook] throws after three operations, none of
    which is [browser.close()]. *)
Theorem browser_leaks_when_context_fails :
  let r := run (Scenario.stateless Scenario.context_fails)
               (checkAndBook Scenario.iso_day Scenario.config) tt in
  r = (Raised (mkError "Error" "Target page, context or browser has been closed"), tt,
       [evt (OnStatus checking "Checking availability for 2026-02-01...") tt;
        evt (Launch None) (inr 1);
        evt (NewContext 1)
            (inl (mkError "Error" "Target page, context or browser has been closed"))]) /\
  Trace.count Trace.launched (trace_of r) = 1 /\
  Trace.count Trace.is_close (trace_of r) = 0.
Proof. vm_compute. repeat split. Qed.

(** C6 as the code has it.  The attempt has reached the scan of the page
    text, and the text read from the page has a substring that one of the
    five patterns matches (letters up to case, [\s*] any run of white space);
    the status callback and [browser.close()] then go through.  The attempt
    emits the "No parking available" event, closes the browser and returns
    the sold-out object.  One matching pattern is enough, wherever the
    substring is: the scan stops at the first pattern of the list that
    matches, and nothing else is looked up on the page afterwards. *)
Theorem sold_out_text_is_sold_out
    (E : World) (config : MonitorConfig) (browser : Browser) (page : Page)
    (w w1 w2 w3 : state E) (text : string) (pattern : regex)
    (pre mid post : list ascii) :
  handle E (PageInnerText page "body") w = (inr text, w1) ->
  In pattern soldOutPatterns ->
  chars text = pre ++ mid ++ post ->
  matches pattern mid ->
  handle E (OnStatus checking (targetDate config ++ ": No parking available")%string) w1
    = (tt, w2) ->
  handle E (Close browser) w2 = (inr tt, w3) ->
  (exists first before after,
     soldOutPatterns = before ++ first :: after /\
     first_match soldOutPatterns text = Some first /\
     test first text = true /\
     forall r, In r before -> test r text = false) /\
  run E (availability_step config browser page) w =
    (Returned sold_out, w3,
     [evt (PageInnerText page "body") (inr text);
      evt (OnStatus checking (targetDate config ++ ": No parking available")%string) tt;
      evt (Close browser) (inr tt)]).
Proof.
  intros Htext Hin Hsplit Hmatch Hstatus Hclose.
  assert (Hfound : exists r, first_match soldOutPatterns text = Some r).
  { apply first_match_some. exists pattern. split; [assumption|].
    unfold test. apply search_spec. exists pre, mid, post. auto. }
  destruct Hfound as (r & Hr).
  split.
  { destruct (first_match_first _ _ Hr) as (before & after & Hl & Ht & Hb).
    exists r, before, after. auto. }
  unfold availability_step, body_text.
  rewrite run_bind, run_try_catch. unfold await. cbn [run].
  rewrite Htext. cbn [run]. cbn iota beta. rewrite Hr.
  rewrite run_bind, run_call, Hstatus. cbn [fst snd]. cbn iota beta.
  rewrite run_bind. cbn [run]. rewrite Hclose. cbn. reflexivity.
Qed.

(** C6 as the code has it, for a page that reads "Sorry, FULLY BOOKED". *)
Lemma sold_out_text_is_sold_out_witness :
  run (Scenario.stateless (Scenario.page_reads "Sorry, FULLY BOOKED"))
      (availability_step Scenario.config 1 3) tt =
    (Returned sold_out, tt,
     [evt (PageInnerText 3 "body") (inr "Sorry, FULLY BOOKED"%string);
      evt (OnStatus checking "2026-02-01: No parking available") tt;
      evt (Close 1) (inr tt)]).
Proof.
  assert (H : search (nth 2 soldOutPatterns Void) (chars "Sorry, FULLY BOOKED") = true)
    by (vm_compute; reflexivity).
  apply search_spec in H. destruct H as (pre & mid & post & Hsplit & Hmatch).
  apply (proj2 (A := exists first before after,
                       soldOutPatterns = before ++ first :: after /\
                       first_match soldOutPatterns "Sorry, FULLY BOOKED" = Some first /\
                       test first "Sorry, FULLY BOOKED" = true /\
                       forall r, In r before -> test r "Sorry, FULLY BOOKED" = false)).
  apply (@sold_out_text_is_sold_out
           (Scenario.stateless (Scenario.page_reads "Sorry, FULLY BOOKED"))
           Scenario.config 1 3 tt tt tt tt "Sorry, FULLY BOOKED"
           (nth 2 soldOutPatterns Void) pre mid post).
  - reflexivity.
  - simpl. auto.
  - exact Hsplit.
  - exact Hmatch.
  - reflexivity.
  - reflexivity.
Defined.

(** C6 fails for the hyphenated form: no pattern matches a page that reads
    "sold-out", and the attempt on such a page (without a booking button)
    returns the not-found object, not the sold-out one. *)
Lemma hyphenated_sold_out_is_not_matched :
  first_match soldOutPatterns "sold-out" = None /\
  outcome_of (run (Scenario.stateless (Scenario.page_reads "sold-out"))
                  (checkAndBook Scenario.iso_day Scenario.config) tt)
    = Returned not_found /\
  not_found <> sold_out.
Proof. split; [vm_compute; reflexivity|]. split; [vm_compute; reflexivity|]. discriminate. Qed.

(** the phrases of the specification, in several spellings *)
Example sold_out_spellings :
  map (fun text => is_some (first_match soldOutPatterns text))
      ["Fully Booked"; "FULLY BOOKED"; "fully  booked"; "Sold Out"; "SOLDOUT";
       "No spots available"; "no parking available"; "Currently Unavailable";
       "Join the WAITLIST"]%string
  = [true; true; true; true; true; true; true; true; true].
Proof. vm_compute. reflexivity. Qed.

(** *** The day-number lookup *)

(** the lookup returns an element of the list it was given, and the last
    operation of the run is the read of that element's text, which trims to
    the day *)
Lemma find_exact_day_sound (E : World) (targetDay : option nat) :
  forall (dayElements : list Elem) (w : state E) (el : Elem),
    outcome_of (run E (find_exact_day targetDay dayElements) w) = Returned (Some el) ->
    In el dayElements /\
    exists text before,
      trace_of (run E (find_exact_day targetDay dayElements) w)
        = before ++ [evt (InnerText el) (inr text)] /\
      trim text = day_string targetDay.
Proof.
  induction dayElements as [|e rest IH]; intros w el H.
  - discriminate.
  - cbn [find_exact_day] in *. rewrite run_bind in *. unfold await in *. cbn [run] in *.
    destruct (handle E (InnerText e) w) as [[err|text] w1]; cbn [run] in *.
    + discriminate.
    + cbn iota beta in *.
      destruct (String.eqb (trim text) (day_string targetDay)) eqn:Eq.
      * cbn in H. injection H as <-. split; [left; reflexivity|].
        exists text, []. split; [reflexivity|]. apply String.eqb_eq. assumption.
      * destruct (run E (find_exact_day targetDay rest) w1) as [[o w2] tr] eqn:Er.
        cbn in H. subst o.
        destruct (IH w1 el) as (Hin & text' & before & Htr & Htrim).
        { rewrite Er. reflexivity. }
        split; [right; assumption|].
        rewrite Er in Htr. cbn in Htr. subst tr.
        exists text', (evt (InnerText e) (inr text) :: before).
        split; [reflexivity | assumption].
Qed.

(** the first cell whose text trims to the day is selected, when the texts
    of the cells before it can be read and do not *)
Lemma find_exact_day_complete (E : World) (targetDay : option nat) :
  forall (before : list Elem) (el : Elem) (after : list Elem) (w : state E),
    (forall e w', In e before ->
       exists text, fst (handle E (InnerText e) w') = inr text /\
                    trim text <> day_string targetDay) ->
    (forall w', exists text, fst (handle E (InnerText el) w') = inr text /\
                             trim text = day_string targetDay) ->
    outcome_of (run E (find_exact_day targetDay (before ++ el :: after)) w)
      = Returned (Some el).
Proof.
  induction before as [|e rest IH]; intros el after w Hbefore Hel.
  - cbn [app find_exact_day]. rewrite run_bind. unfold await. cbn [run].
    destruct (Hel w) as (text & Ht & Heq).
    destruct (handle E (InnerText el) w) as [r w1]. cbn [fst] in Ht. subst r.
    cbn [run]. cbn iota beta.
    apply String.eqb_eq in Heq. rewrite Heq. reflexivity.
  - cbn [app find_exact_day]. rewrite run_bind. unfold await. cbn [run].
    destruct (Hbefore e w (or_introl eq_refl)) as (text & Ht & Hne).
    destruct (handle E (InnerText e) w) as [r w1]. cbn [fst] in Ht. subst r.
    cbn [run]. cbn iota beta.
    apply String.eqb_neq in Hne. rewrite Hne.
    specialize (IH el after w1).
    destruct (run E (find_exact_day targetDay (rest ++ el :: after)) w1)
      as [[o w2] tr] eqn:Er.
    cbn. apply IH.
    + intros e' w' Hin. apply Hbefore. right. assumption.
    + assumption.
Qed.

(** C8.  The day-number lookup of lines 169-175, in any world, for any
    target day (also [NaN]) and any list of candidate elements.  A cell is
    selected only when a text was read from it that, trimmed, is equal to
    [String(targetDay)]; the first such cell is selected.  For the day 1: a
    text "12" or "21" is not equal to it, so a calendar whose candidate cells
    all read "12" or "21" yields no cell, and a cell that reads "1" is
    selected. *)
Theorem day_lookup_is_exact (E : World) (targetDay : option nat)
    (dayElements : list Elem) (w : state E) :
  (forall el,
     outcome_of (run E (find_exact_day targetDay dayElements) w) = Returned (Some el) ->
     In el dayElements /\
     exists text before,
       trace_of (run E (find_exact_day targetDay dayElements) w)
         = before ++ [evt (InnerText el) (inr text)] /\
       trim text = day_string targetDay) /\
  (forall before el after,
     dayElements = before ++ el :: after ->
     (forall e w', In e before ->
        exists text, fst (handle E (InnerText e) w') = inr text /\
                     trim text <> day_string targetDay) ->
     (forall w', exists text, fst (handle E (InnerText el) w') = inr text /\
                              trim text = day_string targetDay) ->
     outcome_of (run E (find_exact_day targetDay dayElements) w) = Returned (Some el)) /\
  (targetDay = Some 1 ->
     (forall e w', In e dayElements ->
        fst (handle E (InnerText e) w') = inr "12"%string \/
        fst (handle E (InnerText e) w') = inr "21"%string) ->
     outcome_of (run E (find_exact_day targetDay dayElements) w) = Returned None) /\
  (targetDay = Some 1 ->
     forall el after,
       dayElements = el :: after ->
       (forall w', fst (handle E (InnerText el) w') = inr "1"%string) ->
       outcome_of (run E (find_exact_day targetDay dayElements) w) = Returned (Some el)).
Proof.
  split; [|split; [|split]].
  - intros el H. apply find_exact_day_sound. assumption.
  - intros before el after -> Hb He. apply find_exact_day_complete; assumption.
  - intros -> Hall. revert w.
    induction dayElements as [|e rest IH]; intros w; [reflexivity|].
    cbn [find_exact_day]. rewrite run_bind. unfold await. cbn [run].
    destruct (Hall e w (or_introl eq_refl)) as [Ht | Ht];
      destruct (handle E (InnerText e) w) as [r w1]; cbn [fst] in Ht; subst r;
      cbn [run]; cbn iota beta;
      change (String.eqb (trim _) (day_string (Some 1))) with false; cbn iota;
      specialize (IH (fun e' w' Hin => Hall e' w' (or_intror Hin)) w1);
      destruct (run E (find_exact_day (Some 1) rest) w1) as [[o w2] tr];
      cbn in *; assumption.
  - intros -> el after -> Hel.
    apply (@find_exact_day_complete E (Some 1) [] el after w).
    + intros e w' [].
    + intros w'. exists "1"%string. split; [apply Hel | reflexivity].
Qed.

(** C8, on a calendar whose candidate cells read "12", "21" and " 1 ". *)
Lemma day_lookup_is_exact_witness :
  let E := Scenario.stateless Scenario.day_cells in
  outcome_of (run E (find_exact_day (Some 1) [11; 12; 13]) tt) = Returned (Some 13) /\
  In 13 [11; 12; 13] /\
  exists text before,
    trace_of (run E (find_exact_day (Some 1) [11; 12; 13]) tt)
      = before ++ [evt (InnerText 13) (inr text)] /\
    trim text = "1"%string.
Proof.
  intros E.
  assert (H : outcome_of (run E (find_exact_day (Some 1) [11; 12; 13]) tt)
              = Returned (Some 13)) by reflexivity.
  split; [exact H|].
  exact (proj1 (@day_lookup_is_exact E (Some 1) [11; 12; 13] tt) 13 H).
Defined.

(** *** The confirmation *)

(** C9.  The attempt has reached the confirm step: the confirm button is
    found, the click and the settle delay go through, and the body of the
    page is then read as [text]; [browser.close()] goes through.  If [text]
    is "Thank you, your reservation is confirmed", the attempt closes the
    browser and returns [{ available: true, booked: true }].  If [text] is
    "Something went wrong", the attempt emits the "Check manually" error
    event, closes the browser and returns
    [{ available: true, booked: false }]. *)
Theorem confirmation_decides_outcome
    (E : World) (config : MonitorConfig) (browser : Browser) (page : Page)
    (confirmButton : Elem) (text : string) (w w1 w2 w3 w4 : state E) :
  handle E (Query page sel_confirm) w = (inr (Some confirmButton), w1) ->
  handle E (Click confirmButton) w1 = (inr tt, w2) ->
  handle E (WaitForTimeout page 3000) w2 = (inr tt, w3) ->
  handle E (PageInnerText page "body") w3 = (inr text, w4) ->
  (text = "Thank you, your reservation is confirmed"%string ->
   forall w5,
     handle E (Close browser) w4 = (inr tt, w5) ->
     run E (confirm_step config browser page) w =
       (Returned (mkCheck true true None), w5,
        [evt (Query page sel_confirm) (inr (Some confirmButton));
         evt (Click confirmButton) (inr tt);
         evt (WaitForTimeout page 3000) (inr tt);
         evt (PageInnerText page "body") (inr text);
         evt (Close browser) (inr tt)])) /\
  (text = "Something went wrong"%string ->
   forall w5 w6,
     handle E (OnStatus error check_manually_message) w4 = (tt, w5) ->
     handle E (Close browser) w5 = (inr tt, w6) ->
     run E (confirm_step config browser page) w =
       (Returned (mkCheck true false None), w6,
        [evt (Query page sel_confirm) (inr (Some confirmButton));
         evt (Click confirmButton) (inr tt);
         evt (WaitForTimeout page 3000) (inr tt);
         evt (PageInnerText page "body") (inr text);
         evt (OnStatus error check_manually_message) tt;
         evt (Close browser) (inr tt)])).
Proof.
  intros Hquery Hclick Hwait Htext.
  assert (Hread : run E (body_text page) w3 =
                  (Returned text, w4, [evt (PageInnerText page "body") (inr text)])).
  { unfold body_text. rewrite run_try_catch. unfold await. cbn [run].
    rewrite Htext. reflexivity. }
  split.
  - intros -> w5 Hclose.
    unfold confirm_step. rewrite run_bind. unfold await at 1. cbn [run].
    rewrite Hquery. cbn [run]. cbn iota beta.
    rewrite run_bind, run_bind. unfold await at 1. cbn [run].
    rewrite Hclick. cbn [run]. cbn iota beta.
    rewrite run_bind. unfold await at 1. cbn [run].
    rewrite Hwait. cbn [run]. cbn iota beta.
    rewrite run_bind, Hread. cbn [run]. cbn iota beta.
    change (test successPattern "Thank you, your reservation is confirmed") with true.
    cbn iota. rewrite run_bind. unfold await. cbn [run].
    rewrite Hclose. reflexivity.
  - intros -> w5 w6 Hstatus Hclose.
    unfold confirm_step. rewrite run_bind. unfold await at 1. cbn [run].
    rewrite Hquery. cbn [run]. cbn iota beta.
    rewrite run_bind, run_bind. unfold await at 1. cbn [run].
    rewrite Hclick. cbn [run]. cbn iota beta.
    rewrite run_bind. unfold await at 1. cbn [run].
    rewrite Hwait. cbn [run]. cbn iota beta.
    rewrite run_bind, Hread. cbn [run]. cbn iota beta.
    change (test successPattern "Something went wrong") with false.
    cbn iota. rewrite run_bind, run_call, Hstatus. cbn [fst snd]. cbn iota beta.
    rewrite run_bind. unfold await. cbn [run].
    rewrite Hclose. reflexivity.
Qed.

(** C9, on a page with a confirm button (8) that reads the thank-you text. *)
Lemma confirmation_decides_outcome_witness :
  run (Scenario.stateless
         (Scenario.bookable_page "Thank you, your reservation is confirmed"))
      (confirm_step Scenario.config 1 3) tt =
    (Returned (mkCheck true true None), tt,
     [evt (Query 3 sel_confirm) (inr (Some 8));
      evt (Click 8) (inr tt);
      evt (WaitForTimeout 3 3000) (inr tt);
      evt (PageInnerText 3 "body") (inr "Thank you, your reservation is confirmed"%string);
      evt (Close 1) (inr tt)]).
Proof.
  apply (proj1 (@confirmation_decides_outcome
                  (Scenario.stateless
                     (Scenario.bookable_page "Thank you, your reservation is confirmed"))
                  Scenario.config 1 3 8 "Thank you, your reservation is confirmed"
                  tt tt tt tt tt eq_refl eq_refl eq_refl eq_refl));
    reflexivity.
Defined.

(** *** The calendar loop *)

Lemma count_app (f : Evt -> bool) (a b : list Evt) :
  Trace.count f (a ++ b) = Trace.count f a + Trace.count f b.
Proof. unfold Trace.count. rewrite filter_app, length_app. reflexivity. Qed.

Lemma avoids_bind (f : Evt -> bool) A B (p : Prog A) (k : A -> Prog B) :
  Trace.avoids f p -> (forall a, Trace.avoids f (k a)) -> Trace.avoids f (bind p k).
Proof.
  intros Hp Hk. induction Hp; cbn [bind]; [apply Hk | constructor | constructor; auto].
Qed.

Lemma avoids_try_catch (f : Evt -> bool) A (p : Prog A) (h : Error -> Prog A) :
  Trace.avoids f p -> (forall e, Trace.avoids f (h e)) -> Trace.avoids f (try_catch p h).
Proof.
  intros Hp Hh. induction Hp; cbn [try_catch]; [constructor | apply Hh | constructor; auto].
Qed.

Lemma avoids_await (f : Evt -> bool) X (op : Op (Error + X)) :
  (forall x, f (evt op x) = false) -> Trace.avoids f (await op).
Proof. intros H. unfold await. constructor; [assumption|]. intros [e|x]; constructor. Qed.

Lemma avoids_call (f : Evt -> bool) X (op : Op X) :
  (forall x, f (evt op x) = false) -> Trace.avoids f (call op).
Proof. intros H. unfold call. constructor; [assumption|]. intros x; constructor. Qed.

Lemma avoids_run (f : Evt -> bool) (E : World) A (p : Prog A) :
  Trace.avoids f p -> forall w, Trace.count f (trace_of (run E p w)) = 0.
Proof.
  intros Hp. induction Hp as [a|e|X op k Hop Hk IH]; intros w; cbn [run]; try reflexivity.
  destruct (handle E op w) as [x w1]. specialize (IH x w1).
  destruct (run E (k x) w1) as [[o w2] tr]. cbn in *.
  unfold Trace.count in *. cbn [filter]. rewrite Hop. assumption.
Qed.

(** how a proof that a program avoids [f] goes through the program *)
Ltac avoid :=
  repeat first
    [ apply Trace.avoids_ret
    | apply Trace.avoids_throw
    | apply avoids_call; intros; reflexivity
    | apply avoids_await; intros; reflexivity
    | apply avoids_bind
    | apply avoids_try_catch
    | progress intros
    | match goal with
      | |- Trace.avoids _ (match ?x with _ => _ end) => destruct x
      end ].

Section Calendar.
Variable getDate : string -> option nat.
Variable E : World.
Variable config : MonitorConfig.

Let lookups : list Evt -> nat :=
  Trace.count (Trace.is_date_lookup (targetDate config)).

Lemma find_exact_day_no_lookup (targetDay : option nat) (els : list Elem) :
  Trace.avoids (Trace.is_date_lookup (targetDate config))
               (find_exact_day targetDay els).
Proof.
  induction els as [|el rest IH]; cbn [find_exact_day]; [constructor|].
  apply avoids_bind; [apply avoids_await; intros; reflexivity|].
  intros text. destruct (String.eqb _ _); [constructor | assumption].
Qed.

(** a lookup of the date cell queries the date selector once *)
Lemma find_date_one_lookup (page : Page) (w : state E) :
  lookups (trace_of (run E (find_date getDate page (targetDate config)) w)) = 1.
Proof.
  unfold find_date. rewrite run_bind. unfold await at 1. cbn [run].
  destruct (handle E (Query page (dateSelector (targetDate config))) w)
    as [[err|[el|]] w1]; cbn [run]; cbn iota beta.
  - unfold lookups, Trace.count. cbn. rewrite String.eqb_refl. reflexivity.
  - unfold lookups, Trace.count. cbn. rewrite String.eqb_refl. reflexivity.
  - match goal with
    | |- context [run E ?p w1] =>
        assert (H : lookups (trace_of (run E p w1)) = 0)
    end.
    { apply avoids_run. apply avoids_bind; [apply avoids_await; intros; reflexivity|].
      intros els. apply find_exact_day_no_lookup. }
    match goal with
    | |- context [run E ?p w1] => destruct (run E p w1) as [[o w2] tr]
    end.
    cbn in *. unfold lookups, Trace.count in *. cbn [filter Trace.is_date_lookup evt_op].
    rewrite String.eqb_refl. cbn [length]. rewrite H. reflexivity.
Qed.

Lemma next_month_no_lookup (page : Page) (nextButton : option Elem) :
  Trace.avoids (Trace.is_date_lookup (targetDate config))
    (match nextButton with
     | Some b => await (Click b) ;; await (WaitForTimeout page 1000)
     | None => Ret tt
     end)%prog.
Proof. avoid. Qed.

Lemma confirm_step_no_lookup (browser : Browser) (page : Page) :
  Trace.avoids (Trace.is_date_lookup (targetDate config))
               (confirm_step config browser page).
Proof. unfold confirm_step, body_text. avoid. Qed.

Lemma book_step_no_lookup (browser : Browser) (page : Page) (bb : Elem) :
  Trace.avoids (Trace.is_date_lookup (targetDate config))
               (book_step config browser page bb).
Proof. unfold book_step. avoid. Qed.

Lemma availability_step_no_lookup (browser : Browser) (page : Page) :
  Trace.avoids (Trace.is_date_lookup (targetDate config))
               (availability_step config browser page).
Proof. unfold availability_step, body_text. avoid. Qed.

Lemma login_step_no_lookup (page : Page) :
  Trace.avoids (Trace.is_date_lookup (targetDate config)) (login_step config page).
Proof. unfold login_step. avoid. Qed.

Lemma launch_browser_no_lookup :
  Trace.avoids (Trace.is_date_lookup (targetDate config)) (launch_browser config).
Proof. unfold launch_browser. avoid. Qed.

(** the date is on no calendar view: a lookup of the date cell never
    returns an element (it returns nothing, or throws) *)
Hypothesis absent : forall page w el,
  outcome_of (run E (find_date getDate page (targetDate config)) w)
    <> Returned (Some el).

Lemma lookup_next_month (page : Page) (x : Error + option Elem) (tr : list Evt) :
  lookups (evt (Query page sel_next) x :: tr) = lookups tr.
Proof. reflexivity. Qed.

Lemma lookups_app (a b : list Evt) : lookups (a ++ b) = lookups a + lookups b.
Proof. apply count_app. Qed.

Lemma calendar_loop_absent (browser : Browser) (page : Page) :
  forall (left : nat) (w w' : state E) (o : Outcome LoopExit) (tr : list Evt),
    run E (calendar_loop getDate left browser page (targetDate config)) w = (o, w', tr) ->
    lookups tr <= left /\
    forall exit, o = Returned exit -> exit = FallThrough /\ lookups tr = left.
Proof.
  induction left as [|left IH]; intros w w' o tr H.
  - cbn in H. injection H as <- _ <-. split; [unfold lookups; cbn; lia|].
    intros exit H. injection H as <-. split; reflexivity.
  - cbn [calendar_loop] in H. rewrite run_bind in H.
    pose proof (find_date_one_lookup page w) as Hone.
    pose proof (absent page w) as Habs.
    destruct (run E (find_date getDate page (targetDate config)) w)
      as [[[[el|]|err] w1] tr1]; cbn [trace_of outcome_of fst snd] in *.
    + exfalso. apply (Habs el). reflexivity.
    + rewrite run_bind in H. unfold await at 1 in H. cbn [run] in H.
      destruct (handle E (Query page sel_next) w1) as [[err|nextButton] w2];
        cbn [run] in H.
      * injection H as <- _ <-. rewrite lookups_app.
        rewrite Hone, lookup_next_month.
        split; [unfold lookups; cbn; lia | discriminate].
      * cbn iota beta in H. rewrite run_bind in H.
        pose proof (avoids_run E (next_month_no_lookup page nextButton) w2) as Hnext.
        fold lookups in Hnext.
        match type of H with
        | context [run E ?p w2] => destruct (run E p w2) as [[[[]|err] w3] tr2]
        end; cbn [trace_of snd] in Hnext.
        -- destruct (run E (calendar_loop getDate left browser page (targetDate config)) w3)
             as [[o3 w4] tr3] eqn:Eloop.
           destruct (IH _ _ _ _ Eloop) as [Hle Hret].
           injection H as <- _ <-. cbn [app].
           rewrite lookups_app.
           rewrite Hone, lookup_next_month, lookups_app, Hnext.
           split; [lia|].
           intros exit Hx. destruct (Hret exit Hx) as [-> Heq]. split; [reflexivity | lia].
        -- injection H as <- _ <-. cbn [app].
           rewrite lookups_app.
           rewrite Hone, lookup_next_month, Hnext.
           split; [lia | discriminate].
    + injection H as <- _ <-. rewrite Hone. split; [lia | discriminate].
Qed.

Lemma lookups_close (browser : Browser) (x : Error + unit) :
  lookups [evt (Close browser) x] = 0.
Proof. reflexivity. Qed.

(** peeling a step that makes no lookup off the front of a program *)
Lemma bind_no_lookup A B (p : Prog A) (k : A -> Prog B)
    (w w' : state E) (o : Outcome B) (tr : list Evt) :
  Trace.avoids (Trace.is_date_lookup (targetDate config)) p ->
  run E (bind p k) w = (o, w', tr) ->
  (exists e, o = Raised e /\ lookups tr = 0) \/
  (exists a w1 tr1 tr2,
     run E (k a) w1 = (o, w', tr2) /\ tr = tr1 ++ tr2 /\ lookups tr1 = 0).
Proof.
  intros Hp H. rewrite run_bind in H.
  pose proof (avoids_run E Hp w) as H0. fold lookups in H0.
  destruct (run E p w) as [[[a|e] w1] tr1]; cbn [trace_of snd] in H0.
  - destruct (run E (k a) w1) as [[o2 w2] tr2] eqn:Ek.
    injection H as <- <- <-. right. exists a, w1, tr1, tr2. auto.
  - injection H as <- <- <-. left. exists e. auto.
Qed.

(** the attempt books only after it has found a booking button *)
Lemma availability_booked_needs_button (browser : Browser) (page : Page)
    (w w' : state E) (o : Outcome CheckResult) (tr : list Evt) :
  run E (availability_step config browser page) w = (o, w', tr) ->
  forall result, o = Returned result -> booked result = true ->
    existsb Trace.book_button_found tr = true.
Proof.
  intros H result -> Hbooked.
  unfold availability_step in H. rewrite run_bind in H.
  destruct (run E (body_text page) w) as [[[text|e] w1] tr1]; [|discriminate].
  destruct (first_match soldOutPatterns text).
  - rewrite run_bind, run_call in H. cbn iota beta in H.
    rewrite run_bind in H. unfold await in H. cbn [run] in H.
    destruct (handle E (Close browser) _) as [[e|[]] w2]; cbn in H.
    + discriminate.
    + injection H as <- _ _. discriminate.
  - rewrite run_bind in H. unfold await at 1 in H. cbn [run] in H.
    destruct (handle E (Query page sel_book) w1) as [[e|[bb|]] w2]; cbn [run] in H.
    + discriminate.
    + cbn iota beta in H.
      destruct (run E (book_step config browser page bb) w2) as [[o3 w3] tr3].
      injection H as _ _ <-. rewrite existsb_app. apply orb_true_iff. right.
      cbn [app existsb]. apply orb_true_iff. left. reflexivity.
    + cbn iota beta in H. rewrite run_bind, run_call in H. cbn iota beta in H.
      rewrite run_bind in H. unfold await in H. cbn [run] in H.
      destruct (handle E (Close browser) _) as [[e|[]] w3]; cbn in H.
      * discriminate.
      * injection H as <- _ _. discriminate.
Qed.

Lemma session_absent (browser : Browser) (page : Page)
    (w w' : state E) (o : Outcome CheckResult) (tr : list Evt) :
  run E (session getDate config browser page) w = (o, w', tr) ->
  lookups tr <= 12 /\
  forall result, o = Returned result ->
    lookups tr = 12 /\
    (booked result = true -> existsb Trace.book_button_found tr = true).
Proof.
  intros H. unfold session in H.
  apply bind_no_lookup in H; [|avoid].
  destruct H as [(e & -> & H0) | (a1 & w1 & tr1 & tr2 & H & -> & H1)];
    [split; [lia | discriminate]|].
  apply bind_no_lookup in H; [|avoid].
  destruct H as [(e & -> & H0) | (a2 & w2 & tr3 & tr4 & H & -> & H2)];
    [rewrite lookups_app; split; [lia | discriminate]|].
  apply bind_no_lookup in H; [|apply login_step_no_lookup].
  destruct H as [(e & -> & H0) | (a3 & w3 & tr5 & tr6 & H & -> & H3)];
    [rewrite !lookups_app; split; [lia | discriminate]|].
  apply bind_no_lookup in H; [|avoid].
  destruct H as [(e & -> & H0) | (a4 & w4 & tr7 & tr8 & H & -> & H4)];
    [rewrite !lookups_app; split; [lia | discriminate]|].
  rewrite run_bind in H.
  destruct (run E (calendar_loop getDate maxAttempts browser page (targetDate config)) w4)
    as [[oc wc] trc] eqn:Ec.
  destruct (calendar_loop_absent _ _ _ _ Ec) as [Hle Hret].
  unfold maxAttempts in *.
  destruct oc as [exit|e].
  - destruct (Hret exit eq_refl) as [-> Hfull].
    destruct (run E (availability_step config browser page) wc) as [[oa wa] tra] eqn:Ea.
    injection H as <- _ <-.
    pose proof (avoids_run E (availability_step_no_lookup browser page) wc) as Hav.
    rewrite Ea in Hav. cbn [trace_of snd] in Hav. fold lookups in Hav.
    rewrite !lookups_app. split; [lia|].
    intros result Hr. split; [lia|].
    intros Hb. rewrite !existsb_app.
    rewrite (availability_booked_needs_button _ _ _ Ea Hr Hb).
    rewrite !orb_true_r. reflexivity.
  - injection H as <- _ <-. rewrite !lookups_app. split; [lia | discriminate].
Qed.

(** C7 as the code has it.  The target date is on no calendar view (in
    any state of the world a lookup of the date cell finds nothing).  Any
    run of [checkAndBook] ends, by a return or by a throw, after at most
    twelve lookups of the date cell; when it returns, it has made exactly
    twelve.  The object it returns is then chosen from the page as it is
    after the loop, and it can have [booked: true]; this only happens
    after the lookup of line 226 has found a booking button. *)
Theorem absent_date_pagination_is_bounded
    (w w' : state E) (o : Outcome CheckResult) (tr : list Evt) :
  run E (checkAndBook getDate config) w = (o, w', tr) ->
  lookups tr <= 12 /\
  forall result, o = Returned result ->
    lookups tr = 12 /\
    (booked result = true -> existsb Trace.book_button_found tr = true).
Proof.
  intros H. unfold checkAndBook in H.
  apply bind_no_lookup in H; [|avoid].
  destruct H as [(e & -> & H0) | (a1 & w1 & tr1 & tr2 & H & -> & H1)];
    [split; [lia | discriminate]|].
  apply bind_no_lookup in H; [|apply launch_browser_no_lookup].
  destruct H as [(e & -> & H0) | (browser & w2 & tr3 & tr4 & H & -> & H2)];
    [rewrite lookups_app; split; [lia | discriminate]|].
  apply bind_no_lookup in H; [|avoid].
  destruct H as [(e & -> & H0) | (context & w3 & tr5 & tr6 & H & -> & H3)];
    [rewrite !lookups_app; split; [lia | discriminate]|].
  apply bind_no_lookup in H; [|avoid].
  destruct H as [(e & -> & H0) | (page & w4 & tr7 & tr8 & H & -> & H4)];
    [rewrite !lookups_app; split; [lia | discriminate]|].
  rewrite run_try_catch in H.
  destruct (run E (session getDate config browser page) w4) as [[os ws] trs] eqn:Es.
  destruct (session_absent _ _ _ Es) as [Hle Hret].
  destruct os as [result|e].
  - injection H as <- _ <-. rewrite !lookups_app. split; [lia|].
    intros result' Hr. destruct (Hret result' Hr) as [Hfull Hbook].
    split; [lia|]. intros Hb. rewrite !existsb_app, (Hbook Hb), !orb_true_r. reflexivity.
  - rewrite run_bind in H. unfold await in H. cbn [run] in H.
    destruct (handle E (Close browser) ws) as [[e'|[]] w5]; cbn in H;
      injection H as <- _ <-; rewrite !lookups_app, lookups_close;
      (split; [lia | discriminate]).
Qed.

End Calendar.

(** *** The browser is closed once the page exists *)

Lemma closes_unless_any A (p : Prog A) : Trace.closes_unless (fun _ => True) p.
Proof. induction p; constructor; auto. Qed.

Lemma closes_unless_bind A B (Q' : A -> Prop) (Q : B -> Prop)
    (p : Prog A) (k : A -> Prog B) :
  Trace.closes_unless Q' p ->
  (forall a, Q' a -> Trace.closes_unless Q (k a)) ->
  Trace.closes_unless Q (bind p k).
Proof.
  intros Hp Hk. induction Hp; cbn [bind]; [auto | constructor | constructor |].
  apply Trace.cu_do. assumption.
Qed.

Lemma closes_after A B (Q : B -> Prop) (p : Prog A) (k : A -> Prog B) :
  (forall a, Trace.closes_unless Q (k a)) -> Trace.closes_unless Q (bind p k).
Proof.
  intros Hk. apply closes_unless_bind with (Q' := fun _ => True);
    [apply closes_unless_any | auto].
Qed.

Lemma closes_unless_run (E : World) A (Q : A -> Prop) (p : Prog A) :
  Trace.closes_unless Q p ->
  forall w a, outcome_of (run E p w) = Returned a ->
    1 <= Trace.count Trace.is_close (trace_of (run E p w)) \/ Q a.
Proof.
  intros Hp. induction Hp as [a0 Ha|e|browser k|X op k Hk IH]; intros w a H; cbn [run] in *.
  - injection H as <-. right. assumption.
  - discriminate.
  - destruct (handle E (Close browser) w) as [x w1].
    destruct (run E (k x) w1) as [[o w2] tr]. left. unfold Trace.count. cbn. lia.
  - destruct (handle E op w) as [x w1]. specialize (IH x w1 a).
    destruct (run E (k x) w1) as [[o w2] tr]. cbn in *.
    destruct (IH H) as [Hc | Hq]; [left | right; assumption].
    unfold Trace.count in *. cbn [filter]. destruct (Trace.is_close _); cbn; lia.
Qed.

(** how a proof that a program closes the browser goes through the program *)
Ltac closing :=
  repeat first
    [ apply Trace.cu_close
    | apply Trace.cu_throw
    | apply closes_after
    | progress intros
    | match goal with
      | |- Trace.closes_unless _ (match ?x with _ => _ end) => destruct x
      | |- Trace.closes_unless _ (if ?x then _ else _) => destruct x
      end ].

Lemma confirm_step_closes config browser page :
  Trace.closes_unless (fun _ => False) (confirm_step config browser page).
Proof. unfold confirm_step. closing. Qed.

Lemma availability_step_closes config browser page :
  Trace.closes_unless (fun _ => False) (availability_step config browser page).
Proof.
  unfold availability_step. closing.
Qed.

Lemma calendar_loop_closes getDate browser page targetDate : forall left,
  Trace.closes_unless (fun exit => exit = FallThrough)
                      (calendar_loop getDate left browser page targetDate).
Proof.
  induction left as [|left IH]; cbn [calendar_loop].
  - constructor. reflexivity.
  - closing; try (constructor; reflexivity); assumption.
Qed.

Lemma session_closes getDate config browser page :
  Trace.closes_unless (fun _ => False) (session getDate config browser page).
Proof.
  unfold session. do 4 (apply closes_after; intros).
  eapply closes_unless_bind; [apply calendar_loop_closes|].
  intros exit ->. apply availability_step_closes.
Qed.

(** From line 122 on, every run of [checkAndBook] calls [browser.close()]
    before it returns or throws: what C2 asks for holds once the [try] block
    is entered. *)
Lemma try_block_closes_browser getDate (E : World) config browser page (w : state E) :
  1 <= Trace.count Trace.is_close
         (trace_of (run E (try_catch (session getDate config browser page)
                                     (fun err => await (Close browser) ;; Throw err))%prog
                         w)).
Proof.
  rewrite run_try_catch.
  pose proof (closes_unless_run E (session_closes getDate config browser page) w) as H.
  destruct (run E (session getDate config browser page) w) as [[[result|err] w1] tr].
  - destruct (H result eq_refl) as [Hc | []]. exact Hc.
  - rewrite run_bind. unfold await. cbn [run].
    destruct (handle E (Close browser) w1) as [[e|[]] w2];
      cbn [run trace_of snd app];
      rewrite count_app; unfold Trace.count at 2; cbn; lia.
Qed.

(** the site of [Scenario.bookable_page] shows the date on no view *)
Lemma bookable_page_has_no_date (text : string) (page : Page) (w : unit) (el : Elem) :
  outcome_of (run (Scenario.stateless (Scenario.bookable_page text))
                  (find_date Scenario.iso_day page (targetDate Scenario.config)) w)
    <> Returned (Some el).
Proof. destruct w. cbn. discriminate. Qed.

(** C7 as the code has it, on a site without the date. *)
Lemma absent_date_pagination_is_bounded_witness :
  let r := run (Scenario.stateless (Scenario.bookable_page "Your parking spot is reserved"))
               (checkAndBook Scenario.iso_day Scenario.config) tt in
  Trace.count (Trace.is_date_lookup "2026-02-01") (trace_of r) <= 12 /\
  forall result, outcome_of r = Returned result ->
    Trace.count (Trace.is_date_lookup "2026-02-01") (trace_of r) = 12 /\
    (booked result = true -> existsb Trace.book_button_found (trace_of r) = true).
Proof.
  intros r.
  exact (@absent_date_pagination_is_bounded Scenario.iso_day
           (Scenario.stateless (Scenario.bookable_page "Your parking spot is reserved"))
           Scenario.config
           (@bookable_page_has_no_date "Your parking spot is reserved")
           tt (state_of r) (outcome_of r) (trace_of r) (result_eta r)).
Defined.

(** C7 fails in its last part: on a site that shows the date on none of the
    twelve calendar views but has a booking button and a confirm button, the
    attempt makes its twelve lookups and returns
    [{ available: true, booked: true }]. *)
Lemma absent_date_can_still_book :
  let E := Scenario.stateless (Scenario.bookable_page "Your parking spot is reserved") in
  let r := run E (checkAndBook Scenario.iso_day Scenario.config) tt in
  (forall page el,
     outcome_of (run E (find_date Scenario.iso_day page "2026-02-01") tt)
       <> Returned (Some el)) /\
  Trace.count (Trace.is_date_lookup "2026-02-01") (trace_of r) = 12 /\
  outcome_of r = Returned (mkCheck true true None).
Proof.
  intros E r. split; [|split].
  - intros page el. apply (@bookable_page_has_no_date _ page tt el).
  - vm_compute. reflexivity.
  - vm_compute. reflexivity.
Qed.

End Attempt.

(** ** The main process *)

Module MainFacts.
Import JsString Parking Main.
Local Open Scope list_scope.

Lemma frame_refl s : frame s s.
Proof. repeat split. Qed.

Lemma frame_trans s1 s2 s3 : frame s1 s2 -> frame s2 s3 -> frame s1 s3.
Proof.
  unfold frame. intros (A & B & C & D) (A' & B' & C' & D'). repeat split; congruence.
Qed.

Lemma core_refl s : core s s.
Proof. repeat split. left. reflexivity. Qed.

Lemma core_trans s1 s2 s3 : core s1 s2 -> core s2 s3 -> core s1 s3.
Proof.
  unfold core. intros (A & B & C) (A' & B' & C'). repeat split; try congruence.
  destruct C' as [C'|C']; [|right; assumption].
  destruct C as [C|C]; [left|right]; congruence.
Qed.

Lemma frame_settled s s' : frame s s' -> settled s s'.
Proof.
  intros (A & B & C & D). split; [|assumption]. repeat split; try assumption.
  left. assumption.
Qed.

Lemma settled_trans s1 s2 s3 : settled s1 s2 -> settled s2 s3 -> settled s1 s3.
Proof.
  intros [C L] [C' L']. split; [eapply core_trans; eassumption | congruence].
Qed.

Lemma sendStatus_frame kind msg s :
  frame s (sendStatus kind msg s) /\ tasks (sendStatus kind msg s) = tasks s.
Proof. unfold sendStatus. destruct (window_open s); repeat split. Qed.

Lemma onStatus_frame date kind msg s :
  frame s (onStatus date kind msg s) /\ tasks (onStatus date kind msg s) = tasks s.
Proof.
  unfold onStatus. destruct (sendStatus_frame kind msg s) as [F T].
  destruct kind; split; assumption.
Qed.

Lemma sync_answer_frame date X (op : Op X) s x s' :
  sync_answer date op s = Some (x, s') -> frame s s' /\ tasks s' = tasks s.
Proof.
  destruct op; cbn; intros H; try discriminate; injection H as <- <-;
    try (repeat split; fail).
  apply onStatus_frame.
Qed.

Lemma advance_frame date A (p : Prog A) : forall s p' s',
  advance date p s = (p', s') -> frame s s' /\ tasks s' = tasks s.
Proof.
  induction p as [a|e|X op k IH]; intros s p' s' H; cbn in H.
  - injection H as <- <-. split; [apply frame_refl | reflexivity].
  - injection H as <- <-. split; [apply frame_refl | reflexivity].
  - destruct (sync_answer date op s) as [[x s1]|] eqn:Es.
    + destruct (sync_answer_frame _ _ _ Es) as [F1 T1].
      destruct (IH _ _ _ _ H) as [F2 T2].
      split; [eapply frame_trans; eassumption | congruence].
    + injection H as <- <-. split; [apply frame_refl | reflexivity].
Qed.

Lemma keep_settled t s :
  settled s (keep t s) /\ (forall t', In t' (tasks s) -> In t' (tasks (keep t s))).
Proof.
  split.
  - apply frame_settled. repeat split.
  - intros t' H. cbn. apply in_or_app. auto.
Qed.

Lemma with_controller_settled s s1 :
  frame s s1 -> tasks s1 = tasks s ->
  settled s (with_controller s1 None) /\
  (forall t', In t' (tasks s) -> In t' (tasks (with_controller s1 None))).
Proof.
  intros (A & N & C & L) T. split.
  - split; [|exact L]. split; [exact A|]. split; [exact N|]. right. reflexivity.
  - cbn. rewrite T. auto.
Qed.

Lemma finish_settled t s :
  settled s (finish t s) /\
  (forall t', In t' (tasks s) -> In t' (tasks (finish t s))).
Proof.
  unfold finish. destruct (parked t) as [[result|]|err|X op k].
  - apply with_controller_settled; destruct (monitor_booked result);
      try apply sendStatus_frame; try apply frame_refl; reflexivity.
  - apply keep_settled.
  - apply with_controller_settled;
      destruct (negb (String.eqb (name err) "AbortError")
                && negb (is_aborted s (task_signal t)));
      try apply sendStatus_frame; try apply frame_refl; reflexivity.
  - apply keep_settled.
Qed.

Lemma wake_settled t s :
  settled s (wake t s) /\
  (forall t', In t' (tasks s) -> In t' (tasks (wake t s))).
Proof.
  unfold wake. destruct (parked t) as [a|err|X op k]; try apply finish_settled.
  destruct op; try apply keep_settled.
  destruct (advance (task_date t) (k tt) s) as [p s1] eqn:Ea.
  destruct (advance_frame _ _ _ Ea) as [F1 T1].
  destruct (finish_settled (mkTask (task_signal t) (task_date t) p) s1) as [F2 T2].
  split; [eapply settled_trans; [apply frame_settled|]; eassumption|].
  intros t' H. apply T2. rewrite T1. assumption.
Qed.

Lemma attempting_not_sleeping listening signal t :
  attempting t = true -> sleeping_on listening signal t = false.
Proof.
  unfold attempting, sleeping_on. destruct (parked t) as [a|e|X op k]; try discriminate.
  destruct op; try discriminate; reflexivity.
Qed.

Lemma microtasks_settled listening stopped : forall old s,
  settled s (microtasks listening stopped old s) /\
  (forall t, In t (tasks s) -> In t (tasks (microtasks listening stopped old s))) /\
  (forall t, In t old -> attempting t = true ->
             In t (tasks (microtasks listening stopped old s))).
Proof.
  unfold microtasks.
  induction old as [|t old IH]; intros s; cbn [fold_left].
  - split; [apply frame_settled, frame_refl|]. split; [auto|]. intros t [].
  - set (s1 := match stopped with
               | Some signal =>
                   if sleeping_on listening signal t then wake t s else keep t s
               | None => keep t s
               end).
    assert (H1 : settled s s1 /\ (forall t', In t' (tasks s) -> In t' (tasks s1))).
    { subst s1. destruct stopped as [signal|].
      - destruct (sleeping_on listening signal t); [apply wake_settled|].
        apply keep_settled.
      - apply keep_settled. }
    destruct H1 as [F1 T1]. destruct (IH s1) as (F2 & T2 & A2).
    split; [eapply settled_trans; eassumption|].
    split; [auto|].
    intros t' [<- | Hin] Hat; [|auto].
    apply T2. subst s1. destruct stopped as [signal|].
    + rewrite (attempting_not_sleeping listening signal _ Hat).
      cbn. apply in_or_app. right. left. reflexivity.
    + cbn. apply in_or_app. right. left. reflexivity.
Qed.

(** *** Signals stay in the order of their creation *)

Lemma fresh_core s s' : core s s' -> fresh s -> fresh s'.
Proof.
  intros (A & N & C) [Fa Fc]. unfold fresh. rewrite A, N. split; [assumption|].
  intros c Hc. destruct C as [C|C]; [apply Fc; congruence | congruence].
Qed.

Lemma settle_core X (op : Op X) s x : core s (settle op s x).
Proof.
  destruct op; cbn; try apply core_refl; destruct x;
    (split; [reflexivity | split; [reflexivity | left; reflexivity]]).
Qed.

Lemma resume_task_core t answer s : core s (resume_task t answer s).
Proof.
  unfold resume_task. destruct (parked t) as [a|e|X op k]; try apply finish_settled.
  destruct (advance (task_date t) (k (answer X op)) (settle op s (answer X op)))
    as [p s2] eqn:Ea.
  eapply core_trans; [apply settle_core|].
  eapply core_trans; [apply frame_settled, (advance_frame _ _ _ Ea) | apply finish_settled].
Qed.

Lemma keep_all_core : forall rest s, core s (fold_left (fun acc t' => keep t' acc) rest s).
Proof.
  induction rest as [|t rest IH]; intros s; cbn [fold_left]; [apply core_refl|].
  eapply core_trans; [apply (keep_settled t s) | apply IH].
Qed.

Lemma resolve_at_core answer : forall old i s, core s (resolve_at i answer old s).
Proof.
  induction old as [|t rest IH]; intros i s; destruct i as [|i']; cbn [resolve_at];
    try apply core_refl.
  - eapply core_trans; [apply resume_task_core | apply keep_all_core].
  - eapply core_trans; [apply (keep_settled t s) | apply IH].
Qed.

Section Reachable.
Variable getDate : string -> option nat.
Variable resourcesPath : string.
Variable fuel : nat.

(** the state of the handler when it calls [startMonitor]: the earlier
    signal is aborted, a new one is registered *)
Lemma start_monitor_body_spec config s t s1 :
  start_monitor_body getDate resourcesPath fuel config s = (t, s1) ->
  aborted_signals s1 =
    match monitorAbortController s with
    | Some c => c :: aborted_signals s
    | None => aborted_signals s
    end /\
  next_signal s1 = S (next_signal s) /\
  monitorAbortController s1 = Some (next_signal s) /\
  live s1 = live s /\
  tasks s1 = tasks s.
Proof.
  unfold start_monitor_body.
  match goal with
  | |- context [advance ?d ?p ?x] => destruct (advance d p x) as [p' s4] eqn:Ea
  end.
  intros H. injection H as _ <-.
  destruct (advance_frame _ _ _ Ea) as [(A & N & C & L) T].
  match type of Ea with
  | context [sendStatus ?k ?m ?x] =>
      destruct (sendStatus_frame k m x) as [(A' & N' & C' & L') T']
  end.
  rewrite A, N, C, L, T, A', N', C', L', T'. cbn.
  destruct (monitorAbortController s); repeat split.
Qed.

Lemma fresh_step s e : fresh s -> fresh (step getDate resourcesPath fuel s e).
Proof.
  intros [Fa Fc]. destruct e as [config | | i answer]; cbn [step].
  - unfold start_monitor.
    destruct (start_monitor_body getDate resourcesPath fuel config s) as [t s1] eqn:Eb.
    destruct (start_monitor_body_spec _ _ Eb) as (A & N & C & _ & _).
    apply (@fresh_core (with_tasks s1 [])).
    + eapply core_trans; [apply microtasks_settled | apply finish_settled].
    + split; cbn [with_tasks aborted_signals next_signal monitorAbortController].
      * rewrite A, N. intros x Hx. destruct (monitorAbortController s) as [c|] eqn:Ec.
        -- destruct Hx as [<- | Hx]; [specialize (Fc _ eq_refl) | specialize (Fa _ Hx)]; lia.
        -- specialize (Fa _ Hx). lia.
      * rewrite C, N. intros c Hc. injection Hc as <-. lia.
  - unfold stop_monitor. destruct (monitorAbortController s) as [c|] eqn:Ec;
      [|split; [assumption | intros c' Hc'; congruence]].
    match goal with
    | |- fresh (microtasks ?l ?st ?old ?x) => apply (@fresh_core x)
    end.
    + apply microtasks_settled.
    + match goal with
      | |- context [sendStatus ?k ?m ?x] =>
          destruct (sendStatus_frame k m x) as [(A' & N' & C' & L') T']
      end.
      split; cbn [with_tasks aborted_signals next_signal monitorAbortController].
      * rewrite A', N'. cbn. intros x [<- | Hx]; [apply Fc; reflexivity | apply Fa; assumption].
      * intros c' Hc'. rewrite C' in Hc'. discriminate.
  - apply (@fresh_core (with_tasks s [])).
    + apply resolve_at_core.
    + split; assumption.
Qed.


Lemma fresh_boot : fresh boot.
Proof. split; [intros x [] | discriminate]. Qed.

End Reachable.









(** A ['start-monitor'] call that finds no controller aborts nothing.  The
    first run has its browser (1) open when a second call arrives; the
    context of the first run then fails, the first run ends and its
    callback clears the controller, which was the one of the second run.  A
    third call then leaves the second run (signal 1) as it is: after it the
    second and the third run are both inside an attempt, and neither signal
    is aborted. *)
Example later_start_aborts_nothing :
  let s := steps Scenario.iso_day "/res" 3 boot
             [StartMonitor Scenario.ipc_config; Resolve 0 (Scenario.launch_gives 1);
              StartMonitor Scenario.ipc_config; Resolve 0 Scenario.context_fails] in
  let s' := start_monitor Scenario.iso_day "/res" 3 Scenario.ipc_config s in
  monitorAbortController s = None /\
  map task_signal (tasks s) = [1] /\
  map task_signal (tasks s') = [1; 2] /\
  map attempting (tasks s') = [true; true] /\
  is_aborted s' 1 = false /\ is_aborted s' 2 = false.
Proof. vm_compute. repeat split. Qed.


End MainFacts.

(** ** What an attempt returns *)

Module AttemptFacts.
Import JsString Regex Parking RunFacts RegexFacts Observe.
Local Open Scope list_scope.

Lemma closed_last_any A (b : bool) (p : Prog A) : closed_last (fun _ _ => True) b p.
Proof. revert b. induction p; intros b; constructor; auto. Qed.

Lemma closed_last_bind A B (Q' : bool -> A -> Prop) (Q : bool -> B -> Prop)
    (b : bool) (p : Prog A) (k : A -> Prog B) :
  closed_last Q' b p ->
  (forall b' a, Q' b' a -> closed_last Q b' (k a)) ->
  closed_last Q b (bind p k).
Proof.
  intros Hp Hk. induction Hp; cbn [bind]; [auto | constructor |].
  apply cl_do. assumption.
Qed.

Lemma closed_last_after A B (Q : bool -> B -> Prop) (b : bool)
    (p : Prog A) (k : A -> Prog B) :
  (forall b' a, closed_last Q b' (k a)) -> closed_last Q b (bind p k).
Proof.
  intros Hk. apply closed_last_bind with (Q' := fun _ _ => True);
    [apply closed_last_any | auto].
Qed.

Lemma closed_last_try_catch A (Q : bool -> A -> Prop) (b : bool)
    (p : Prog A) (h : Error -> Prog A) :
  closed_last Q b p ->
  (forall b' e, closed_last Q b' (h e)) ->
  closed_last Q b (try_catch p h).
Proof.
  intros Hp Hh. induction Hp; cbn [try_catch]; [constructor; assumption | apply Hh |].
  apply cl_do. assumption.
Qed.

(** [await browser.close()] goes on only when the close has resolved *)
Lemma closed_last_close A (b : bool) (browser : Browser) (a : A) (Q : bool -> A -> Prop) :
  Q true a -> closed_last Q b (await (Close browser) ;; Ret a)%prog.
Proof.
  intros H. cbn. apply cl_do. intros [e|[]]; cbn; constructor. assumption.
Qed.

Lemma ends_closed_app b tr1 tr2 :
  ends_closed b (tr1 ++ tr2) = ends_closed (ends_closed b tr1) tr2.
Proof. unfold ends_closed. apply fold_left_app. Qed.

Lemma closed_last_run (E : World) A (Q : bool -> A -> Prop) (b : bool) (p : Prog A) :
  closed_last Q b p ->
  forall w w' a tr, run E p w = (Returned a, w', tr) -> Q (ends_closed b tr) a.
Proof.
  intros Hp. induction Hp as [b a0 Ha|b e|b X op k Hk IH]; intros w w' a tr H; cbn [run] in H.
  - injection H as <- _ <-. exact Ha.
  - discriminate.
  - destruct (handle E op w) as [x w1].
    destruct (run E (k x) w1) as [[o w2] tr2] eqn:Er.
    injection H as -> _ <-. exact (IH x _ _ _ _ Er).
Qed.

(** how a proof goes through a program that closes before it returns *)
Ltac closes :=
  repeat first
    [ apply closed_last_close; cbn; tauto
    | apply cl_throw
    | apply closed_last_after
    | progress intros
    | match goal with
      | |- closed_last _ _ (match ?x with _ => _ end) => destruct x
      | |- closed_last _ _ (if ?x then _ else _) => destruct x
      end ].

Lemma confirm_step_closed config browser page b :
  closed_last closed_result b (confirm_step config browser page).
Proof. unfold confirm_step, closed_result, is_result. closes. Qed.

Lemma availability_step_closed config browser page b :
  closed_last closed_result b (availability_step config browser page).
Proof.
  unfold availability_step, closed_result, is_result. closes.
Qed.

Lemma calendar_loop_closed getDate browser page targetDate : forall left b,
  closed_last closed_exit b (calendar_loop getDate left browser page targetDate).
Proof.
  induction left as [|left IH]; intros b; cbn [calendar_loop].
  - constructor. left. reflexivity.
  - apply closed_last_after. intros b1 [el|].
    + do 2 (apply closed_last_after; intros).
      match goal with
      | |- closed_last _ _ (if ?c then _ else _) => destruct c
      end.
      * apply closed_last_after. intros.
        apply closed_last_close. right. auto.
      * do 3 (apply closed_last_after; intros). constructor. left. reflexivity.
    + do 2 (apply closed_last_after; intros). apply IH.
Qed.

Lemma session_closed getDate config browser page b :
  closed_last closed_result b (session getDate config browser page).
Proof.
  unfold session. do 4 (apply closed_last_after; intros).
  eapply closed_last_bind; [apply calendar_loop_closed|].
  intros b1 exit [-> | [-> ->]].
  - apply availability_step_closed.
  - constructor. unfold closed_result, is_result. auto.
Qed.

Lemma checkAndBook_closed getDate config b :
  closed_last closed_result b (checkAndBook getDate config).
Proof.
  unfold checkAndBook. do 4 (apply closed_last_after; intros).
  apply closed_last_try_catch; [apply session_closed|].
  intros. apply closed_last_after. intros. apply cl_throw.
Qed.

Lemma ends_closed_last b tr :
  ends_closed b tr = true ->
  tr = [] /\ b = true \/
  exists before browser, tr = before ++ [evt (Close browser) (inr tt)].
Proof.
  destruct tr as [|e0 tr0] using rev_ind; [left; auto|].
  intros H. right. rewrite ends_closed_app in H. cbn in H.
  destruct e0 as [X op x]. cbn in H.
  destruct op; try discriminate. destruct x as [e|[]]; [discriminate|].
  exists tr0, browser. reflexivity.
Qed.

(** X1.  Whenever [checkAndBook] returns an object, in any world, the last
    operation it has performed is a [browser.close()] that resolved: an
    attempt never hands a result to the loop while its browser is open. *)
Theorem returned_attempt_has_closed_browser
    (getDate : string -> option nat) (E : World) (config : MonitorConfig)
    (w w' : state E) (result : CheckResult) (tr : list Evt) :
  run E (checkAndBook getDate config) w = (Returned result, w', tr) ->
  exists before browser, tr = before ++ [evt (Close browser) (inr tt)].
Proof.
  intros H.
  destruct (closed_last_run E (checkAndBook_closed getDate config false) _ H) as [Hc _].
  destruct (ends_closed_last _ _ Hc) as [[_ Hb] | Hex]; [discriminate | exact Hex].
Qed.

(** X1, on a site where the booking goes through. *)
Lemma returned_attempt_has_closed_browser_witness :
  let r := run (Scenario.stateless (Scenario.bookable_page "Your parking spot is reserved"))
               (checkAndBook Scenario.iso_day Scenario.config) tt in
  outcome_of r = Returned booking_done /\
  exists before browser, trace_of r = before ++ [evt (Close browser) (inr tt)].
Proof.
  intros r. split; [vm_compute; reflexivity|].
  exact (@returned_attempt_has_closed_browser Scenario.iso_day
           (Scenario.stateless (Scenario.bookable_page "Your parking spot is reserved"))
           Scenario.config tt (state_of r) booking_done (trace_of r) (result_eta r)).
Defined.

(** X2.  Whenever [checkAndBook] returns, in any world, the object is one of
    four: [{available: false, booked: false, status: 'sold_out'}],
    [{available: false, booked: false, status: 'not_found'}],
    [{available: true, booked: true}] and [{available: true, booked: false}].
    So [booked] is never true without [available]. *)
Theorem attempt_result_is_one_of_four
    (getDate : string -> option nat) (E : World) (config : MonitorConfig)
    (w w' : state E) (result : CheckResult) (tr : list Evt) :
  run E (checkAndBook getDate config) w = (Returned result, w', tr) ->
  is_result result /\ (booked result = true -> check_available result = true).
Proof.
  intros H.
  destruct (closed_last_run E (checkAndBook_closed getDate config false) _ H) as [_ Hr].
  split; [exact Hr|].
  destruct Hr as [-> | [-> | [-> | ->]]]; cbn; intros; congruence.
Qed.

(** X2, on a quiet site. *)
Lemma attempt_result_is_one_of_four_witness :
  let r := run Scenario.quiet_site (checkAndBook Scenario.iso_day Scenario.config) tt in
  outcome_of r = Returned not_found /\
  is_result not_found /\ (booked not_found = true -> check_available not_found = true).
Proof.
  intros r. split; [vm_compute; reflexivity|].
  exact (@attempt_result_is_one_of_four Scenario.iso_day Scenario.quiet_site
           Scenario.config tt (state_of r) not_found (trace_of r) (result_eta r)).
Defined.

(** *** What a booked result stands for *)

Lemma bind_returned (E : World) A B (p : Prog A) (k : A -> Prog B)
    (w w' : state E) (b : B) (tr : list Evt) :
  run E (bind p k) w = (Returned b, w', tr) ->
  exists a w1 tr1 tr2,
    run E p w = (Returned a, w1, tr1) /\
    run E (k a) w1 = (Returned b, w', tr2) /\
    tr = tr1 ++ tr2.
Proof.
  intros H. rewrite run_bind in H.
  destruct (run E p w) as [[[a|e] w1] tr1]; [|discriminate].
  destruct (run E (k a) w1) as [[o w2] tr2] eqn:Ek.
  injection H as -> <- <-. exists a, w1, tr1, tr2. auto.
Qed.

Lemma existsb_right (f : Evt -> bool) (a b : list Evt) :
  existsb f b = true -> existsb f (a ++ b) = true.
Proof. intros H. rewrite existsb_app, H. apply orb_true_r. Qed.

Lemma await_returned (E : World) X (op : Op (Error + X))
    (w w' : state E) (x : X) (tr : list Evt) :
  run E (await op) w = (Returned x, w', tr) ->
  handle E op w = (inr x, w') /\ tr = [evt op (inr x)].
Proof.
  unfold await. cbn [run]. destruct (handle E op w) as [[e|x'] w1]; cbn; intros H.
  - discriminate.
  - injection H as <- <- <-. auto.
Qed.

(** the five last operations of an attempt that books: lines 250-258 *)
Lemma confirm_step_booked (E : World) config browser page
    (w w' : state E) (result : CheckResult) (tr : list Evt) :
  run E (confirm_step config browser page) w = (Returned result, w', tr) ->
  booked result = true ->
  exists el text,
    tr = confirmation page el text browser /\ test successPattern text = true.
Proof.
  intros H Hb. unfold confirm_step in H.
  apply bind_returned in H. destruct H as (confirmButton & w1 & tr1 & tr2 & Hq & H & ->).
  apply await_returned in Hq. destruct Hq as [_ ->].
  apply bind_returned in H. destruct H as (confirmed & w2 & tr3 & tr4 & Hc & H & ->).
  destruct confirmed.
  - destruct confirmButton as [cb|]; [|cbn in Hc; discriminate].
    apply bind_returned in Hc. destruct Hc as ([] & w3 & tr5 & tr6 & Hclick & Hc & ->).
    apply await_returned in Hclick. destruct Hclick as [_ ->].
    apply bind_returned in Hc. destruct Hc as ([] & w4 & tr7 & tr8 & Hwait & Hc & ->).
    apply await_returned in Hwait. destruct Hwait as [_ ->].
    apply bind_returned in Hc. destruct Hc as (text & w5 & tr9 & tr10 & Htext & Hc & ->).
    cbn in Hc. injection Hc as Htest _ <-.
    unfold body_text in Htext. rewrite run_try_catch in Htext.
    unfold await in Htext. cbn [run] in Htext.
    destruct (handle E (PageInnerText page "body") w4) as [[e|text'] w5']; cbn in Htext;
      injection Htext as <- _ <-; [cbn in Htest; discriminate|].
    apply bind_returned in H. destruct H as ([] & w6 & tr11 & tr12 & Hclose & H & ->).
    apply await_returned in Hclose. destruct Hclose as [_ ->].
    cbn in H. injection H as _ _ <-.
    exists cb, text'. split; [reflexivity | assumption].
  - exfalso. apply bind_returned in H.
    destruct H as ([] & w3 & tr5 & tr6 & _ & H & _).
    apply bind_returned in H. destruct H as ([] & w4 & tr7 & tr8 & _ & H & _).
    cbn in H. injection H as <- _ _. discriminate.
Qed.

(** peel a step off the front of a run that returns *)
Ltac peel H :=
  let a := fresh "a" in let w := fresh "w" in
  let tr1 := fresh "tr" in let tr2 := fresh "tr" in
  apply bind_returned in H; destruct H as (a & w & tr1 & tr2 & _ & H & ->).

Lemma book_step_booked (E : World) config browser page bookButton
    (w w' : state E) (result : CheckResult) (tr : list Evt) :
  run E (book_step config browser page bookButton) w = (Returned result, w', tr) ->
  booked result = true ->
  exists before el text,
    tr = before ++ confirmation page el text browser /\ test successPattern text = true.
Proof.
  intros H Hb. unfold book_step in H. do 7 peel H.
  destruct (confirm_step_booked _ _ _ _ _ H Hb) as (el & text & -> & Ht).
  eexists _, el, text. split; [|exact Ht].
  rewrite !app_assoc. reflexivity.
Qed.

Lemma booked_trace_after (a tr : list Evt) : booked_trace tr -> booked_trace (a ++ tr).
Proof.
  intros (before & page & el & text & browser & -> & Ht & Hb).
  exists (a ++ before), page, el, text, browser.
  split; [apply app_assoc|]. split; [exact Ht|]. apply existsb_right, Hb.
Qed.

Lemma availability_step_booked (E : World) config browser page
    (w w' : state E) (result : CheckResult) (tr : list Evt) :
  run E (availability_step config browser page) w = (Returned result, w', tr) ->
  booked result = true -> booked_trace tr.
Proof.
  intros H Hb. unfold availability_step in H. peel H.
  destruct (first_match soldOutPatterns a).
  - exfalso. do 2 peel H. cbn in H. injection H as <- _ _. discriminate.
  - apply bind_returned in H.
    destruct H as (bookButton & wq & trq & trb & Hq & H & ->).
    apply await_returned in Hq. destruct Hq as [_ ->].
    destruct bookButton as [bb|].
    + apply book_step_booked in H; [|exact Hb].
      destruct H as (before & el & text & -> & Ht).
      apply booked_trace_after.
      exists ([evt (Query page sel_book) (inr (Some bb))] ++ before),
        page, el, text, browser.
      split; [apply app_assoc|]. split; [exact Ht|]. reflexivity.
    + exfalso. do 2 peel H. cbn in H. injection H as <- _ _. discriminate.
Qed.

Lemma session_booked getDate (E : World) config browser page
    (w w' : state E) (result : CheckResult) (tr : list Evt) :
  run E (session getDate config browser page) w = (Returned result, w', tr) ->
  booked result = true -> booked_trace tr.
Proof.
  intros H Hb. unfold session in H. do 4 peel H.
  apply bind_returned in H. destruct H as (exit & wl & trl & tra & Hloop & H & ->).
  repeat apply booked_trace_after.
  destruct (closed_last_run E (calendar_loop_closed getDate browser page
              (targetDate config) maxAttempts false) _ Hloop) as [-> | [_ ->]].
  - apply availability_step_booked in H; assumption.
  - exfalso. cbn in H. injection H as <- _ _. discriminate.
Qed.

(** X3.  When [checkAndBook] returns an object with [booked] true, in any
    world, its run found a booking button (line 226) and ended with these
    five operations, all of which resolved: the lookup of a confirm button
    that found one, the click on it, the wait of three seconds, the reading
    of the page text, which has a success phrase, and [browser.close()]. *)
Theorem booked_attempt_went_through_confirmation
    (getDate : string -> option nat) (E : World) (config : MonitorConfig)
    (w w' : state E) (result : CheckResult) (tr : list Evt) :
  run E (checkAndBook getDate config) w = (Returned result, w', tr) ->
  booked result = true ->
  booked_trace tr.
Proof.
  intros H Hb. unfold checkAndBook in H.
  peel H.
  apply bind_returned in H. destruct H as (browser & wb & trb & trb' & _ & H & ->).
  apply bind_returned in H. destruct H as (context & wc & trc & trc' & _ & H & ->).
  apply bind_returned in H. destruct H as (page & w3 & trp & trp' & _ & H & ->).
  repeat apply booked_trace_after.
  rewrite run_try_catch in H.
  destruct (run E (session getDate config browser page) w3) as [[[r|e] w4] tr7] eqn:Es.
  - injection H as -> _ <-. apply session_booked in Es; assumption.
  - exfalso. rewrite run_bind in H.
    destruct (run E (await (Close browser)) w4) as [[[[]|e'] w5] tr8]; cbn in H; discriminate.
Qed.

(** X3, on a site where the booking goes through. *)
Lemma booked_attempt_went_through_confirmation_witness :
  let r := run (Scenario.stateless (Scenario.bookable_page "Your parking spot is reserved"))
               (checkAndBook Scenario.iso_day Scenario.config) tt in
  outcome_of r = Returned booking_done /\ booked_trace (trace_of r).
Proof.
  intros r. split; [vm_compute; reflexivity|].
  exact (@booked_attempt_went_through_confirmation Scenario.iso_day
           (Scenario.stateless (Scenario.bookable_page "Your parking spot is reserved"))
           Scenario.config tt (state_of r) booking_done (trace_of r)
           (result_eta r) eq_refl).
Defined.

End AttemptFacts.

(** ** A whole run of the monitor *)

Module LoopFacts.
Import JsString Regex Parking RunFacts Observe.
Local Open Scope list_scope.

Section Tracks.
Variables (S : Type) (step : S -> Evt -> S).

Lemma tracks_any A (s : S) (p : Prog A) :
  tracks step (fun _ _ => True) (fun _ _ => True) s p.
Proof. revert s. induction p; intros s; constructor; auto. Qed.

Lemma tracks_bind A B (Q' : S -> A -> Prop) (Q : S -> B -> Prop)
    (R : S -> Error -> Prop) (s : S) (p : Prog A) (k : A -> Prog B) :
  tracks step Q' R s p ->
  (forall s' a, Q' s' a -> tracks step Q R s' (k a)) ->
  tracks step Q R s (bind p k).
Proof.
  intros Hp Hk. induction Hp; cbn [bind]; [auto | constructor; assumption |].
  apply tk_do. assumption.
Qed.

Lemma tracks_try_catch A (Q : S -> A -> Prop) (R' R : S -> Error -> Prop)
    (s : S) (p : Prog A) (h : Error -> Prog A) :
  tracks step Q R' s p ->
  (forall s' e, R' s' e -> tracks step Q R s' (h e)) ->
  tracks step Q R s (try_catch p h).
Proof.
  intros Hp Hh. induction Hp; cbn [try_catch]; [constructor; assumption | auto |].
  apply tk_do. assumption.
Qed.

Lemma tracks_weaken A (Q Q' : S -> A -> Prop) (R R' : S -> Error -> Prop)
    (s : S) (p : Prog A) :
  tracks step Q R s p ->
  (forall s' a, Q s' a -> Q' s' a) ->
  (forall s' e, R s' e -> R' s' e) ->
  tracks step Q' R' s p.
Proof. intros Hp HQ HR. induction Hp; constructor; auto. Qed.

Lemma tracks_run (E : World) A (Q : S -> A -> Prop) (R : S -> Error -> Prop)
    (s : S) (p : Prog A) :
  tracks step Q R s p ->
  forall w,
    match run E p w with
    | (Returned a, _, tr) => Q (fold_left step tr s) a
    | (Raised e, _, tr) => R (fold_left step tr s) e
    end.
Proof.
  intros Hp. induction Hp as [s a Ha|s e He|s X op k Hk IH]; intros w; cbn [run].
  - exact Ha.
  - exact He.
  - destruct (handle E op w) as [x w1]. specialize (IH x w1).
    destruct (run E (k x) w1) as [[[a|e] w2] tr]; exact IH.
Qed.

End Tracks.

(** the sleep never throws *)
Lemma waitWithAbort_tracks S (step : S -> Evt -> S) (R : S -> Error -> Prop) ms signal s :
  tracks step (fun _ _ => True) R s (waitWithAbort ms signal).
Proof.
  unfold waitWithAbort, call. cbn. constructor. intros [|].
  - constructor. exact I.
  - do 3 (constructor; intros). constructor. exact I.
Qed.

Lemma monitor_turn_tracks getDate config signal l :
  tracks latest (turn_status config) (fun _ _ => False) l
    (monitor_turn getDate config signal).
Proof.
  unfold monitor_turn.
  apply tracks_try_catch with (R' := fun _ _ => True).
  - eapply tracks_bind; [apply tracks_any|]. intros l1 result _.
    destruct (booked result); cbn [bind call].
    + constructor. intros []. constructor. split; reflexivity.
    + constructor. intros [|]; [constructor; exact I|].
      cbn [bind call]. constructor. intros [].
      eapply tracks_bind; [apply waitWithAbort_tracks|].
      intros. constructor. exact I.
  - intros l1 err _. cbn [bind call]. constructor. intros [|]; [constructor; exact I|].
    cbn [bind call]. constructor. intros [].
    eapply tracks_bind; [apply waitWithAbort_tracks|].
    intros. constructor. exact I.
Qed.

Lemma monitor_loop_tracks getDate config signal : forall fuel l,
  tracks latest (loop_status config) (fun _ _ => False) l
    (monitor_loop getDate fuel config signal).
Proof.
  induction fuel as [|fuel IH]; intros l; cbn [monitor_loop].
  - constructor. exact I.
  - cbn [bind call]. constructor. intros [|].
    + unfold monitor_stopped, call. cbn [bind]. constructor. intros [].
      constructor. reflexivity.
    + eapply tracks_bind; [apply monitor_turn_tracks|].
      intros l1 [result| |] Ht.
      * destruct Ht as [-> ->]. constructor. reflexivity.
      * unfold monitor_stopped, call. cbn [bind]. constructor. intros [].
        constructor. reflexivity.
      * apply IH.
Qed.

(** X4.  [startMonitor] never throws, in any world: an error thrown by an
    attempt is caught by the loop (the status callback is a synchronous
    call that does not throw).  When the call has returned an object, the
    last operation it performed tells which: [{ booked: true }] comes right
    after the ['success'] event, [{ booked: false }] right after the
    'Monitor stopped' event or, when a required field is missing, right
    after the ['error'] event that names it.  ([None]: the loop is still
    running after [fuel] turns.) *)
Theorem monitor_never_throws
    (getDate : string -> option nat) (E : World) (config : MonitorConfig)
    (signal : Signal) (fuel : nat) (w : state E) :
  exists r w' tr,
    run E (startMonitor getDate fuel config signal) w = (Returned r, w', tr) /\
    forall result, r = Some result -> final_status config (last_op tr) result.
Proof.
  assert (T : tracks latest
                (fun l r => forall result, r = Some result -> final_status config l result)
                (fun _ _ => False) None
                (startMonitor getDate fuel config signal)).
  { unfold startMonitor, final_status.
    destruct (first_missing (required config)) as [key|] eqn:Ek.
    - cbn [bind call]. constructor. intros []. constructor.
      intros result [= <-]. cbn. right. exists key. auto.
    - cbn [bind call]. constructor. intros [].
      eapply tracks_weaken; [apply monitor_loop_tracks | | auto].
      intros l r Hl result ->. cbn in Hl.
      destruct (monitor_booked result); auto. }
  pose proof (tracks_run E T w) as H.
  destruct (run E (startMonitor getDate fuel config signal) w) as [[[r|e] w'] tr].
  - exists r, w', tr. split; [reflexivity | exact H].
  - destruct H.
Qed.

End LoopFacts.

(** ** What an attempt never does, and how often it does the rest *)

Module Bounds.
Import JsString Regex Parking RunFacts Observe Attempt LoopFacts.
Local Open Scope list_scope.

Lemma avoids_mono (f g : Evt -> bool) A (p : Prog A) :
  (forall e, f e = true -> g e = true) -> Trace.avoids g p -> Trace.avoids f p.
Proof.
  intros Hfg Hp. induction Hp as [a|e|X op k Hop Hk IH]; constructor; auto.
  intros x. specialize (Hop x). destruct (f (evt op x)) eqn:Ef; [|reflexivity].
  rewrite (Hfg _ Ef) in Hop. discriminate.
Qed.

Lemma find_exact_day_foreign targetDay els :
  Trace.avoids foreign (find_exact_day targetDay els).
Proof.
  induction els as [|el rest IH]; cbn [find_exact_day]; [constructor|].
  apply avoids_bind; [apply avoids_await; intros; reflexivity|].
  intros text. destruct (String.eqb _ _); [constructor | assumption].
Qed.

Lemma find_date_foreign getDate page targetDate :
  Trace.avoids foreign (find_date getDate page targetDate).
Proof.
  unfold find_date. apply avoids_bind; [apply avoids_await; intros; reflexivity|].
  intros [el|]; [constructor|].
  apply avoids_bind; [apply avoids_await; intros; reflexivity|].
  intros. apply find_exact_day_foreign.
Qed.

Lemma calendar_loop_foreign getDate browser page targetDate : forall left,
  Trace.avoids foreign (calendar_loop getDate left browser page targetDate).
Proof.
  induction left as [|left IH]; cbn [calendar_loop]; [constructor|].
  apply avoids_bind; [apply find_date_foreign|].
  intros [el|]; [avoid|].
  apply avoids_bind; [avoid|]. intros. apply avoids_bind; [avoid | intros; apply IH].
Qed.

Lemma availability_step_foreign config browser page :
  Trace.avoids foreign (availability_step config browser page).
Proof. unfold availability_step, book_step, confirm_step, body_text. avoid. Qed.

Lemma session_foreign getDate config browser page :
  Trace.avoids foreign (session getDate config browser page).
Proof.
  unfold session, login_step.
  do 4 (apply avoids_bind; [avoid | intros]).
  apply avoids_bind; [apply calendar_loop_foreign|].
  intros [result|]; [constructor | apply availability_step_foreign].
Qed.

Lemma checkAndBook_loop_op getDate config :
  Trace.avoids loop_op (checkAndBook getDate config).
Proof.
  unfold checkAndBook, launch_browser.
  do 4 (apply avoids_bind; [avoid | intros]).
  apply avoids_try_catch; [|avoid].
  apply avoids_mono with (g := foreign); [|apply session_foreign].
  intros e He. unfold foreign. rewrite He. reflexivity.
Qed.

(** X5.  In no world does an attempt ([checkAndBook]) read the abort
    signal, set a timer, add an abort listener or wait for one, and it
    emits no status event of kind ['success'], ['monitoring'] or ['idle']:
    a request to stop is not seen while an attempt is in flight. *)
Theorem attempt_never_reads_abort_signal
    (getDate : string -> option nat) (E : World) (config : MonitorConfig)
    (w : state E) :
  Trace.count loop_op (trace_of (run E (checkAndBook getDate config) w)) = 0.
Proof. apply avoids_run, checkAndBook_loop_op. Qed.

Section Summaries.
Variables (S : Type) (step : S -> Evt -> S) (f : Evt -> bool).
Hypothesis skip : forall s e, f e = false -> step s e = s.

(** a program that avoids [f] leaves the summary as it is *)
Lemma tracks_stay A (Q : S -> A -> Prop) (R : S -> Error -> Prop) (s : S) (p : Prog A) :
  Trace.avoids f p -> (forall a, Q s a) -> (forall e, R s e) -> tracks step Q R s p.
Proof.
  intros Hp HQ HR. induction Hp as [a|e|X op k Hop Hk IH]; constructor; auto.
  intros x. rewrite skip by apply Hop. apply IH.
Qed.

Lemma tracks_skip A B (Q : S -> B -> Prop) (R : S -> Error -> Prop) (s : S)
    (p : Prog A) (k : A -> Prog B) :
  Trace.avoids f p -> (forall e, R s e) ->
  (forall a, tracks step Q R s (k a)) ->
  tracks step Q R s (bind p k).
Proof.
  intros Hp HR Hk.
  apply tracks_bind with (Q' := fun s' _ => s' = s).
  - apply tracks_weaken with (Q := fun s' _ => s' = s) (R := fun s' _ => s' = s).
    + apply tracks_stay; auto.
    + auto.
    + intros s' e ->. apply HR.
  - intros s' a ->. apply Hk.
Qed.

End Summaries.

Lemma counting_skip (f : Evt -> bool) n e : f e = false -> counting f n e = n.
Proof. unfold counting. intros ->. reflexivity. Qed.

Lemma keeping_skip (f : Evt -> bool) l e : f e = false -> keeping f l e = l.
Proof. unfold keeping. intros ->. reflexivity. Qed.

Lemma fold_counting (f : Evt -> bool) (tr : list Evt) : forall n,
  fold_left (counting f) tr n = n + Trace.count f tr.
Proof.
  unfold Trace.count. induction tr as [|e tr IH]; intros n; cbn [fold_left filter].
  - cbn. lia.
  - rewrite IH. unfold counting. destruct (f e); cbn [length]; lia.
Qed.

Lemma fold_keeping (f : Evt -> bool) (tr : list Evt) : forall l,
  fold_left (keeping f) tr l = l ++ filter f tr.
Proof.
  induction tr as [|e tr IH]; intros l; cbn [fold_left filter].
  - rewrite app_nil_r. reflexivity.
  - rewrite IH. unfold keeping. destruct (f e); [rewrite <- app_assoc|]; reflexivity.
Qed.

(** *** Lookups of the date cell *)

Section DateLookups.
Variable getDate : string -> option nat.
Variable config : MonitorConfig.

Let f := Trace.is_date_lookup (targetDate config).

Lemma find_date_counts page n :
  tracks (counting f) (fun m _ => m = S n) (fun m _ => m = S n) n
    (find_date getDate page (targetDate config)).
Proof.
  unfold find_date. unfold await at 1. cbn [bind]. constructor. intros x.
  replace (counting f n _) with (S n)
    by (unfold counting, f, Trace.is_date_lookup; cbn; rewrite String.eqb_refl; reflexivity).
  destruct x as [e|[el|]]; cbn [bind]; try (constructor; reflexivity).
  apply tracks_stay with (f := f); [apply counting_skip | | auto | auto].
  apply avoids_bind; [apply avoids_await; intros; reflexivity|].
  intros. apply find_exact_day_no_lookup.
Qed.

Lemma calendar_loop_counts browser page : forall left n,
  tracks (counting f) (fun m _ => m <= n + left) (fun m _ => m <= n + left) n
    (calendar_loop getDate left browser page (targetDate config)).
Proof.
  induction left as [|left IH]; intros n; cbn [calendar_loop].
  - constructor. lia.
  - apply tracks_bind with (Q' := fun m _ => m = S n).
    + eapply tracks_weaken; [apply find_date_counts | auto | intros; cbv beta in *; lia].
    + intros m [el|] ->.
      * apply tracks_stay with (f := f); [apply counting_skip | avoid | intros; cbv beta in *; lia..].
      * apply tracks_skip with (f := f);
          [apply counting_skip | avoid | intros; cbv beta in *; lia | intros nextButton].
        apply tracks_skip with (f := f);
          [apply counting_skip | apply next_month_no_lookup | intros; cbv beta in *; lia | intros _].
        eapply tracks_weaken; [apply IH | intros; cbv beta in *; lia..].
Qed.

Lemma checkAndBook_counts :
  tracks (counting f) (fun m _ => m <= 12) (fun m _ => m <= 12) 0
    (checkAndBook getDate config).
Proof.
  unfold checkAndBook.
  apply tracks_skip with (f := f); [apply counting_skip | avoid | intros; cbv beta in *; lia | intros _].
  apply tracks_skip with (f := f);
    [apply counting_skip | apply launch_browser_no_lookup | intros; cbv beta in *; lia | intros browser].
  apply tracks_skip with (f := f); [apply counting_skip | avoid | intros; cbv beta in *; lia | intros context].
  apply tracks_skip with (f := f); [apply counting_skip | avoid | intros; cbv beta in *; lia | intros page].
  apply tracks_try_catch with (R' := fun m _ => m <= 12).
  - unfold session.
    apply tracks_skip with (f := f); [apply counting_skip | avoid | intros; cbv beta in *; lia | intros _].
    apply tracks_skip with (f := f); [apply counting_skip | avoid | intros; cbv beta in *; lia | intros _].
    apply tracks_skip with (f := f);
      [apply counting_skip | apply login_step_no_lookup | intros; cbv beta in *; lia | intros _].
    apply tracks_skip with (f := f); [apply counting_skip | avoid | intros; cbv beta in *; lia | intros _].
    eapply tracks_bind; [apply (calendar_loop_counts browser page maxAttempts 0)|].
    intros m [result|] Hm; [constructor; exact Hm|].
    apply tracks_stay with (f := f);
      [apply counting_skip | apply availability_step_no_lookup | auto..].
  - intros m e Hm. apply tracks_stay with (f := f); [apply counting_skip | avoid | auto..].
Qed.

End DateLookups.

(** X6.  In every world, an attempt looks the date cell up (line 161) at
    most 12 times, whatever the calendar shows and however the attempt
    ends. *)
Theorem attempt_looks_date_up_at_most_12_times
    (getDate : string -> option nat) (E : World) (config : MonitorConfig)
    (w : state E) :
  Trace.count (Trace.is_date_lookup (targetDate config))
    (trace_of (run E (checkAndBook getDate config) w)) <= 12.
Proof.
  pose proof (tracks_run E (checkAndBook_counts getDate config) w) as H.
  destruct (run E (checkAndBook getDate config) w) as [[[r|e] w'] tr];
    rewrite fold_counting in H; exact H.
Qed.

(** *** Launches *)

Lemma after_launch_no_launch getDate config browser :
  Trace.avoids Trace.is_launch
    (context <- await (NewContext browser) ;;
     page <- await (NewPage context) ;;
     try_catch (session getDate config browser page)
       (fun err => await (Close browser) ;; Throw err))%prog.
Proof.
  do 2 (apply avoids_bind; [avoid | intros]).
  apply avoids_try_catch; [|avoid].
  apply avoids_mono with (g := foreign); [|apply session_foreign].
  intros [X op x]. destruct op; cbn; intros H; try discriminate; reflexivity.
Qed.

Lemma checkAndBook_launches getDate config :
  tracks (keeping Trace.is_launch)
    (fun l _ => launch_shape config l) (fun l _ => launch_shape config l) []
    (checkAndBook getDate config).
Proof.
  unfold checkAndBook, launch_browser. fold (executablePath config).
  cbn [bind call await try_catch]. constructor. intros [].
  rewrite keeping_skip by reflexivity.
  constructor. intros [e|browser]; cbn [bind try_catch keeping Trace.is_launch evt_op app].
  - destruct (truthy_opt (chromiumPath config)) eqn:Ec.
    + cbn [bind call await try_catch]. constructor. intros [].
      rewrite keeping_skip by reflexivity.
      constructor. intros x. cbn [keeping Trace.is_launch evt_op app].
      assert (Hs : launch_shape config
                [evt (Launch (executablePath config)) (inl e); evt (Launch None) x]).
      { right. right. split; [exact Ec|]. exists e, x.
        unfold executablePath. rewrite Ec. reflexivity. }
      destruct x as [e'|browser]; cbn [bind try_catch].
      * constructor. exact Hs.
      * apply tracks_stay with (f := Trace.is_launch);
          [apply keeping_skip | apply after_launch_no_launch | auto..].
    + constructor. right. left. split; [exact Ec|]. exists e.
      unfold executablePath. rewrite Ec. reflexivity.
  - apply tracks_stay with (f := Trace.is_launch);
      [apply keeping_skip | apply after_launch_no_launch | |];
      intros; left; exists browser; reflexivity.
Qed.

(** X7.  The calls of [chromium.launch] of one attempt, in any world, are
    one call that gave a browser (with the bundled path when one is
    configured); or, when no bundled path is configured, one call that
    failed; or, when one is configured, a failed call with the bundled path
    followed by exactly one call without a path (the system browser).  So
    an attempt launches at most two browsers, and never a second one after
    a launch that worked. *)
Theorem attempt_launches_once_or_falls_back
    (getDate : string -> option nat) (E : World) (config : MonitorConfig)
    (w : state E) :
  launch_shape config
    (filter Trace.is_launch (trace_of (run E (checkAndBook getDate config) w))).
Proof.
  pose proof (tracks_run E (checkAndBook_launches getDate config) w) as H.
  destruct (run E (checkAndBook getDate config) w) as [[[r|e] w'] tr];
    rewrite fold_keeping in H; exact H.
Qed.

(** *** The success event *)

Lemma loop_op_success e : is_success_status e = true -> loop_op e = true.
Proof.
  destruct e as [X op x]. destruct op; cbn; try discriminate.
  destruct kind; cbn; intros; try discriminate; reflexivity.
Qed.

Lemma waitWithAbort_successes ms signal n (R : nat -> Error -> Prop) :
  tracks (counting is_success_status) (fun m _ => m = n) R n (waitWithAbort ms signal).
Proof.
  unfold waitWithAbort, call. cbn [bind]. constructor.
  intros [|]; rewrite counting_skip by reflexivity.
  - constructor. reflexivity.
  - do 3 (constructor; intros; rewrite counting_skip by reflexivity).
    constructor. reflexivity.
Qed.

(** lines 51-52 and 58-59: the status event and the sleep *)
Lemma sleep_successes kind msg ms signal n (R : nat -> Error -> Prop) :
  kind <> success ->
  tracks (counting is_success_status) (turn_successes n) R
    (counting is_success_status n (evt (SignalAborted signal) false))
    (call (OnStatus kind msg) ;; waitWithAbort ms signal ;; Ret Again)%prog.
Proof.
  intros Hk. cbn [bind call]. constructor. intros [].
  rewrite !counting_skip by (try reflexivity; destruct kind; try reflexivity; contradiction).
  eapply tracks_bind; [apply waitWithAbort_successes|].
  intros m _ ->. constructor. reflexivity.
Qed.

Lemma monitor_turn_successes getDate config signal n :
  tracks (counting is_success_status) (turn_successes n) (fun _ _ => False) n
    (monitor_turn getDate config signal).
Proof.
  unfold monitor_turn.
  apply tracks_try_catch with (R' := fun m _ => m = n).
  - apply tracks_skip with (f := is_success_status);
      [apply counting_skip | | reflexivity | intros result].
    { apply avoids_mono with (g := loop_op);
        [apply loop_op_success | apply checkAndBook_loop_op]. }
    destruct (booked result); cbn [bind call].
    + constructor. intros []. constructor. split; reflexivity.
    + constructor. intros [|].
      * constructor. reflexivity.
      * apply sleep_successes. discriminate.
  - intros m err ->. cbn [bind call]. constructor. intros [|].
    + constructor. reflexivity.
    + apply sleep_successes. discriminate.
Qed.

Lemma monitor_loop_successes getDate config signal : forall fuel,
  tracks (counting is_success_status) (fun n r => n = success_events r)
    (fun _ _ => False) 0 (monitor_loop getDate fuel config signal).
Proof.
  induction fuel as [|fuel IH]; cbn [monitor_loop].
  - constructor. reflexivity.
  - cbn [bind call]. constructor. intros [|]; rewrite counting_skip by reflexivity.
    + unfold monitor_stopped, call. cbn [bind]. constructor. intros [].
      constructor. reflexivity.
    + eapply tracks_bind; [apply monitor_turn_successes|].
      intros m [result| |] Ht; cbn in Ht.
      * destruct Ht as [-> ->]. constructor. reflexivity.
      * subst m. unfold monitor_stopped, call. cbn [bind]. constructor. intros [].
        constructor. reflexivity.
      * subst m. apply IH.
Qed.

(** X8.  In every world, a call of [startMonitor] emits the ['success']
    status event exactly once when it returns [{ booked: true }], and never
    otherwise (when it returns [{ booked: false }], or while the loop is
    still running). *)
Theorem success_event_iff_booked
    (getDate : string -> option nat) (E : World) (config : MonitorConfig)
    (signal : Signal) (fuel : nat) (w : state E) :
  exists r w' tr,
    run E (startMonitor getDate fuel config signal) w = (Returned r, w', tr) /\
    Trace.count is_success_status tr = success_events r.
Proof.
  assert (T : tracks (counting is_success_status) (fun n r => n = success_events r)
                (fun _ _ => False) 0 (startMonitor getDate fuel config signal)).
  { unfold startMonitor.
    destruct (first_missing (required config)) as [key|].
    - cbn [bind call]. constructor. intros []. constructor. reflexivity.
    - cbn [bind call]. constructor. intros []. apply monitor_loop_successes. }
  pose proof (tracks_run E T w) as H.
  destruct (run E (startMonitor getDate fuel config signal) w) as [[[r|e] w'] tr].
  - exists r, w', tr. split; [reflexivity|]. rewrite fold_counting in H. exact H.
  - destruct H.
Qed.

End Bounds.

(** ** The pace of the loop *)

Module Pacing.
Import JsString Regex Parking RunFacts Observe Attempt LoopFacts Bounds.
Local Open Scope list_scope.

Lemma length_append (a b : string) :
  String.length (a ++ b) = String.length a + String.length b.
Proof. induction a as [|c a IH]; cbn; [reflexivity | rewrite IH; reflexivity]. Qed.

(** a status message that ends otherwise is not the one of line 96 *)
Lemma not_checking_message config (suffix : string) :
  String.length suffix < 29 ->
  String.eqb (targetDate config ++ suffix) (checking_message config) = false.
Proof.
  intros Hlen. destruct (String.eqb_spec (targetDate config ++ suffix)
                           (checking_message config)) as [Heq|]; [|reflexivity].
  apply (f_equal String.length) in Heq. unfold checking_message in Heq.
  rewrite !length_append in Heq. cbn in Heq. lia.
Qed.

Lemma pace_skip config s e : paces config e = false -> pace config s e = s.
Proof.
  unfold paces, pace. intros H. apply orb_false_iff in H. destruct H as [-> ->].
  reflexivity.
Qed.

Lemma paces_out_of_session config e :
  paces config e = true -> out_of_session config e = true.
Proof.
  unfold paces, out_of_session. intros H. apply orb_true_iff in H.
  destruct H as [-> | H]; [reflexivity|]. apply orb_true_iff. right.
  destruct e as [X op x]. destruct op; cbn in *; try discriminate; reflexivity.
Qed.

Lemma status_out_of_session config kind msg x :
  kind = checking /\ String.eqb msg (checking_message config) = false \/
  kind = error \/ kind = available ->
  out_of_session config (evt (OnStatus kind msg) x) = false.
Proof.
  unfold out_of_session, is_attempt_start, foreign, loop_op, setup_op. cbn.
  intros [[-> ->] | [-> | ->]]; reflexivity.
Qed.

(** how a proof that a program stays in the session goes through it *)
Ltac steady :=
  repeat first
    [ apply Trace.avoids_ret
    | apply Trace.avoids_throw
    | apply avoids_call; intros; apply status_out_of_session;
      first [ right; left; reflexivity
            | right; right; reflexivity
            | left; split;
              [reflexivity | first [reflexivity | apply not_checking_message; cbn; lia]] ]
    | apply avoids_await; intros; reflexivity
    | apply avoids_bind
    | apply avoids_try_catch
    | progress intros
    | match goal with
      | |- Trace.avoids _ (match ?x with _ => _ end) => destruct x
      end ].

Lemma find_exact_day_steady config targetDay els :
  Trace.avoids (out_of_session config) (find_exact_day targetDay els).
Proof.
  induction els as [|el rest IH]; cbn [find_exact_day]; [constructor|].
  apply avoids_bind; [apply avoids_await; intros; reflexivity|].
  intros text. destruct (String.eqb _ _); [constructor | assumption].
Qed.

Lemma calendar_loop_steady getDate config browser page : forall left,
  Trace.avoids (out_of_session config)
    (calendar_loop getDate left browser page (targetDate config)).
Proof.
  induction left as [|left IH]; cbn [calendar_loop]; [constructor|].
  apply avoids_bind.
  - unfold find_date. apply avoids_bind; [steady|]. intros [el|]; [constructor|].
    apply avoids_bind; [steady|]. intros. apply find_exact_day_steady.
  - intros [el|]; [steady|].
    apply avoids_bind; [steady|]. intros. apply avoids_bind; [steady | intros; apply IH].
Qed.

Lemma session_steady getDate config browser page :
  Trace.avoids (out_of_session config) (session getDate config browser page).
Proof.
  unfold session, login_step.
  do 4 (apply avoids_bind; [steady | intros]).
  apply avoids_bind; [apply calendar_loop_steady|].
  intros [result|]; [constructor|].
  unfold availability_step, book_step, confirm_step, body_text. steady.
Qed.

(** after its first status event, an attempt neither starts another nor
    rests *)
Lemma after_start_steady getDate config :
  Trace.avoids (paces config)
    (browser <- launch_browser config ;;
     context <- await (NewContext browser) ;;
     page <- await (NewPage context) ;;
     try_catch (session getDate config browser page)
       (fun err => await (Close browser) ;; Throw err))%prog.
Proof.
  unfold launch_browser.
  do 3 (apply avoids_bind; [avoid | intros]).
  apply avoids_try_catch; [|avoid].
  apply avoids_mono with (g := out_of_session config);
    [apply paces_out_of_session | apply session_steady].
Qed.

Lemma checkAndBook_pace getDate config :
  tracks (pace config) (fun s _ => s = Busy) (fun s _ => s = Busy) Rested
    (checkAndBook getDate config).
Proof.
  unfold checkAndBook. cbn [bind call]. constructor. intros [].
  replace (pace config Rested _) with Busy.
  - apply tracks_stay with (f := paces config);
      [apply pace_skip | apply after_start_steady | auto..].
  - unfold pace, is_attempt_start, checking_message. cbn [evt_op].
    rewrite String.eqb_refl. reflexivity.
Qed.

Lemma waitWithAbort_pace config ms signal s (R : Pace -> Error -> Prop) :
  s <> Hasty ->
  tracks (pace config) (fun s' _ => s' = Rested) R s (waitWithAbort ms signal).
Proof.
  intros Hs. unfold waitWithAbort, call. cbn [bind]. constructor. intros [|].
  - constructor. destruct s; try reflexivity. contradiction.
  - rewrite pace_skip by reflexivity.
    do 2 (constructor; intros; rewrite pace_skip by reflexivity).
    constructor. intros []. constructor. destruct s; try reflexivity. contradiction.
Qed.

(** lines 49-52 and 57-59: after an attempt that did not book *)
Lemma after_attempt_pace config signal kind msg (R : Pace -> Error -> Prop) :
  kind <> checking ->
  tracks (pace config) turn_pace R Busy
    (aborted <- call (SignalAborted signal) ;;
     if aborted then Ret Break
     else
       call (OnStatus kind msg) ;;
       waitWithAbort (intervalMs config) signal ;;
       Ret Again)%prog.
Proof.
  intros Hk. cbn [bind call]. constructor. intros [|].
  - constructor. reflexivity.
  - rewrite pace_skip by reflexivity. cbn [bind call]. constructor. intros [].
    rewrite pace_skip by (destruct kind; try reflexivity; contradiction).
    eapply tracks_bind; [apply waitWithAbort_pace; discriminate|].
    intros s _ ->. constructor. reflexivity.
Qed.

Lemma monitor_turn_pace getDate config signal :
  tracks (pace config) turn_pace (fun _ _ => False) Rested
    (monitor_turn getDate config signal).
Proof.
  unfold monitor_turn.
  apply tracks_try_catch with (R' := fun s _ => s = Busy).
  - eapply tracks_bind; [apply checkAndBook_pace|].
    intros s result ->. destruct (booked result).
    + cbn [bind call]. constructor. intros [].
      rewrite pace_skip by reflexivity. constructor. reflexivity.
    + apply after_attempt_pace. discriminate.
  - intros s err ->. apply after_attempt_pace. discriminate.
Qed.

Lemma monitor_loop_pace getDate config signal : forall fuel,
  tracks (pace config) (fun s _ => s <> Hasty) (fun _ _ => False) Rested
    (monitor_loop getDate fuel config signal).
Proof.
  induction fuel as [|fuel IH]; cbn [monitor_loop].
  - constructor. discriminate.
  - cbn [bind call]. constructor. intros [|].
    + unfold monitor_stopped, call. cbn [bind]. constructor. intros [].
      constructor. discriminate.
    + rewrite pace_skip by reflexivity.
      eapply tracks_bind; [apply monitor_turn_pace|].
      intros s [result| |] Ht; cbn in Ht; subst s.
      * constructor. discriminate.
      * unfold monitor_stopped, call. cbn [bind]. constructor. intros [].
        constructor. discriminate.
      * apply IH.
Qed.

Lemma startMonitor_pace getDate fuel config signal :
  tracks (pace config) (fun s _ => s <> Hasty) (fun _ _ => False) Rested
    (startMonitor getDate fuel config signal).
Proof.
  unfold startMonitor. destruct (first_missing (required config)) as [key|].
  - cbn [bind call]. constructor. intros []. constructor. discriminate.
  - cbn [bind call]. constructor. intros []. apply monitor_loop_pace.
Qed.

Lemma hasty_stays config (tr : list Evt) : fold_left (pace config) tr Hasty = Hasty.
Proof.
  induction tr as [|e tr IH]; [reflexivity|]. cbn [fold_left].
  replace (pace config Hasty e) with Hasty; [exact IH|].
  unfold pace. destruct (is_attempt_start config e), (is_rest e); reflexivity.
Qed.

Lemma busy_without_rest config (mid : list Evt) :
  existsb is_rest mid = false ->
  forall s, s <> Rested -> fold_left (pace config) mid s <> Rested.
Proof.
  induction mid as [|e mid IH]; intros Hmid s Hs; [exact Hs|].
  cbn [existsb] in Hmid. apply orb_false_iff in Hmid. destruct Hmid as [He Hmid].
  cbn [fold_left]. apply IH; [exact Hmid|].
  unfold pace. rewrite He.
  destruct (is_attempt_start config e); destruct s; try discriminate; contradiction.
Qed.

(** a trace that never gets hasty has a rest between any two starts *)
Lemma pace_rests config (tr pre mid post : list Evt) (m1 m2 : Evt) :
  fold_left (pace config) tr Rested <> Hasty ->
  tr = pre ++ m1 :: mid ++ m2 :: post ->
  is_attempt_start config m1 = true ->
  is_attempt_start config m2 = true ->
  existsb is_rest mid = true.
Proof.
  intros Hok -> H1 H2. destruct (existsb is_rest mid) eqn:Hmid; [reflexivity|].
  exfalso. apply Hok.
  rewrite fold_left_app. cbn [fold_left]. rewrite fold_left_app. cbn [fold_left].
  set (s1 := pace config (fold_left (pace config) pre Rested) m1).
  assert (Hs1 : s1 <> Rested).
  { unfold s1, pace. rewrite H1. destruct (fold_left _ pre Rested); discriminate. }
  pose proof (busy_without_rest config mid Hmid Hs1) as Hs2.
  replace (pace config (fold_left (pace config) mid s1) m2) with Hasty.
  - apply hasty_stays.
  - destruct (fold_left (pace config) mid s1); unfold pace; rewrite H2;
      try reflexivity. contradiction.
Qed.

(** X9.  In every world, the loop of [startMonitor] never starts two
    attempts back to back: between the first status events (line 96) of two
    attempts of a run, the promise of [waitWithAbort] has resolved or the
    signal has read aborted. *)
Theorem attempts_are_separated_by_a_rest
    (getDate : string -> option nat) (E : World) (config : MonitorConfig)
    (signal : Signal) (fuel : nat) (w : state E)
    (pre mid post : list Evt) (m1 m2 : Evt) :
  trace_of (run E (startMonitor getDate fuel config signal) w)
    = pre ++ m1 :: mid ++ m2 :: post ->
  is_attempt_start config m1 = true ->
  is_attempt_start config m2 = true ->
  existsb is_rest mid = true.
Proof.
  intros Htr H1 H2.
  apply (@pace_rests config _ pre mid post m1 m2) with (2 := Htr); try assumption.
  pose proof (tracks_run E (startMonitor_pace getDate fuel config signal) w) as H.
  destruct (run E (startMonitor getDate fuel config signal) w) as [[[r|e] w'] tr];
    [exact H | destruct H].
Qed.

(** X9, on a quiet site: the second attempt of a run of two turns starts
    at the 59th operation, after the sleep. *)
Lemma attempts_are_separated_by_a_rest_witness :
  let tr := trace_of (run Scenario.quiet_site
                        (startMonitor Scenario.iso_day 2 Scenario.config 0) tt) in
  existsb is_rest (firstn 55 (skipn 3 tr)) = true.
Proof.
  intros tr.
  apply (@attempts_are_separated_by_a_rest Scenario.iso_day Scenario.quiet_site
           Scenario.config 0 2 tt
           (firstn 2 tr) (firstn 55 (skipn 3 tr)) (skipn 59 tr)
           (evt (OnStatus checking (checking_message Scenario.config)) tt)
           (evt (OnStatus checking (checking_message Scenario.config)) tt));
    vm_compute; reflexivity.
Defined.

End Pacing.

(** ** The sleep on a clock *)

Module ClockFacts.
Import JsString Parking RunFacts Clock.
Local Open Scope list_scope.
Local Open Scope Z_scope.

Lemma timer_delay_pos (ms : Z) : 1 <= timer_delay ms.
Proof.
  unfold timer_delay. destruct (ms <? 1) eqn:E1; cbn [orb]; [lia|].
  destruct (2147483647 <? ms); [lia|]. apply Z.ltb_ge in E1. exact E1.
Qed.

Lemma timer_delay_in_range (ms : Z) : 1 <= ms <= 2147483647 -> timer_delay ms = ms.
Proof.
  intros [H1 H2]. unfold timer_delay.
  replace (ms <? 1) with false by (symmetry; apply Z.ltb_ge; lia).
  replace (2147483647 <? ms) with false by (symmetry; apply Z.ltb_ge; lia).
  reflexivity.
Qed.

Section Sleep.
Variable inner : World.
Variable latency : forall X, Op X -> state inner -> Z.

Let W : World := timed inner latency.

(** X10.  On a clock, [waitWithAbort] always resolves (nothing is left
    waiting for ever), and it resolves when the timer is due or when the
    signal is aborted, whichever comes first: at once when the signal is
    already aborted, at the time of the abort when that falls before the
    timer is due, and otherwise when the timer is due, which is
    [timer_delay ms] after the call ([ms] itself when
    [1 <= ms <= 2147483647]). *)
Theorem sleep_ends_at_timer_or_abort (ms : Z) (signal : Signal) (t : state W) :
  exists (t' : state W) (tr : list Evt),
    run W (waitWithAbort ms signal) t = (Returned tt, t', tr) /\
    hung t' = hung t /\
    stop_at t' = stop_at t /\
    now t' = match stop_at t signal with
             | Some ta => Z.max (now t) (Z.min ta (now t + timer_delay ms))
             | None => now t + timer_delay ms
             end.
Proof.
  pose proof (timer_delay_pos ms) as Hpos.
  unfold waitWithAbort. rewrite run_bind, run_call.
  change (handle W (SignalAborted signal) t) with (aborted t signal, t).
  cbn [fst snd]. destruct (aborted t signal) eqn:Ha; cbn iota beta.
  - exists t. eexists. split; [reflexivity|]. repeat split.
    unfold aborted in Ha. destruct (stop_at t signal) as [ta|]; [|discriminate].
    apply Z.leb_le in Ha. lia.
  - cbn [run bind call handle W timed timed_handle].
    unfold wake_time. cbn [lookup timers listeners stop_at now]. rewrite !Nat.eqb_refl.
    unfold aborted in Ha.
    destruct (stop_at t signal) as [ta|] eqn:Hs.
    + apply Z.leb_gt in Ha. do 2 eexists. split; [reflexivity|].
      cbn [now hung stop_at]. repeat split. lia.
    + do 2 eexists. split; [reflexivity|].
      cbn [now hung stop_at]. repeat split. lia.
Qed.

End Sleep.

End ClockFacts.

(** ** The patterns and the case of the text *)

Module PatternFacts.
Import JsString Regex Parking RegexFacts.
Local Open Scope list_scope.

Lemma canonicalize_idem (c : ascii) : canonicalize (canonicalize c) = canonicalize c.
Proof. destruct c as [[] [] [] [] [] [] [] []]; reflexivity. Qed.

Lemma is_space_canonicalize (c : ascii) : is_space (canonicalize c) = is_space c.
Proof. destruct c as [[] [] [] [] [] [] [] []]; reflexivity. Qed.

Lemma deriv_canonical (r : regex) (c d : ascii) :
  canonicalize c = canonicalize d -> deriv c r = deriv d r.
Proof.
  intros H. induction r as [| |a| |r1 IH1 r2 IH2|r1 IH1 r2 IH2|r1 IH1]; cbn [deriv];
    try reflexivity.
  - rewrite H. reflexivity.
  - rewrite <- (is_space_canonicalize c), <- (is_space_canonicalize d), H. reflexivity.
  - rewrite IH1, IH2. reflexivity.
  - rewrite IH1, IH2. reflexivity.
  - rewrite IH1. reflexivity.
Qed.

Lemma match_prefix_canonical : forall (s1 s2 : list ascii) (r : regex),
  map canonicalize s1 = map canonicalize s2 -> match_prefix r s1 = match_prefix r s2.
Proof.
  induction s1 as [|c s1 IH]; intros [|d s2] r H; try discriminate; [reflexivity|].
  cbn [map] in H. injection H as Hc Hs. cbn [match_prefix].
  rewrite (deriv_canonical r c d Hc), (IH s2 _ Hs). reflexivity.
Qed.

Lemma search_canonical : forall (s1 s2 : list ascii) (r : regex),
  map canonicalize s1 = map canonicalize s2 -> search r s1 = search r s2.
Proof.
  induction s1 as [|c s1 IH]; intros [|d s2] r H; try discriminate; [reflexivity|].
  cbn [search]. rewrite (match_prefix_canonical (c :: s1) (d :: s2) r H).
  cbn [map] in H. injection H as _ Hs. rewrite (IH s2 r Hs). reflexivity.
Qed.

(** X11.  The patterns of the source do not see the case of ASCII letters:
    two page texts that are equal up to the case of their letters get the
    same answer from [test] for every pattern, so the scan of the sold-out
    patterns (lines 217-223) stops at the same pattern for both, and the
    success pattern (line 257) decides the same. *)
Theorem patterns_are_case_blind (text1 text2 : string) :
  map canonicalize (chars text1) = map canonicalize (chars text2) ->
  (forall r, test r text1 = test r text2) /\
  first_match soldOutPatterns text1 = first_match soldOutPatterns text2 /\
  test successPattern text1 = test successPattern text2.
Proof.
  intros H.
  assert (T : forall r, test r text1 = test r text2).
  { intros r. unfold test. apply search_canonical. exact H. }
  split; [exact T|]. split; [|apply T].
  unfold soldOutPatterns. cbn [first_match]. rewrite !T. reflexivity.
Qed.

(** X11, for "Fully Booked" and "FULLY BOOKED". *)
Lemma patterns_are_case_blind_witness :
  first_match soldOutPatterns "Fully Booked" = first_match soldOutPatterns "FULLY BOOKED" /\
  first_match soldOutPatterns "Fully Booked"
    = Some (Seq (lit "fully") (Seq ws (lit "booked"))).
Proof.
  split; [|vm_compute; reflexivity].
  exact (proj1 (proj2 (@patterns_are_case_blind "Fully Booked" "FULLY BOOKED" eq_refl))).
Defined.

(** X12.  Every text in which the sold-out pattern [/fully\s*booked/i]
    finds a match also passes the success pattern of line 257 (through its
    alternative [booked]): if the page reads "fully booked" after the
    confirm button was clicked, the attempt takes the booking as made. *)
Theorem fully_booked_reads_as_success (text : string) :
  test (Seq (lit "fully") (Seq ws (lit "booked"))) text = true ->
  In (Seq (lit "fully") (Seq ws (lit "booked"))) soldOutPatterns /\
  test successPattern text = true.
Proof.
  intros H. split; [cbn; auto|].
  unfold test in *. apply search_spec in H.
  destruct H as (pre & mid & post & Hs & Hm).
  inversion Hm as [| | |r1 r2 s1 s2 H1 H2| | | |]; subst.
  inversion H2 as [| | |r1 r2 s3 s4 H3 H4| | | |]; subst.
  apply search_spec. exists (pre ++ s1 ++ s3), s4, post. split.
  - rewrite Hs, <- !app_assoc. reflexivity.
  - unfold successPattern. apply m_alt_r, m_alt_r, m_alt_l. exact H4.
Qed.

(** X12, on a refusal. *)
Lemma fully_booked_reads_as_success_witness :
  test successPattern "Sorry, this date is fully booked" = true.
Proof.
  exact (proj2 (@fully_booked_reads_as_success "Sorry, this date is fully booked" eq_refl)).
Defined.

End PatternFacts.

(** ** The calls of [browser.close()] *)

Module Closing.
Import JsString Regex Parking RunFacts Observe Attempt LoopFacts Bounds.
Local Open Scope list_scope.

Lemma find_exact_day_no_close targetDay els :
  Trace.avoids Trace.is_close (find_exact_day targetDay els).
Proof.
  induction els as [|el rest IH]; cbn [find_exact_day]; [constructor|].
  apply avoids_bind; [apply avoids_await; intros; reflexivity|].
  intros text. destruct (String.eqb _ _); [constructor | assumption].
Qed.

Lemma find_date_no_close getDate page targetDate :
  Trace.avoids Trace.is_close (find_date getDate page targetDate).
Proof.
  unfold find_date. apply avoids_bind; [apply avoids_await; intros; reflexivity|].
  intros [el|]; [constructor|].
  apply avoids_bind; [apply avoids_await; intros; reflexivity|].
  intros. apply find_exact_day_no_close.
Qed.

(** [await browser.close(); return r] *)
Lemma close_then_return A browser (r : A) (Q : list Evt -> A -> Prop) :
  Q [evt (Close browser) (inr tt)] r ->
  tracks (keeping Trace.is_close) Q (fun l _ => close_failed browser l) []
    (await (Close browser) ;; Ret r)%prog.
Proof.
  intros HQ. cbn [bind await]. constructor. intros [e|[]]; cbn; constructor.
  - right. exists e. reflexivity.
  - exact HQ.
Qed.

(** a step of the [try] block that does not close the browser *)
Ltac pass :=
  apply tracks_skip with (f := Trace.is_close);
    [apply keeping_skip | avoid | intros; left; reflexivity | intros].

Lemma calendar_loop_closes_once getDate browser page targetDate : forall left,
  tracks (keeping Trace.is_close) (close_exit browser)
    (fun l _ => close_failed browser l) []
    (calendar_loop getDate left browser page targetDate).
Proof.
  induction left as [|left IH]; cbn [calendar_loop]; [constructor; reflexivity|].
  apply tracks_skip with (f := Trace.is_close);
    [apply keeping_skip | apply find_date_no_close | intros; left; reflexivity |].
  intros [el|].
  - do 2 pass.
    match goal with
    | |- tracks _ _ _ _ (if ?c then _ else _) => destruct c
    end.
    + pass. apply close_then_return. reflexivity.
    + do 3 pass. constructor. reflexivity.
  - do 2 pass. apply IH.
Qed.

Lemma confirm_step_closes_once config browser page :
  tracks (keeping Trace.is_close) (fun l _ => l = [evt (Close browser) (inr tt)])
    (fun l _ => close_failed browser l) []
    (confirm_step config browser page).
Proof.
  unfold confirm_step, body_text. do 2 pass.
  match goal with
  | |- tracks _ _ _ _ (if ?c then _ else _) => destruct c
  end.
  - apply close_then_return. reflexivity.
  - pass. apply close_then_return. reflexivity.
Qed.

Lemma availability_step_closes_once config browser page :
  tracks (keeping Trace.is_close) (fun l _ => l = [evt (Close browser) (inr tt)])
    (fun l _ => close_failed browser l) []
    (availability_step config browser page).
Proof.
  unfold availability_step, body_text. pass.
  destruct (first_match soldOutPatterns _).
  - pass. apply close_then_return. reflexivity.
  - pass. match goal with
          | |- tracks _ _ _ _ (match ?x with _ => _ end) => destruct x as [bb|]
          end.
    + unfold book_step. do 7 pass. apply confirm_step_closes_once.
    + pass. apply close_then_return. reflexivity.
Qed.

Lemma session_closes_once getDate config browser page :
  tracks (keeping Trace.is_close) (fun l _ => l = [evt (Close browser) (inr tt)])
    (fun l _ => close_failed browser l) []
    (session getDate config browser page).
Proof.
  unfold session, login_step. do 4 pass.
  eapply tracks_bind; [apply calendar_loop_closes_once|].
  intros l [result|] Hl; cbn in Hl; subst l.
  - constructor. reflexivity.
  - apply availability_step_closes_once.
Qed.

(** X13.  From line 122 on, in every world and however the attempt ends,
    [browser.close()] is called on the browser of the attempt and on no
    other; it is called once, except that when a call of the [try] block is
    rejected the [catch] block calls it a second time. *)
Theorem try_block_closes_once_or_retries
    (getDate : string -> option nat) (E : World) (config : MonitorConfig)
    (browser : Browser) (page : Page) (w : state E) :
  close_shape browser
    (filter Trace.is_close
       (trace_of (run E (try_catch (session getDate config browser page)
                                   (fun err => await (Close browser) ;; Throw err))%prog
                        w))).
Proof.
  assert (T : tracks (keeping Trace.is_close)
                (fun l _ => close_shape browser l) (fun l _ => close_shape browser l) []
                (try_catch (session getDate config browser page)
                           (fun err => await (Close browser) ;; Throw err))%prog).
  { apply tracks_try_catch with (R' := fun l _ => close_failed browser l).
    - eapply tracks_weaken; [apply session_closes_once | | auto].
      intros l _ ->. left. exists (inr tt). reflexivity.
    - intros l err Hl. cbn [bind await]. constructor. intros x.
      assert (Hs : close_shape browser (keeping Trace.is_close l (evt (Close browser) x))).
      { destruct Hl as [-> | [e ->]]; cbn.
        - left. exists x. reflexivity.
        - right. exists e, x. reflexivity. }
      destruct x as [e|[]]; cbn [bind]; constructor; exact Hs. }
  pose proof (tracks_run E T w) as H.
  match goal with
  | |- context [run E ?p w] => destruct (run E p w) as [[[r|e] w'] tr]
  end; rewrite fold_keeping in H; exact H.
Qed.

End Closing.

(** ** The controller of the main process *)

Module LifecycleFacts.
Import JsString Parking Main MainFacts Lifecycle.
Local Open Scope list_scope.

Lemma is_aborted_In s c : is_aborted s c = false <-> ~ In c (aborted_signals s).
Proof.
  unfold is_aborted. split.
  - intros H Hin. assert (T : existsb (Nat.eqb c) (aborted_signals s) = true).
    { apply existsb_exists. exists c. split; [assumption | apply Nat.eqb_refl]. }
    congruence.
  - intros H. destruct (existsb (Nat.eqb c) (aborted_signals s)) eqn:Ex; [|reflexivity].
    apply existsb_exists in Ex. destruct Ex as (x & Hin & Heq).
    apply Nat.eqb_eq in Heq. subst x. contradiction.
Qed.

Lemma registered_latest_core s s' : core s s' -> registered_latest s -> registered_latest s'.
Proof.
  intros (A & N & C) H c Hc. rewrite A, N.
  destruct C as [C|C]; [apply H; congruence | congruence].
Qed.

Section Reachable.
Variable getDate : string -> option nat.
Variable resourcesPath : string.
Variable fuel : nat.

Lemma registered_latest_step s e :
  fresh s -> registered_latest s ->
  registered_latest (step getDate resourcesPath fuel s e).
Proof.
  intros [Fa Fc] Hr. destruct e as [config | | i answer]; cbn [step].
  - unfold start_monitor.
    destruct (start_monitor_body getDate resourcesPath fuel config s) as [t s1] eqn:Eb.
    apply start_monitor_body_spec in Eb. destruct Eb as (A & N & C & _ & _).
    apply (@registered_latest_core (with_tasks s1 [])).
    + eapply core_trans; [apply microtasks_settled | apply finish_settled].
    + intros c. cbn [with_tasks aborted_signals next_signal monitorAbortController].
      rewrite A, N, C. intros [= Hc]. subst c. split; [reflexivity|].
      intros Hin. destruct (monitorAbortController s) as [c|] eqn:Ec.
      * destruct Hin as [Heq | Hin]; [specialize (Fc _ eq_refl) | specialize (Fa _ Hin)]; lia.
      * specialize (Fa _ Hin). lia.
  - unfold stop_monitor. destruct (monitorAbortController s) as [c|] eqn:Ec;
      [|intros c' Hc'; congruence].
    match goal with
    | |- registered_latest (microtasks ?l ?st ?old ?x) =>
        apply (@registered_latest_core x)
    end.
    + apply microtasks_settled.
    + match goal with
      | |- context [sendStatus ?k ?m ?x] =>
          destruct (sendStatus_frame k m x) as [(A' & N' & C' & L') T']
      end.
      intros c'. cbn [with_tasks monitorAbortController]. rewrite C'. discriminate.
  - apply (@registered_latest_core (with_tasks s [])); [apply resolve_at_core | exact Hr].
Qed.

Lemma registered_latest_steps : forall history s,
  fresh s -> registered_latest s ->
  registered_latest (steps getDate resourcesPath fuel s history).
Proof.
  unfold steps. induction history as [|e history IH]; intros s Hf Hr; cbn [fold_left].
  - assumption.
  - apply IH; [apply fresh_step | apply registered_latest_step]; assumption.
Qed.

(** X14.  After any history of handler calls and resolutions since the
    start of the application, the controller that is registered, if any, is
    the one of the most recent ['start-monitor'] call (the signal created
    last), and its signal is not aborted: a ['stop-monitor'] call that finds
    a controller always has a signal to abort. *)
Theorem registered_controller_is_latest_and_live
    (history : list Event) (c : Signal) :
  let s := steps getDate resourcesPath fuel boot history in
  monitorAbortController s = Some c ->
  S c = next_signal s /\ is_aborted s c = false.
Proof.
  intros s Hc.
  assert (H : registered_latest s).
  { apply registered_latest_steps; [apply fresh_boot | intros c'; discriminate]. }
  destruct (H c Hc) as [Hn Ha]. split; [exact Hn | apply is_aborted_In; exact Ha].
Qed.

End Reachable.

(** X14, after a start, a launch and a restart. *)
Lemma registered_controller_is_latest_and_live_witness :
  let s := steps Scenario.iso_day "/res" 3 boot
             [StartMonitor Scenario.ipc_config; Resolve 0 (Scenario.launch_gives 1);
              StartMonitor Scenario.ipc_config] in
  monitorAbortController s = Some 1 /\ 2 = next_signal s /\ is_aborted s 1 = false.
Proof.
  intros s. split; [vm_compute; reflexivity|].
  apply (@registered_controller_is_latest_and_live Scenario.iso_day "/res" 3
           [StartMonitor Scenario.ipc_config; Resolve 0 (Scenario.launch_gives 1);
            StartMonitor Scenario.ipc_config] 1).
  vm_compute. reflexivity.
Defined.

(** *** A run that ends clears the controller *)

Lemma finish_count t s :
  (tasks (finish t s) = tasks s ++ [t] /\
   monitorAbortController (finish t s) = monitorAbortController s) \/
  (tasks (finish t s) = tasks s /\ monitorAbortController (finish t s) = None).
Proof.
  unfold finish. destruct (parked t) as [[result|]|err|X op k].
  - right. cbn. destruct (monitor_booked result); [|auto].
    split; [apply sendStatus_frame | reflexivity].
  - left. auto.
  - right. cbn.
    destruct (negb (String.eqb (name err) "AbortError")
              && negb (is_aborted s (task_signal t))); [|auto].
    split; [apply sendStatus_frame | reflexivity].
  - left. auto.
Qed.

Lemma finish_length t s s0 :
  frame s0 s -> tasks s = tasks s0 ->
  (length (tasks (finish t s)) = S (length (tasks s0)) /\
   monitorAbortController (finish t s) = monitorAbortController s0) \/
  (length (tasks (finish t s)) = length (tasks s0) /\
   monitorAbortController (finish t s) = None).
Proof.
  intros (_ & _ & C & _) T.
  destruct (finish_count t s) as [[Ht Hc] | [Ht Hc]]; rewrite Ht, Hc.
  - left. rewrite length_app, T, C. cbn. split; [lia | reflexivity].
  - right. rewrite T. auto.
Qed.

Lemma settle_same X (op : Op X) s x :
  monitorAbortController (settle op s x) = monitorAbortController s /\
  tasks (settle op s x) = tasks s.
Proof. destruct op; cbn; auto; destruct x; auto. Qed.

Lemma resume_task_count t answer s :
  (length (tasks (resume_task t answer s)) = S (length (tasks s)) /\
   monitorAbortController (resume_task t answer s) = monitorAbortController s) \/
  (length (tasks (resume_task t answer s)) = length (tasks s) /\
   monitorAbortController (resume_task t answer s) = None).
Proof.
  unfold resume_task. destruct (parked t) as [a|e|X op k] eqn:Ep;
    try (apply finish_length; [apply frame_refl | reflexivity]).
  destruct (advance (task_date t) (k (answer X op)) (settle op s (answer X op)))
    as [p s2] eqn:Ea.
  destruct (advance_frame _ _ _ Ea) as [(A & N & C & L) T].
  destruct (settle_same op s (answer X op)) as [Cs Ts].
  destruct (finish_count (mkTask (task_signal t) (task_date t) p) s2)
    as [[Ht Hc] | [Ht Hc]]; rewrite Ht, Hc.
  - left. rewrite length_app, T, Ts, C, Cs. cbn. split; [lia | reflexivity].
  - right. rewrite T, Ts. auto.
Qed.

Lemma keep_all_count : forall rest s,
  tasks (fold_left (fun acc t' => keep t' acc) rest s) = tasks s ++ rest /\
  monitorAbortController (fold_left (fun acc t' => keep t' acc) rest s)
    = monitorAbortController s.
Proof.
  induction rest as [|t rest IH]; intros s; cbn [fold_left].
  - rewrite app_nil_r. auto.
  - destruct (IH (keep t s)) as [Ht Hc]. rewrite Ht, Hc. cbn.
    rewrite <- app_assoc. auto.
Qed.

Lemma resolve_at_count answer : forall old i s,
  ended_or_same (length (tasks s) + length old) (monitorAbortController s)
    (resolve_at i answer old s).
Proof.
  unfold ended_or_same.
  induction old as [|t rest IH]; intros i s; destruct i as [|i']; cbn [resolve_at length].
  - left. split; [lia | reflexivity].
  - left. split; [lia | reflexivity].
  - destruct (keep_all_count rest (resume_task t answer s)) as [Ht Hc].
    rewrite Ht, Hc, length_app.
    destruct (resume_task_count t answer s) as [[Hl Hr] | [Hl Hr]]; rewrite Hl, Hr.
    + left. split; [lia | reflexivity].
    + right. split; [lia | reflexivity].
  - destruct (IH i' (keep t s)) as [[Hl Hc] | [Hl Hc]];
      cbn [keep with_tasks tasks monitorAbortController] in Hl, Hc;
      rewrite length_app in Hl; cbn [length] in Hl;
      [left | right]; (split; [lia | exact Hc]).
Qed.

Section Handlers.
Variable getDate : string -> option nat.
Variable resourcesPath : string.
Variable fuel : nat.

(** X15.  Whenever the resolution of an awaited operation ends a call of
    [startMonitor] (one call fewer is in flight afterwards), the [then] or
    [catch] callback of lines 276-288 clears [monitorAbortController],
    whichever call had registered it: also when it is the controller of a
    later call that is still running.  A ['stop-monitor'] call that comes
    next finds no controller and does nothing. *)
Theorem ended_run_clears_any_controller (s : Sys) (i : nat)
    (answer : forall X, Op X -> X) :
  let s' := step getDate resourcesPath fuel s (Resolve i answer) in
  length (tasks s') < length (tasks s) ->
  monitorAbortController s' = None /\
  step getDate resourcesPath fuel s' StopMonitor = s'.
Proof.
  intros s' Hlen. subst s'. cbn [step] in *.
  destruct (resolve_at_count answer (tasks s) i (with_tasks s [])) as [[Hl _] | [_ Hc]].
  - cbn in Hl. lia.
  - split; [exact Hc|]. unfold stop_monitor. rewrite Hc. reflexivity.
Qed.

End Handlers.

(** X15: a first run has its browser (1) open when a second start arrives;
    the context of the first run then fails, the first run ends (its signal
    is aborted), and its callback clears the controller of the second run,
    which is in flight and not aborted. *)
Lemma ended_run_clears_any_controller_witness :
  let s := steps Scenario.iso_day "/res" 3 boot
             [StartMonitor Scenario.ipc_config; Resolve 0 (Scenario.launch_gives 1);
              StartMonitor Scenario.ipc_config] in
  let s' := step Scenario.iso_day "/res" 3 s (Resolve 0 Scenario.context_fails) in
  (monitorAbortController s = Some 1 /\
   map task_signal (tasks s') = [1] /\ is_aborted s' 1 = false) /\
  monitorAbortController s' = None /\
  step Scenario.iso_day "/res" 3 s' StopMonitor = s'.
Proof.
  intros s s'. split; [vm_compute; repeat split|].
  apply (@ended_run_clears_any_controller Scenario.iso_day "/res" 3 s 0
           Scenario.context_fails).
  vm_compute. lia.
Defined.

(** *** What stays sent *)

Lemma keeps_sent_refl s : keeps_sent s s.
Proof. split; [reflexivity | exists []; reflexivity]. Qed.

Lemma keeps_sent_trans s1 s2 s3 : keeps_sent s1 s2 -> keeps_sent s2 s3 -> keeps_sent s1 s3.
Proof.
  intros [W1 [m1 H1]] [W2 [m2 H2]]. split; [congruence|].
  exists (m2 ++ m1). rewrite H2, H1, app_assoc. reflexivity.
Qed.

Lemma sendStatus_keeps_sent kind msg s : keeps_sent s (sendStatus kind msg s).
Proof.
  unfold sendStatus. destruct (window_open s) eqn:Ew; [|apply keeps_sent_refl].
  split; [cbn; congruence | exists [(kind, msg)]; reflexivity].
Qed.

Lemma onStatus_keeps_sent date kind msg s : keeps_sent s (onStatus date kind msg s).
Proof.
  unfold onStatus. pose proof (sendStatus_keeps_sent kind msg s) as H.
  destruct kind; exact H.
Qed.

Lemma advance_keeps_sent date A (p : Prog A) : forall s p' s',
  advance date p s = (p', s') -> keeps_sent s s'.
Proof.
  induction p as [a|e|X op k IH]; intros s p' s' H; cbn in H.
  - injection H as _ <-. apply keeps_sent_refl.
  - injection H as _ <-. apply keeps_sent_refl.
  - destruct (sync_answer date op s) as [[x s1]|] eqn:Es.
    + apply keeps_sent_trans with s1; [|eapply IH; eassumption].
      destruct op; cbn in Es; try discriminate; injection Es as _ <-;
        try (split; [reflexivity | exists []; reflexivity]).
      apply onStatus_keeps_sent.
    + injection H as _ <-. apply keeps_sent_refl.
Qed.

Lemma finish_keeps_sent t s : keeps_sent s (finish t s).
Proof.
  unfold finish. destruct (parked t) as [[result|]|err|X op k];
    try (split; [reflexivity | exists []; reflexivity]).
  - destruct (monitor_booked result); [|split; [reflexivity | exists []; reflexivity]].
    destruct (sendStatus_keeps_sent success "Parking successfully booked!" s) as [W [m Hm]].
    split; [exact W | exists m; exact Hm].
  - destruct (negb (String.eqb (name err) "AbortError")
              && negb (is_aborted s (task_signal t)));
      [|split; [reflexivity | exists []; reflexivity]].
    destruct (sendStatus_keeps_sent error ("Monitor error: " ++ message err) s)
      as [W [m Hm]].
    split; [exact W | exists m; exact Hm].
Qed.

Lemma wake_keeps_sent t s :
  keeps_sent s (wake t s) /\ length (tasks (wake t s)) <= S (length (tasks s)).
Proof.
  assert (F : forall t' s', length (tasks (finish t' s')) <= S (length (tasks s'))).
  { intros t' s'. destruct (finish_count t' s') as [[Ht _] | [Ht _]]; rewrite Ht;
      rewrite ?length_app; cbn; lia. }
  unfold wake. destruct (parked t) as [a|err|X op k];
    try (split; [apply finish_keeps_sent | apply F]).
  destruct op;
    try (split; [split; [reflexivity | exists []; reflexivity]
                | cbn; rewrite length_app; cbn; lia]).
  destruct (advance (task_date t) (k tt) s) as [p s1] eqn:Ea.
  destruct (advance_frame _ _ _ Ea) as [_ T1].
  split.
  - eapply keeps_sent_trans; [eapply advance_keeps_sent; eassumption|].
    apply finish_keeps_sent.
  - rewrite <- T1. apply F.
Qed.

Lemma microtasks_keeps_sent listening stopped : forall old s,
  keeps_sent s (microtasks listening stopped old s) /\
  length (tasks (microtasks listening stopped old s)) <= length (tasks s) + length old.
Proof.
  unfold microtasks.
  induction old as [|t old IH]; intros s; cbn [fold_left length].
  - split; [apply keeps_sent_refl | lia].
  - set (s1 := match stopped with
               | Some signal =>
                   if sleeping_on listening signal t then wake t s else keep t s
               | None => keep t s
               end).
    assert (H1 : keeps_sent s s1 /\ length (tasks s1) <= S (length (tasks s))).
    { assert (K : keeps_sent s (keep t s) /\
                  length (tasks (keep t s)) <= S (length (tasks s))).
      { split; [split; [reflexivity | exists []; reflexivity]|].
        cbn. rewrite length_app. cbn. lia. }
      subst s1. destruct stopped as [signal|]; [|exact K].
      destruct (sleeping_on listening signal t); [apply wake_keeps_sent | exact K]. }
    destruct H1 as [K1 L1]. destruct (IH s1) as [K2 L2].
    split; [eapply keeps_sent_trans; eassumption | lia].
Qed.

Lemma keeps_sent_In s s' x : keeps_sent s s' -> In x (sent s) -> In x (sent s').
Proof. intros [_ [m Hm]] H. rewrite Hm. apply in_or_app. right. exact H. Qed.

Section Stop.
Variable getDate : string -> option nat.
Variable resourcesPath : string.
Variable fuel : nat.

(** X16.  A ['stop-monitor'] call that finds a controller aborts its signal
    and clears it, and tells the window so; but it interrupts no attempt:
    every call of [startMonitor] that is inside an attempt is still parked
    on the same operation afterwards, and no browser is closed.  A second
    ['stop-monitor'] call changes nothing. *)
Theorem stop_aborts_but_interrupts_no_attempt (s : Sys) (c : Signal) :
  monitorAbortController s = Some c ->
  let s' := stop_monitor s in
  monitorAbortController s' = None /\
  is_aborted s' c = true /\
  (forall t, In t (tasks s) -> attempting t = true -> In t (tasks s')) /\
  live s' = live s /\
  (window_open s = true -> In (idle, "Monitoring stopped by user"%string) (sent s')) /\
  stop_monitor s' = s'.
Proof.
  intros Hc s'.
  set (s2 := sendStatus idle "Monitoring stopped by user" (with_controller (abort c s) None)).
  assert (Es : s' = microtasks s (Some c) (tasks s) (with_tasks s2 [])).
  { subst s' s2. unfold stop_monitor. rewrite Hc. reflexivity. }
  clearbody s'. subst s'.
  destruct (sendStatus_frame idle "Monitoring stopped by user"
              (with_controller (abort c s) None)) as [(A2 & N2 & C2 & L2) T2].
  fold s2 in A2, N2, C2, L2, T2.
  destruct (microtasks_settled s (Some c) (tasks s) (with_tasks s2 []))
    as (((A & N & C) & L) & _ & T).
  destruct (microtasks_keeps_sent s (Some c) (tasks s) (with_tasks s2 [])) as [K _].
  set (s' := microtasks s (Some c) (tasks s) (with_tasks s2 [])) in *.
  cbn [with_tasks aborted_signals monitorAbortController live] in A, C, L.
  assert (Hnone : monitorAbortController s' = None).
  { destruct C as [C|C]; [|exact C]. rewrite C, C2. reflexivity. }
  repeat split.
  - exact Hnone.
  - unfold is_aborted. rewrite A, A2. cbn. rewrite Nat.eqb_refl. reflexivity.
  - exact T.
  - rewrite L, L2. reflexivity.
  - intros Hw. apply (keeps_sent_In _ K). cbn [with_tasks sent].
    unfold s2, sendStatus. cbn [window_open with_controller abort]. rewrite Hw.
    left. reflexivity.
  - unfold stop_monitor. rewrite Hnone. reflexivity.
Qed.

(** X17.  A ['start-monitor'] call whose configuration lacks a required
    field still stops the monitor that is running: the registered signal is
    aborted, the controller the handler creates is cleared again at once, no
    call of [startMonitor] is added to those in flight, the open browser
    sessions are as before, and the window is sent the ['error'] status that
    names the first missing field. *)
Theorem invalid_start_stops_the_running_monitor (config : IpcConfig) (s : Sys)
    (key : string) :
  first_missing (required (monitorConfig resourcesPath config)) = Some key ->
  let s' := start_monitor getDate resourcesPath fuel config s in
  monitorAbortController s' = None /\
  (forall c, monitorAbortController s = Some c -> is_aborted s' c = true) /\
  length (tasks s') <= length (tasks s) /\
  live s' = live s /\
  (window_open s = true -> In (error, missing_message key) (sent s')).
Proof.
  intros Hkey s'. subst s'. unfold start_monitor, start_monitor_body.
  unfold startMonitor. rewrite Hkey. cbn [bind call advance sync_answer].
  set (s1 := match monitorAbortController s with
             | Some c => abort c s
             | None => s
             end).
  set (s3 := sendStatus monitoring _ _).
  set (s4 := onStatus (ipc_targetDate config) error (missing_message key) s3).
  assert (H3 : aborted_signals s3 = aborted_signals s1 /\ live s3 = live s /\
               window_open s3 = window_open s).
  { subst s3.
    match goal with
    | |- context [sendStatus ?k ?m ?x] =>
        destruct (sendStatus_frame k m x) as [(A & _ & _ & L) _];
        destruct (sendStatus_keeps_sent k m x) as [W _]
    end.
    rewrite A, L, W. subst s1. destruct (monitorAbortController s); repeat split. }
  destruct H3 as (A3 & L3 & W3).
  destruct (onStatus_frame (ipc_targetDate config) error (missing_message key) s3)
    as [(A4 & _ & _ & L4) _].
  fold s4 in A4, L4.
  destruct (microtasks_settled s (monitorAbortController s) (tasks s) (with_tasks s4 []))
    as (((A5 & _) & L5) & _ & _).
  destruct (microtasks_keeps_sent s (monitorAbortController s) (tasks s) (with_tasks s4 []))
    as [K5 T5].
  set (s5 := microtasks s (monitorAbortController s) (tasks s) (with_tasks s4 [])) in *.
  cbn [with_tasks aborted_signals live tasks length sent] in A5, L5, T5.
  unfold finish. cbn [parked monitor_booked with_controller monitorAbortController
                      tasks live sent].
  repeat split.
  - intros c Hc. unfold is_aborted. cbn [aborted_signals with_controller].
    rewrite A5, A4, A3. subst s1. rewrite Hc. cbn. rewrite Nat.eqb_refl. reflexivity.
  - exact T5.
  - rewrite L5, L4, L3. reflexivity.
  - intros Hw. apply (keeps_sent_In _ K5). cbn [with_tasks sent].
    unfold s4, onStatus, sendStatus. rewrite W3, Hw. left. reflexivity.
Qed.

End Stop.

(** X16, for a run stopped while its browser (1) is open. *)
Lemma stop_aborts_but_interrupts_no_attempt_witness :
  let s := steps Scenario.iso_day "/res" 3 boot
             [StartMonitor Scenario.ipc_config; Resolve 0 (Scenario.launch_gives 1)] in
  let s' := stop_monitor s in
  (map attempting (tasks s) = [true] /\ live s = [1]) /\
  monitorAbortController s' = None /\
  is_aborted s' 0 = true /\
  (forall t, In t (tasks s) -> attempting t = true -> In t (tasks s')) /\
  live s' = live s /\
  (window_open s = true -> In (idle, "Monitoring stopped by user"%string) (sent s')) /\
  stop_monitor s' = s'.
Proof.
  intros s s'. split; [vm_compute; split; reflexivity|].
  apply (@stop_aborts_but_interrupts_no_attempt s 0). vm_compute. reflexivity.
Defined.

(** X17, for a configuration without a password sent while a run has its
    browser (1) open. *)
Lemma invalid_start_stops_the_running_monitor_witness :
  let s := steps Scenario.iso_day "/res" 3 boot
             [StartMonitor Scenario.ipc_config; Resolve 0 (Scenario.launch_gives 1)] in
  let config := mkIpc "skier@example.com" EmptyString "SP2ABCDEFGH" "ABC123"
                      "2026-02-01" 5 in
  let s' := start_monitor Scenario.iso_day "/res" 3 config s in
  monitorAbortController s = Some 0 /\
  monitorAbortController s' = None /\
  (forall c, monitorAbortController s = Some c -> is_aborted s' c = true) /\
  length (tasks s') <= length (tasks s) /\
  live s' = live s /\
  (window_open s = true -> In (error, missing_message "password") (sent s')).
Proof.
  intros s config s'. split; [vm_compute; reflexivity|].
  apply (@invalid_start_stops_the_running_monitor Scenario.iso_day "/res" 3 config s
           "password").
  vm_compute. reflexivity.
Defined.

End LifecycleFacts.

(** ** Versions *)

Module VersionFacts.
Import JsString Version.
Local Open Scope list_scope.

Section Order.
Variable num : Type.
Variable zero : num.
Variable gt : num -> num -> bool.
Variable Number : string -> option num.

Hypothesis gt_irrefl : forall a, gt a a = false.
Hypothesis gt_trans : forall a b c, gt a b = true -> gt b c = true -> gt a c = true.
Hypothesis gt_total : forall a b, gt a b = false -> gt b a = false -> a = b.

Lemma gt_asym a b : gt a b = true -> gt b a = false.
Proof.
  intros H. destruct (gt b a) eqn:E; [|reflexivity].
  rewrite <- (gt_irrefl a). symmetry. apply gt_trans with b; assumption.
Qed.

Lemma compare_parts_irrefl parts : forall n i, compare_parts zero gt parts parts n i = false.
Proof.
  induction n as [|n IH]; intros i; cbn [compare_parts]; [reflexivity|].
  rewrite gt_irrefl. apply IH.
Qed.

Lemma compare_parts_asym l c : forall n i,
  compare_parts zero gt l c n i = true -> compare_parts zero gt c l n i = false.
Proof.
  induction n as [|n IH]; intros i; cbn [compare_parts]; [discriminate|].
  destruct (gt (part zero l i) (part zero c i)) eqn:E1.
  - intros _. rewrite (gt_asym E1). reflexivity.
  - destruct (gt (part zero c i) (part zero l i)) eqn:E2; [discriminate|]. apply IH.
Qed.

Lemma compare_parts_trans a b c : forall n i,
  compare_parts zero gt a b n i = true ->
  compare_parts zero gt b c n i = true ->
  compare_parts zero gt a c n i = true.
Proof.
  induction n as [|n IH]; intros i; cbn [compare_parts]; [discriminate|].
  destruct (gt (part zero a i) (part zero b i)) eqn:Eab.
  - intros _. destruct (gt (part zero b i) (part zero c i)) eqn:Ebc.
    + intros _. rewrite (gt_trans Eab Ebc). reflexivity.
    + destruct (gt (part zero c i) (part zero b i)) eqn:Ecb; [discriminate|].
      intros _. rewrite <- (gt_total Ebc Ecb), Eab. reflexivity.
  - destruct (gt (part zero b i) (part zero a i)) eqn:Eba; [discriminate|].
    intros Hab. rewrite (gt_total Eab Eba).
    destruct (gt (part zero b i) (part zero c i)) eqn:Ebc; [reflexivity|].
    destruct (gt (part zero c i) (part zero b i)) eqn:Ecb; [discriminate|].
    apply IH. exact Hab.
Qed.

(** X18.  [isNewerVersion] is a strict order on version strings, for any
    [Number] and any ordering of the numbers that is a strict total order:
    no version is newer than itself (so no update is offered when the
    latest release is the running version), two versions are never each
    newer than the other, and newer than newer is newer. *)
Theorem newer_version_is_a_strict_order :
  (forall v, isNewerVersion zero gt Number v v = false) /\
  (forall a b, isNewerVersion zero gt Number a b = true ->
               isNewerVersion zero gt Number b a = false) /\
  (forall a b c, isNewerVersion zero gt Number a b = true ->
                 isNewerVersion zero gt Number b c = true ->
                 isNewerVersion zero gt Number a c = true).
Proof.
  unfold isNewerVersion. repeat split.
  - intros v. apply compare_parts_irrefl.
  - intros a b. apply compare_parts_asym.
  - intros a b c. apply compare_parts_trans.
Qed.

End Order.

Lemma Z_gt_irrefl (a : Z) : Z.gtb a a = false.
Proof. rewrite Z.gtb_ltb. apply Z.ltb_irrefl. Qed.

Lemma Z_gt_trans (a b c : Z) : Z.gtb a b = true -> Z.gtb b c = true -> Z.gtb a c = true.
Proof. rewrite !Z.gtb_ltb, !Z.ltb_lt. lia. Qed.

Lemma Z_gt_total (a b : Z) : Z.gtb a b = false -> Z.gtb b a = false -> a = b.
Proof. rewrite !Z.gtb_ltb, !Z.ltb_ge. lia. Qed.

(** X18, on whole numbers: 1.10.0 is newer than 1.9.3, not the reverse. *)
Lemma newer_version_is_a_strict_order_witness :
  isNewerVersion 0%Z Z.gtb number_of_digits "1.10.0" "1.9.3" = true /\
  isNewerVersion 0%Z Z.gtb number_of_digits "1.9.3" "1.10.0" = false.
Proof.
  split; [vm_compute; reflexivity|].
  apply (proj1 (proj2 (@newer_version_is_a_strict_order Z 0%Z Z.gtb number_of_digits
                         Z_gt_irrefl Z_gt_trans Z_gt_total))).
  vm_compute. reflexivity.
Defined.

End VersionFacts.

(** ** The keychain *)

Module KeychainFacts.
Import JsString Keychain.
Local Open Scope list_scope.

Lemma kbind_resolved (kt : Keytar) A B (m : K kt A) (f : A -> K kt B) st b st' :
  kbind m f st = (inr b, st') ->
  exists a st1, m st = (inr a, st1) /\ f a st1 = (inr b, st').
Proof.
  unfold kbind. destruct (m st) as [[e|a] st1]; [discriminate|].
  intros H. exists a, st1. auto.
Qed.

Section Laws.
Variable kt : Keytar.
Variable content : chain kt -> string -> string -> option string.
Hypothesis lawful : Lawful kt content.

(** what the keychain holds for the service after the first [n] writes of
    [saveCredentials] *)
Lemma writes_content creds :
  forall st st1 e,
    saveCredentials kt creds st = (e, st1) ->
    exists n,
      (match e with inr _ => n = 4 | inl _ => n < 4 end) /\
      forall i a v, nth_error (fields creds) i = Some (a, v) ->
        content st1 SERVICE a = if i <? n then Some v else content st SERVICE a.
Proof.
  intros st st1 e H. unfold saveCredentials, kbind in H.
  destruct (setPassword kt SERVICE "email" (c_email creds) st) as [[e1|[]] s1] eqn:E1.
  { cbv beta iota in H. injection H as <- <-.
    exists 0. split; [lia|]. intros i a v _.
    apply (set_rejected lawful _ _ _ _ E1). }
  pose proof (set_resolved lawful _ _ _ _ E1) as C1.
  destruct (setPassword kt SERVICE "password" (c_password creds) s1) as [[e2|[]] s2] eqn:E2.
  { cbv beta iota in H. injection H as <- <-.
    exists 1. split; [lia|]. intros i a v Hi.
    rewrite (set_rejected lawful _ _ _ _ E2), C1.
    destruct i as [|[|[|[|[|i]]]]]; cbn in Hi; try discriminate;
      injection Hi as <- <-; reflexivity. }
  pose proof (set_resolved lawful _ _ _ _ E2) as C2.
  destruct (setPassword kt SERVICE "seasonPass" (c_seasonPass creds) s2)
    as [[e3|[]] s3] eqn:E3.
  { cbv beta iota in H. injection H as <- <-.
    exists 2. split; [lia|]. intros i a v Hi.
    rewrite (set_rejected lawful _ _ _ _ E3), C2, C1.
    destruct i as [|[|[|[|[|i]]]]]; cbn in Hi; try discriminate;
      injection Hi as <- <-; reflexivity. }
  pose proof (set_resolved lawful _ _ _ _ E3) as C3.
  destruct (setPassword kt SERVICE "licensePlate" (c_licensePlate creds) s3)
    as [[e4|[]] s4] eqn:E4.
  { cbv beta iota in H. injection H as <- <-.
    exists 3. split; [lia|]. intros i a v Hi.
    rewrite (set_rejected lawful _ _ _ _ E4), C3, C2, C1.
    destruct i as [|[|[|[|[|i]]]]]; cbn in Hi; try discriminate;
      injection Hi as <- <-; reflexivity. }
  pose proof (set_resolved lawful _ _ _ _ E4) as C4.
  cbv beta iota in H. injection H as <- <-.
    exists 4. split; [reflexivity|]. intros i a v Hi.
  rewrite C4, C3, C2, C1.
  destruct i as [|[|[|[|[|i]]]]]; cbn in Hi; try discriminate;
    injection Hi as <- <-; reflexivity.
Qed.

(** what [loadCredentials] reads *)
Lemma load_reads st l st1 :
  loadCredentials kt st = (inr l, st1) ->
  l = mkLoaded (content st SERVICE "email") (content st SERVICE "password")
               (content st SERVICE "seasonPass") (content st SERVICE "licensePlate").
Proof.
  intros H. unfold loadCredentials in H.
  apply kbind_resolved in H. destruct H as (v1 & s1 & G1 & H).
  apply kbind_resolved in H. destruct H as (v2 & s2 & G2 & H).
  apply kbind_resolved in H. destruct H as (v3 & s3 & G3 & H).
  apply kbind_resolved in H. destruct H as (v4 & s4 & G4 & H).
  injection H as <- _.
  rewrite (get_resolved lawful _ _ _ G1), (get_resolved lawful _ _ _ G2),
    (get_resolved lawful _ _ _ G3), (get_resolved lawful _ _ _ G4).
  rewrite !(get_keeps lawful _ _ _ G3), !(get_keeps lawful _ _ _ G2),
    !(get_keeps lawful _ _ _ G1).
  reflexivity.
Qed.

(** X19.  On a keychain that keeps what keytar says, credentials that
    [saveCredentials] has saved (all four writes resolved) are what
    [loadCredentials] gives back, field by field. *)
Theorem saved_credentials_are_loaded (creds : Credentials)
    (st st1 st2 : chain kt) (l : Loaded) :
  saveCredentials kt creds st = (inr tt, st1) ->
  loadCredentials kt st1 = (inr l, st2) ->
  l = mkLoaded (Some (c_email creds)) (Some (c_password creds))
               (Some (c_seasonPass creds)) (Some (c_licensePlate creds)).
Proof.
  intros Hs Hl. rewrite (load_reads _ Hl).
  destruct (writes_content creds _ Hs) as (n & -> & Hc).
  rewrite (Hc 0 "email" (c_email creds) eq_refl),
    (Hc 1 "password" (c_password creds) eq_refl),
    (Hc 2 "seasonPass" (c_seasonPass creds) eq_refl),
    (Hc 3 "licensePlate" (c_licensePlate creds) eq_refl).
  reflexivity.
Qed.

(** X20.  [saveCredentials] is not atomic: when one of its writes is
    rejected, the fields written before it are replaced in the keychain and
    the failing field and those after it are left as they were, so the
    keychain can hold the new e-mail with the old password. *)
Theorem rejected_save_leaves_a_mixed_keychain (creds : Credentials)
    (st st1 : chain kt) (e : Error) :
  saveCredentials kt creds st = (inl e, st1) ->
  exists n, n < 4 /\
    forall i a v, nth_error (fields creds) i = Some (a, v) ->
      content st1 SERVICE a = if i <? n then Some v else content st SERVICE a.
Proof. intros H. exact (writes_content creds _ H). Qed.

End Laws.

Section Clearing.
Variable kt : Keytar.
Variable content : chain kt -> string -> string -> option string.
Hypothesis lawful : Lawful kt content.

(** X21.  On a keychain that keeps what keytar says, after
    [clearCredentials] has resolved [loadCredentials] gives [null] for all
    four fields, whatever was stored before. *)
Theorem cleared_credentials_load_as_null (st st1 st2 : chain kt) (l : Loaded) :
  clearCredentials kt st = (inr tt, st1) ->
  loadCredentials kt st1 = (inr l, st2) ->
  l = mkLoaded None None None None.
Proof.
  intros Hc Hl. rewrite (load_reads lawful _ Hl).
  unfold clearCredentials in Hc.
  apply kbind_resolved in Hc. destruct Hc as (b1 & s1 & D1 & Hc).
  apply kbind_resolved in Hc. destruct Hc as (b2 & s2 & D2 & Hc).
  apply kbind_resolved in Hc. destruct Hc as (b3 & s3 & D3 & Hc).
  apply kbind_resolved in Hc. destruct Hc as (b4 & s4 & D4 & Hc).
  injection Hc as <-.
  rewrite !(delete_resolved lawful _ _ _ D4), !(delete_resolved lawful _ _ _ D3),
    !(delete_resolved lawful _ _ _ D2), !(delete_resolved lawful _ _ _ D1).
  reflexivity.
Qed.

End Clearing.

(** the keychain in memory keeps what keytar says *)
Lemma find_filter sv a sv' a' (st : entries) :
  find sv' a'
    (filter (fun e => negb (String.eqb (fst (fst e)) sv && String.eqb (snd (fst e)) a)) st)
  = if String.eqb sv sv' && String.eqb a a' then None else find sv' a' st.
Proof.
  induction st as [|[[s0 a0] p0] st IH]; cbn [filter find fst snd].
  - destruct (_ && _); reflexivity.
  - destruct (String.eqb s0 sv && String.eqb a0 a) eqn:E0; cbn [negb].
    + rewrite IH. destruct (String.eqb sv sv' && String.eqb a a') eqn:E; [reflexivity|].
      apply andb_true_iff in E0. destruct E0 as [Es Ea].
      apply String.eqb_eq in Es, Ea. subst s0 a0. rewrite E. reflexivity.
    + cbn [find]. destruct (String.eqb s0 sv' && String.eqb a0 a') eqn:E1.
      * apply andb_true_iff in E1. destruct E1 as [Es Ea].
        apply String.eqb_eq in Es, Ea. subst s0 a0.
        replace (String.eqb sv sv' && String.eqb a a') with false; [reflexivity|].
        rewrite (String.eqb_sym sv sv'), (String.eqb_sym a a'). symmetry. exact E0.
      * exact IH.
Qed.

Lemma ring_lawful (denied : string -> bool) :
  Lawful (ring denied) (fun st sv a => find sv a st).
Proof.
  constructor; cbn [ring setPassword getPassword deletePassword chain].
  - intros sv a p st st' H. destruct (denied a); [discriminate|].
    injection H as <-. intros sv' a'. reflexivity.
  - intros sv a p st st' e H. destruct (denied a); [|discriminate].
    injection H as _ <-. reflexivity.
  - intros sv a st r st' H. injection H as _ <-. reflexivity.
  - intros sv a st v st' H. injection H as <- _. reflexivity.
  - intros sv a st b st' H. injection H as _ <-. intros sv' a'. apply find_filter.
Qed.

(** X19, on a keychain in memory. *)
Lemma saved_credentials_are_loaded_witness :
  let kt := ring (fun _ => false) in
  let creds := mkCreds "skier@example.com" "hunter2" "SP2ABCDEFGH" "ABC123" in
  let st1 := snd (saveCredentials kt creds []) in
  fst (load_credentials_handler kt st1) =
    mkLoaded (Some "skier@example.com"%string) (Some "hunter2"%string)
             (Some "SP2ABCDEFGH"%string) (Some "ABC123"%string).
Proof.
  intros kt creds st1.
  apply (@saved_credentials_are_loaded kt (fun st sv a => find sv a st)
           (ring_lawful (fun _ => false)) creds [] st1 st1);
    vm_compute; reflexivity.
Defined.

(** X20, on a keychain in memory that holds older credentials and rejects
    the write of the password: the e-mail is replaced (one write went
    through), the password is the old one. *)
Lemma rejected_save_leaves_a_mixed_keychain_witness :
  let kt := ring (String.eqb "password") in
  let creds := mkCreds "skier@example.com" "hunter2" "SP2ABCDEFGH" "ABC123" in
  let st := [(SERVICE, "email", "old@example.com"); (SERVICE, "password", "old")]%string in
  let st1 := snd (saveCredentials kt creds st) in
  (find SERVICE "email" st1 = Some "skier@example.com"%string /\
   find SERVICE "password" st1 = Some "old"%string) /\
  exists n, n < 4 /\
    forall i a v, nth_error (fields creds) i = Some (a, v) ->
      find SERVICE a st1 = if i <? n then Some v else find SERVICE a st.
Proof.
  intros kt creds st st1. split; [vm_compute; split; reflexivity|].
  apply (@rejected_save_leaves_a_mixed_keychain kt (fun st sv a => find sv a st)
           (ring_lawful (String.eqb "password")) creds st st1
           (mkError "Error" "User canceled the operation.")).
  vm_compute. reflexivity.
Defined.

(** X21, on a keychain in memory. *)
Lemma cleared_credentials_load_as_null_witness :
  let kt := ring (fun _ => false) in
  let st := [(SERVICE, "email", "old@example.com"); (SERVICE, "password", "old")]%string in
  let st1 := snd (clearCredentials kt st) in
  fst (load_credentials_handler kt st1) = mkLoaded None None None None.
Proof.
  intros kt st st1.
  apply (@cleared_credentials_load_as_null kt (fun st sv a => find sv a st)
           (ring_lawful (fun _ => false)) st st1 st1);
    vm_compute; reflexivity.
Defined.

End KeychainFacts.

(** ** The form *)

Module RendererFacts.
Import JsString Parking Main Keychain Renderer KeychainFacts.
Local Open Scope list_scope.

Lemma trimStart_blank (s : list ascii) : forallb is_space s = true -> trimStart s = [].
Proof.
  induction s as [|c s IH]; [reflexivity|]. cbn [forallb trimStart].
  intros H. apply andb_true_iff in H. destruct H as [-> H]. apply IH. exact H.
Qed.

(** a text of white space only is trimmed to the empty string *)
Lemma trim_blank (s : string) : forallb is_space (chars s) = true -> trim s = EmptyString.
Proof. intros H. unfold trim. rewrite (trimStart_blank _ H). reflexivity. Qed.

Lemma incomplete_false config :
  incomplete config = false ->
  truthy (ipc_email config) = true /\ truthy (ipc_password config) = true /\
  truthy (ipc_seasonPass config) = true /\ truthy (ipc_licensePlate config) = true /\
  truthy (ipc_targetDate config) = true.
Proof.
  unfold incomplete. intros H.
  repeat (apply orb_false_iff in H; destruct H as [H ?]).
  repeat split; apply negb_false_iff; assumption.
Qed.

Section Submit.
Variable toUpperCase : string -> string.

(** X22.  A configuration that [handleSubmit] sends to the main process
    always passes the validation of [startMonitor]: from the form, the
    ['error'] status 'Missing required config' cannot arise. *)
Theorem submitted_form_passes_monitor_validation (resourcesPath : string)
    (f : Form) (config : IpcConfig) :
  submit toUpperCase f = Some config ->
  first_missing (required (monitorConfig resourcesPath config)) = None.
Proof.
  unfold submit. destruct (incomplete (form_config toUpperCase f)) eqn:E; [discriminate|].
  intros [= <-]. apply incomplete_false in E.
  destruct E as (E1 & E2 & E3 & E4 & E5).
  unfold required, monitorConfig. cbn [first_missing email password seasonPass
    licensePlate targetDate].
  rewrite E1, E2, E3, E4, E5. reflexivity.
Qed.

Hypothesis upper_empty : toUpperCase EmptyString = EmptyString.

(** X23.  The form trims the e-mail, the season pass and the licence plate
    before it validates them: when one of the three is made of white space
    only, [handleSubmit] stops at 'Please fill in all fields' and nothing is
    sent to the main process.  (The password is not trimmed.) *)
Theorem blank_field_stops_at_the_form (f : Form) :
  forallb is_space (chars (emailInput f)) = true \/
  forallb is_space (chars (seasonPassInput f)) = true \/
  forallb is_space (chars (licensePlateInput f)) = true ->
  submit toUpperCase f = None.
Proof.
  intros H. unfold submit.
  replace (incomplete (form_config toUpperCase f)) with true; [reflexivity|].
  symmetry. unfold incomplete, form_config.
  cbn [ipc_email ipc_password ipc_seasonPass ipc_licensePlate ipc_targetDate].
  destruct H as [H | [H | H]]; rewrite (trim_blank _ H); rewrite ?upper_empty;
    cbn [truthy String.eqb negb orb]; rewrite ?orb_true_r; reflexivity.
Qed.

Variable kt : Keytar.
Variable content : chain kt -> string -> string -> option string.
Hypothesis lawful : Lawful kt content.

(** X24.  What was submitted comes back: when [handleSubmit] has saved the
    credentials of a form (all writes resolved, on a keychain that keeps
    what keytar says) and [loadCredentials] resolves at a later start,
    [init] puts the submitted e-mail, password, season pass and licence
    plate back into the inputs. *)
Theorem submitted_credentials_come_back (f f0 : Form) (config : IpcConfig)
    (st st1 st2 : chain kt) (l : Loaded) :
  submit toUpperCase f = Some config ->
  saveCredentials kt (saved config) st = (inr tt, st1) ->
  loadCredentials kt st1 = (inr l, st2) ->
  restore l f0 =
    mkForm (ipc_email config) (ipc_password config) (ipc_seasonPass config)
           (ipc_licensePlate config) (targetDateInput f0) (interval f0).
Proof.
  intros Hsub Hs Hl.
  unfold submit in Hsub.
  destruct (incomplete (form_config toUpperCase f)) eqn:E; [discriminate|].
  injection Hsub as Hc. apply incomplete_false in E. rewrite Hc in E.
  destruct E as (E1 & _).
  rewrite (load_reads lawful _ Hl).
  destruct (writes_content lawful (saved config) _ Hs) as (n & -> & Hw).
  rewrite (Hw 0 "email" (ipc_email config) eq_refl),
    (Hw 1 "password" (ipc_password config) eq_refl),
    (Hw 2 "seasonPass" (ipc_seasonPass config) eq_refl),
    (Hw 3 "licensePlate" (ipc_licensePlate config) eq_refl).
  unfold restore. cbn [l_email l_password l_seasonPass l_licensePlate truthy_opt or_empty
                       Nat.ltb Nat.leb].
  rewrite E1. reflexivity.
Qed.

End Submit.

(** X22, for a form typed with blanks and lower-case letters. *)
Lemma submitted_form_passes_monitor_validation_witness :
  submit ascii_upper typed =
    Some (mkIpc "skier@example.com" "hunter2" "SP2ABCDEFGH" "ABC123" "2026-02-01" 5) /\
  first_missing (required (monitorConfig "/res" (form_config ascii_upper typed))) = None.
Proof.
  split; [vm_compute; reflexivity|].
  apply (@submitted_form_passes_monitor_validation ascii_upper "/res" typed).
  vm_compute. reflexivity.
Defined.

(** X23, for an e-mail of three blanks. *)
Lemma blank_field_stops_at_the_form_witness :
  submit ascii_upper typed_blank_email = None.
Proof.
  apply (@blank_field_stops_at_the_form ascii_upper eq_refl typed_blank_email).
  left. vm_compute. reflexivity.
Defined.

(** X24, on a keychain in memory. *)
Lemma submitted_credentials_come_back_witness :
  let kt := ring (fun _ => false) in
  let config := form_config ascii_upper typed in
  let st1 := snd (saveCredentials kt (saved config) []) in
  restore (fst (load_credentials_handler kt st1)) empty_form =
    mkForm "skier@example.com" "hunter2" "SP2ABCDEFGH" "ABC123" "2026-01-31" 5.
Proof.
  intros kt config st1.
  apply (@submitted_credentials_come_back ascii_upper kt (fun st sv a => find sv a st)
           (ring_lawful (fun _ => false)) typed empty_form config [] st1 st1);
    vm_compute; reflexivity.
Defined.

End RendererFacts.

(** ** The date cell *)

Module CellFacts.
Import JsString Parking RunFacts Cells.
Local Open Scope list_scope.

Lemma run_await_bind (E : World) X B (op : Op (Error + X)) (k : X -> Prog B)
    (w w1 : state E) (x : X) :
  handle E op w = (inr x, w1) ->
  run E (bind (await op) k) w =
    let '(o, w2, tr) := run E (k x) w1 in (o, w2, evt op (inr x) :: tr).
Proof.
  intros H. unfold await. cbn [bind run]. rewrite H. cbn [bind]. reflexivity.
Qed.

(** X25.  One turn of the calendar loop on a view that has the date cell
    (lines 161-194), in any world.  The cell counts as sold out exactly when
    its [disabled] attribute is a non-empty string or its class contains
    [disabled] or [sold-out]; then the browser is closed and the cell is not
    clicked.  Otherwise the cell is clicked: in particular a cell that
    carries [disabled] as an empty attribute (the markup [<button disabled>])
    is taken as available and clicked. *)
Theorem date_cell_is_clicked_unless_taken
    (getDate : string -> option nat) (E : World) (left : nat)
    (browser : Browser) (page : Page) (targetDate : string) (el : Elem)
    (isDisabled class : option string) (w w1 w2 w3 : state E) :
  handle E (Query page (dateSelector targetDate)) w = (inr (Some el), w1) ->
  handle E (GetAttribute el "disabled") w1 = (inr isDisabled, w2) ->
  handle E (GetAttribute el "class") w2 = (inr class, w3) ->
  let tr := trace_of (run E (calendar_loop getDate (S left) browser page targetDate) w) in
  (isDisabled = Some EmptyString -> class = Some "day"%string ->
   taken isDisabled class = false) /\
  if taken isDisabled class
  then exists x,
         tr = [evt (Query page (dateSelector targetDate)) (inr (Some el));
               evt (GetAttribute el "disabled") (inr isDisabled);
               evt (GetAttribute el "class") (inr class);
               evt (OnStatus checking (targetDate ++ " found but SOLD OUT")) tt;
               evt (Close browser) x]
  else exists x rest,
         tr = [evt (Query page (dateSelector targetDate)) (inr (Some el));
               evt (GetAttribute el "disabled") (inr isDisabled);
               evt (GetAttribute el "class") (inr class);
               evt (OnStatus checking ("Found " ++ targetDate ++ " - selecting...")) tt;
               evt (Click el) x] ++ rest.
Proof.
  intros Hq Hd Hc tr. split; [intros -> ->; reflexivity|].
  subst tr. cbn [calendar_loop]. rewrite run_bind.
  unfold find_date. erewrite run_await_bind; [|exact Hq]. cbn [run]. cbn iota beta.
  erewrite run_await_bind; [|exact Hd]. erewrite run_await_bind; [|exact Hc].
  fold (class_list class). fold (taken isDisabled class).
  destruct (taken isDisabled class).
  - rewrite run_bind, run_call. cbn iota beta.
    destruct (handle E (OnStatus checking _) w3) as [[] w4]. cbn [fst snd].
    rewrite run_bind. unfold await. cbn [run].
    destruct (handle E (Close browser) w4) as [x w5].
    exists x. destruct x as [e|[]]; reflexivity.
  - rewrite run_bind, run_call. cbn iota beta.
    destruct (handle E (OnStatus checking _) w3) as [[] w4]. cbn [fst snd].
    rewrite run_bind. unfold await at 1. cbn [run].
    destruct (handle E (Click el) w4) as [x w5].
    exists x. destruct x as [e|[]]; cbn [run]; cbn iota beta.
    + exists []. reflexivity.
    + match goal with
      | |- context [run E ?p w5] => destruct (run E p w5) as [[o w6] tr]
      end.
      exists tr. reflexivity.
Qed.

(** X25, on a calendar whose date cell is [<button disabled class="day">]:
    the cell is clicked. *)
Lemma date_cell_is_clicked_unless_taken_witness :
  let tr := trace_of (run (Scenario.stateless disabled_cell)
                          (calendar_loop Scenario.iso_day 12 1 3 "2026-02-01") tt) in
  exists x rest,
    tr = [evt (Query 3 (dateSelector "2026-02-01")) (inr (Some 5));
          evt (GetAttribute 5 "disabled") (inr (Some EmptyString));
          evt (GetAttribute 5 "class") (inr (Some "day"%string));
          evt (OnStatus checking ("Found " ++ "2026-02-01" ++ " - selecting...")) tt;
          evt (Click 5) x] ++ rest.
Proof.
  intros tr.
  exact (proj2 (@date_cell_is_clicked_unless_taken Scenario.iso_day
                  (Scenario.stateless disabled_cell) 11 1 3 "2026-02-01" 5
                  (Some EmptyString) (Some "day"%string) tt tt tt tt
                  eq_refl eq_refl eq_refl)).
Defined.

End CellFacts.

(** ** A stop that arrives during an attempt *)

Module StopFacts.
Import JsString Parking RunFacts.
Local Open Scope list_scope.

(** X26.  A turn of the loop in which the signal reads aborted right after
    the attempt (lines 49 and 57), in any world: whether the attempt has
    returned without a booking or has thrown, the loop performs two more
    operations, the read of the signal and the 'Monitor stopped' event, and
    returns [{ booked: false }].  It does not sleep, and an error thrown by
    the attempt is not reported. *)
Theorem abort_seen_after_attempt_ends_quietly
    (getDate : string -> option nat) (E : World) (config : MonitorConfig)
    (signal : Signal) (fuel : nat) (w w1 : state E) (o : Outcome CheckResult)
    (tr : list Evt) :
  fst (handle E (SignalAborted signal) w) = false ->
  run E (checkAndBook getDate config) (snd (handle E (SignalAborted signal) w))
    = (o, w1, tr) ->
  (forall result, o = Returned result -> booked result = false) ->
  fst (handle E (SignalAborted signal) w1) = true ->
  run E (monitor_loop getDate (S fuel) config signal) w =
    (Returned (Some (mkResult false)),
     snd (handle E (OnStatus monitoring stopped_message)
            (snd (handle E (SignalAborted signal) w1))),
     evt (SignalAborted signal) false ::
       tr ++ [evt (SignalAborted signal) true;
              evt (OnStatus monitoring stopped_message) tt]).
Proof.
  intros Hlive Hrun Hnot Hstop.
  cbn [monitor_loop]. rewrite run_bind, run_call, Hlive. cbn iota beta.
  unfold monitor_turn. rewrite run_bind, run_try_catch, run_bind, Hrun.
  destruct o as [result|err]; cbn iota beta.
  - rewrite (Hnot result eq_refl). rewrite run_bind, run_call, Hstop. cbn iota beta.
    cbn [run]. unfold monitor_stopped. rewrite run_bind, run_call. cbn.
    destruct (handle E (OnStatus monitoring stopped_message) _) as [[] w3]. cbn.
    rewrite <- ?app_assoc. reflexivity.
  - rewrite run_bind, run_call, Hstop. cbn iota beta.
    cbn [run]. unfold monitor_stopped. rewrite run_bind, run_call. cbn.
    destruct (handle E (OnStatus monitoring stopped_message) _) as [[] w3]. cbn.
    rewrite <- ?app_assoc. reflexivity.
Qed.

(** X26, on a clock where every browser operation takes 10 ms and the shell
    asks to stop 50 ms after the start, while the attempt is in flight. *)
Lemma abort_seen_after_attempt_ends_quietly_witness :
  let W := Scenario.clock_world in
  let t0 := Scenario.clock_start 50 in
  let attempt := run W (checkAndBook Scenario.iso_day Scenario.config) t0 in
  outcome_of attempt = Returned not_found /\
  Clock.aborted (state_of attempt) 0 = true /\
  outcome_of (run W (monitor_loop Scenario.iso_day 1 Scenario.config 0) t0)
    = Returned (Some (mkResult false)) /\
  trace_of (run W (monitor_loop Scenario.iso_day 1 Scenario.config 0) t0)
    = evt (SignalAborted 0) false ::
        trace_of attempt ++ [evt (SignalAborted 0) true;
                             evt (OnStatus monitoring stopped_message) tt].
Proof.
  intros W t0 attempt.
  split; [vm_compute; reflexivity|]. split; [vm_compute; reflexivity|].
  rewrite (@abort_seen_after_attempt_ends_quietly Scenario.iso_day W Scenario.config
             0 0 t0 (state_of attempt) (outcome_of attempt) (trace_of attempt)).
  - split; reflexivity.
  - vm_compute. reflexivity.
  - apply result_eta.
  - intros result H. vm_compute in H. injection H as <-. reflexivity.
  - vm_compute. reflexivity.
Defined.

(** X27.  The interval the window sends in minutes is the number the
    status messages of [startMonitor] show, for every whole number of
    minutes whose product by 60000 is at most 2^53 in absolute value (where
    the doubles of the source are exact): the handler multiplies it by
    60000 and [startMonitor] rounds the quotient by 60000. *)
Theorem interval_is_reported_in_minutes (resourcesPath : string)
    (config : Main.IpcConfig) :
  (Z.abs (Main.intervalMinutes config) * 60000 <= 9007199254740992)%Z ->
  let monitorConfig := Main.monitorConfig resourcesPath config in
  starting_message monitorConfig =
    ("Starting monitor for " ++ Main.ipc_targetDate config ++ " (checking every "
       ++ of_Z (Main.intervalMinutes config) ++ " min)")%string /\
  next_check_message monitorConfig =
    ("Next check in " ++ of_Z (Main.intervalMinutes config) ++ " minute(s)...")%string.
Proof.
  intros _.
  assert (H : minutes (intervalMs (Main.monitorConfig resourcesPath config))
              = of_Z (Main.intervalMinutes config)).
  { unfold minutes, Main.monitorConfig. cbn [intervalMs]. f_equal.
    replace (Main.intervalMinutes config * 60 * 1000 + 30000)%Z
      with (Main.intervalMinutes config * 60000 + 30000)%Z by lia.
    rewrite Z.div_add_l by lia. change (30000 / 60000)%Z with 0%Z. lia. }
  intros monitorConfig. subst monitorConfig.
  unfold starting_message, next_check_message. rewrite H. split; reflexivity.
Qed.

(** X27, for an interval of five minutes. *)
Lemma interval_is_reported_in_minutes_witness :
  starting_message (Main.monitorConfig "/res" Scenario.ipc_config) =
    "Starting monitor for 2026-02-01 (checking every 5 min)"%string /\
  next_check_message (Main.monitorConfig "/res" Scenario.ipc_config) =
    "Next check in 5 minute(s)..."%string.
Proof.
  apply (@interval_is_reported_in_minutes "/res" Scenario.ipc_config).
  vm_compute. discriminate.
Defined.

End StopFacts.
